(** * A shallow embedding of the diff engine of csv-diff-viewer (src-wasm)

    The Rust crate is modelled function by function:
    - [utils.rs]: value normalisation, row keys, fingerprints, the row
      similarity scorer;
    - [core.rs]: [parse_csv_internal], the one-shot primary-key and
      content-match diffs, and the chunked session [CsvDifferInternal];
    - [binary.rs]: the binary result encoder and the header decoder.

    Conventions of the model.
    - Strings are Rocq [string]s (ASCII); [str::trim] removes the ASCII
      whitespace characters, [to_lowercase] lowers ASCII letters.
    - A [StringRecord] is a [list string]; [row.get(i).unwrap_or("")] is
      [nth i row ""].
    - An [AHashMap] is an association list.  Where the code iterates a hash
      map, whose order Rust leaves unspecified, the model iterates the list;
      no statement below depends on that order.
    - [Result<_, Box<dyn Error>>] is [Result] with the error message.
    - Progress callbacks are advisory and not modelled.
    - Floating-point scores are exact rationals ([Q]); the string metrics of
      the [strsim] crate are parameters of the scorer. *)

From Stdlib Require Import List String Ascii Arith Lia Bool ZArith NArith QArith Qfield Lqa Permutation.
Import ListNotations.
Open Scope string_scope.
Open Scope list_scope.
Open Scope nat_scope.

(** ** Results *)

Inductive Result (A : Type) : Type :=
| Ok : A -> Result A
| Err : string -> Result A.
Arguments Ok {A} _.
Arguments Err {A} _.

Definition bind {A B} (r : Result A) (k : A -> Result B) : Result B :=
  match r with
  | Ok a => k a
  | Err e => Err e
  end.

Notation "'let*' x := r 'in' k" := (bind r (fun x => k))
  (at level 200, x pattern, r at level 100, k at level 200).

(** ** Characters and strings *)

Definition nl : string := String (ascii_of_nat 10) EmptyString.
Definition dq : string := String (ascii_of_nat 34) EmptyString.

(** [char::is_whitespace] on ASCII: tab, LF, VT, FF, CR and space. *)
Definition is_ws (c : ascii) : bool :=
  let n := nat_of_ascii c in (9 <=? n) && (n <=? 13) || (n =? 32).

Fixpoint drop_ws (l : list ascii) : list ascii :=
  match l with
  | c :: r => if is_ws c then drop_ws r else l
  | [] => []
  end.

(** [str::trim] *)
Definition trim (s : string) : string :=
  string_of_list_ascii (rev (drop_ws (rev (drop_ws (list_ascii_of_string s))))).

Definition lower_ascii (c : ascii) : ascii :=
  let n := nat_of_ascii c in
  if (65 <=? n) && (n <=? 90) then ascii_of_nat (n + 32) else c.

(** [str::to_lowercase] *)
Definition to_lowercase (s : string) : string :=
  string_of_list_ascii (map lower_ascii (list_ascii_of_string s)).

(** [str::eq_ignore_ascii_case] *)
Definition eq_ignore_ascii_case (a b : string) : bool :=
  String.eqb (to_lowercase a) (to_lowercase b).

Definition is_ascii_digit (c : ascii) : bool :=
  let n := nat_of_ascii c in (48 <=? n) && (n <=? 57).

(** [s.chars().all(|c| c.is_ascii_digit())] *)
Definition all_digits (s : string) : bool :=
  forallb is_ascii_digit (list_ascii_of_string s).

(** [v.join(sep)] *)
Fixpoint join (sep : string) (l : list string) : string :=
  match l with
  | [] => ""
  | [x] => x
  | x :: r => (x ++ sep ++ join sep r)%string
  end.

(** Decimal rendering of a [usize] for [format!("{}", n)]. *)
Fixpoint digits_of (fuel n : nat) (acc : string) : string :=
  match fuel with
  | 0 => acc
  | S f =>
      let d := String (ascii_of_nat (48 + n mod 10)) EmptyString in
      if n <? 10 then (d ++ acc)%string else digits_of f (n / 10) (d ++ acc)%string
  end.

Definition string_of_nat (n : nat) : string := digits_of (S n) n "".

(** Substring test, used to read error messages. *)
Fixpoint str_contains (hay needle : string) : bool :=
  match hay with
  | EmptyString => String.eqb needle ""
  | String _ rest => String.prefix needle hay || str_contains rest needle
  end.

(** ** Records and header maps *)

Definition record := list string.

(** [row.get(i).unwrap_or("")] *)
Definition cell (row : record) (i : nat) : string := nth i row "".

(** [AHashMap<String, usize>]: inserting prepends, so the first binding
    found is the latest insert (insert overwrites). *)
Definition header_map := list (string * nat).

Fixpoint hm_get (m : header_map) (k : string) : option nat :=
  match m with
  | [] => None
  | (k', v) :: r => if String.eqb k k' then Some v else hm_get r k
  end.

Definition hm_contains (m : header_map) (k : string) : bool :=
  match hm_get m k with Some _ => true | None => false end.

(** [for (i, h) in headers.iter().enumerate() { header_map.insert(h.clone(), i); }] *)
Fixpoint build_header_map_from (i : nat) (hs : list string) (m : header_map) : header_map :=
  match hs with
  | [] => m
  | h :: r => build_header_map_from (S i) r ((h, i) :: m)
  end.

Definition build_header_map (hs : list string) : header_map :=
  build_header_map_from 0 hs [].

(** [excluded_columns.contains(header)] *)
Definition str_mem (l : list string) (s : string) : bool :=
  existsb (String.eqb s) l.

(** ** Normalisation (utils.rs) *)

(** [is_empty_or_null] *)
Definition is_empty_or_null (value : string) : bool :=
  let v := trim value in String.eqb v "" || eq_ignore_ascii_case v "null".

(** [normalize_value_cow] / [normalize_value_with_empty_vs_null]: the
    borrowed and owned branches carry the same text. *)
Definition normalize_value_with_empty_vs_null (value : string)
    (case_sensitive ignore_whitespace ignore_empty_vs_null : bool) : string :=
  let trimmed := if ignore_whitespace then trim value else value in
  if ignore_empty_vs_null && is_empty_or_null trimmed then "EMPTY_OR_NULL"
  else if case_sensitive then trimmed
  else to_lowercase trimmed.

(** Modelled from the spec: [normalize_value(value, case_sensitive,
    ignore_whitespace)], called by core.rs but not defined in the sources.
    Spec 4.2: trim whitespace iff [ignore_whitespace]; lowercase iff not
    [case_sensitive]; this three-argument form has no empty-vs-null policy. *)
Definition normalize_value (value : string) (case_sensitive ignore_whitespace : bool) : string :=
  let trimmed := if ignore_whitespace then trim value else value in
  if case_sensitive then trimmed else to_lowercase trimmed.

(** [get_row_fingerprint] *)
Definition get_row_fingerprint (row : record) (headers : list string) (hm : header_map)
    (cs iw ien : bool) (excluded : list string) : string :=
  join "||"
    (map (fun h =>
            let v := match hm_get hm h with Some idx => cell row idx | None => "" end in
            normalize_value_with_empty_vs_null v cs iw ien)
         (filter (fun h => negb (str_mem excluded h)) headers)).

(** [get_row_key] *)
Definition get_row_key (row : record) (hm : header_map) (key_columns : list string) : string :=
  join "|" (map (fun k => match hm_get hm k with Some idx => cell row idx | None => "" end)
                key_columns).

(** [HashMap::insert] on a [HashMap<String, String>]: a later insert of the
    same key overwrites the value in place. *)
Fixpoint row_insert (m : list (string * string)) (k v : string) : list (string * string) :=
  match m with
  | [] => [(k, v)]
  | (k', v') :: r => if String.eqb k k' then (k', v) :: r else (k', v') :: row_insert r k v
  end.

(** [record_to_hashmap]: [(h, row.get(i).unwrap_or(""))] for each header,
    collected into a [HashMap]. *)
Definition record_to_hashmap (row : record) (headers : list string) : list (string * string) :=
  fold_left (fun m p => row_insert m (snd p) (cell row (fst p)))
            (combine (seq 0 (List.length headers)) headers) [].

(** ** The record reader

    The CSV record reader ([csv::ReaderBuilder] with [Trim::All] and the
    default [flexible(false)]) is an external collaborator.  It is modelled
    for unquoted input: records end at CR or LF, blank lines are skipped,
    fields are separated by commas and trimmed, and a record whose field
    count differs from the first record's is an error. *)

Fixpoint split_on (is_sep : ascii -> bool) (l : list ascii) (cur : list ascii)
    : list (list ascii) :=
  match l with
  | [] => [rev cur]
  | c :: r => if is_sep c then rev cur :: split_on is_sep r [] else split_on is_sep r (c :: cur)
  end.

Definition is_eol (c : ascii) : bool :=
  let n := nat_of_ascii c in (n =? 10) || (n =? 13).

Definition is_comma (c : ascii) : bool := (nat_of_ascii c =? 44).

Definition split_record (line : list ascii) : record :=
  map (fun f => trim (string_of_list_ascii f)) (split_on is_comma line []).

Definition raw_records (input : string) : list record :=
  map split_record
      (filter (fun l => match l with [] => false | _ => true end)
              (split_on is_eol (list_ascii_of_string input) [])).

Definition csv_read (input : string) : Result (list record) :=
  match raw_records input with
  | [] => Ok []
  | r0 :: rs =>
      if forallb (fun r => List.length r =? List.length r0) rs then Ok (r0 :: rs)
      else Err "CSV error: found record with a different number of fields"
  end.

(** ** [parse_csv_internal] (core.rs) *)

(** The test applied to each header token. *)
Definition header_token_looks_like_data (h : string) : bool :=
  let trimmed := trim h in
  all_digits trimmed || ((String.length trimmed <=? 6) && all_digits trimmed).

Definition column_headers (n : nat) : list string :=
  map (fun i => ("Column" ++ string_of_nat (i + 1))%string) (seq 0 n).

Definition parsed := (list string * list record * header_map)%type.

Definition parse_csv_internal (csv_content : string) (has_headers : bool) : Result parsed :=
  if has_headers then
    let* recs := csv_read csv_content in
    let headers := match recs with [] => [] | h :: _ => h end in
    let rows := tl recs in
    match headers, rows with
    | _ :: _, first_row :: _ =>
        if (List.length headers =? List.length first_row)
           && existsb header_token_looks_like_data headers then
          let* auto_rows := csv_read csv_content in
          let auto_headers := column_headers (List.length first_row) in
          Ok (auto_headers, auto_rows, build_header_map auto_headers)
        else Ok (headers, rows, build_header_map headers)
    | _, _ => Ok (headers, rows, build_header_map headers)
    end
  else
    let* rows := csv_read csv_content in
    match rows with
    | [] => Ok ([], [], [])
    | r0 :: _ =>
        let generated := column_headers (List.length r0) in
        Ok (generated, rows, build_header_map generated)
    end.

(** ** Result types (types.rs)

    Each bucket entry also carries, as ghost fields not present in the Rust
    structs, the index of the source row ([_six]) and/or target row ([_tix])
    it was built from, so that statements can speak of row identity. *)

Record DiffChange := { dc_added : bool; dc_removed : bool; dc_value : string }.

Record Difference := {
  column : string; old_value : string; new_value : string; diff : list DiffChange }.

Definition row_map := list (string * string).

Record AddedRow := { ar_key : string; ar_target_row : row_map; ar_tix : nat }.
Record RemovedRow := { rr_key : string; rr_source_row : row_map; rr_six : nat }.
Record ModifiedRow := {
  mr_key : string; mr_source_row : row_map; mr_target_row : row_map;
  mr_differences : list Difference; mr_six : nat; mr_tix : nat }.
Record UnchangedRow := { ur_key : string; ur_row : row_map; ur_six : nat; ur_tix : nat }.

Record DatasetMetadata := { dm_headers : list string; dm_rows : list row_map }.

Record DiffResult := {
  added : list AddedRow;
  removed : list RemovedRow;
  modified : list ModifiedRow;
  unchanged : list UnchangedRow;
  source : DatasetMetadata;
  target : DatasetMetadata;
  dr_key_columns : list string;
  dr_excluded_columns : list string;
  dr_mode : string }.

(** Per-bucket counts (added, removed, modified, unchanged). *)
Definition counts (r : DiffResult) : nat * nat * nat * nat :=
  (List.length (added r), List.length (removed r), List.length (modified r),
   List.length (unchanged r)).

(** A key map [AHashMap<String, usize>] (row key -> row index). *)
Definition key_map := list (string * nat).

(** The keys of a dataset's rows, in row order. *)
Definition row_keys (rows : list record) (hm : header_map) (key_columns : list string)
    : list string :=
  map (fun r => get_row_key r hm key_columns) rows.

Section Diff.

(** [diff_text_internal]: the word-level diff of the [similar] crate,
    an auxiliary collaborator returning the spans of one changed cell. *)
Variable diff_text_internal : string -> string -> bool -> list DiffChange.

(** The column-by-column comparison loop shared verbatim by the primary-key
    diff, the chunked primary-key diff and the accepted fuzzy matches:
    [for header in &source_headers { if excluded .. continue; .. }].
    ([source_header_map.get(header).unwrap()] cannot fail: the source
    header map is built from [source_headers].) *)
Fixpoint compute_differences (source_headers : list string) (shm thm : header_map)
    (excluded : list string) (cs iw ien : bool) (source_row target_row : record)
    : list Difference :=
  match source_headers with
  | [] => []
  | header :: rest =>
      let tl_diffs := compute_differences rest shm thm excluded cs iw ien source_row target_row in
      if str_mem excluded header then tl_diffs else
      match hm_get shm header, hm_get thm header with
      | Some source_idx, Some target_idx =>
          let source_val_raw := cell source_row source_idx in
          let target_val_raw := cell target_row target_idx in
          let source_val := normalize_value_with_empty_vs_null source_val_raw cs iw ien in
          let target_val := normalize_value_with_empty_vs_null target_val_raw cs iw ien in
          if negb (String.eqb source_val target_val) then
            {| column := header; old_value := source_val_raw; new_value := target_val_raw;
               diff := diff_text_internal source_val_raw target_val_raw cs |} :: tl_diffs
          else tl_diffs
      | _, _ => tl_diffs
      end
  end.

(** ** Primary-key diff (core.rs) *)

Definition dup_key_message (dataset key : string) : string :=
  ("Duplicate Primary Key found in " ++ dataset ++ ": " ++ dq ++ key ++ dq
   ++ ". Primary Keys must be unique.")%string.

Definition missing_key_message (key dataset : string) : string :=
  ("Primary key column " ++ dq ++ key ++ dq ++ " not found in " ++ dataset ++ " dataset.")%string.

(** [for (i, row) in rows.iter().enumerate() { let key = get_row_key(..);
    if map.contains_key(&key) { return Err(..) } map.insert(key, i); }] *)
Fixpoint build_key_map_from (dataset : string) (i : nat) (rows : list record)
    (hm : header_map) (key_columns : list string) (m : key_map) : Result key_map :=
  match rows with
  | [] => Ok m
  | row :: rest =>
      let key := get_row_key row hm key_columns in
      if hm_contains m key then Err (dup_key_message dataset key)
      else build_key_map_from dataset (S i) rest hm key_columns ((key, i) :: m)
  end.

Definition build_key_map (dataset : string) (rows : list record) (hm : header_map)
    (key_columns : list string) : Result key_map :=
  build_key_map_from dataset 0 rows hm key_columns [].

(** The validation loop over the key columns. *)
Fixpoint validate_key_columns (key_columns : list string) (shm thm : header_map) : Result unit :=
  match key_columns with
  | [] => Ok tt
  | key :: rest =>
      if negb (hm_contains shm key) then Err (missing_key_message key "source")
      else if negb (hm_contains thm key) then Err (missing_key_message key "target")
      else validate_key_columns rest shm thm
  end.

(** "Find removed": [for (key, &row_idx) in source_map { if !target_map.contains_key(key) {..} }] *)
Definition find_removed (source_map target_map : key_map) (source_rows : list record)
    (source_headers : list string) : list RemovedRow :=
  map (fun p => {| rr_key := fst p;
                   rr_source_row := record_to_hashmap (nth (snd p) source_rows []) source_headers;
                   rr_six := snd p |})
      (filter (fun p => negb (hm_contains target_map (fst p))) source_map).

(** The outcome for one target row in primary-key mode. *)
Inductive Classified :=
| CAdded (a : AddedRow)
| CModified (m : ModifiedRow)
| CUnchanged (u : UnchangedRow).

(** The body of the target loop ([match source_map.get(key) { .. }]),
    identical in the one-shot and the chunked primary-key diff. *)
Definition classify_target_row (source_map : key_map) (source_rows : list record)
    (source_headers target_headers : list string) (shm thm : header_map)
    (excluded : list string) (cs iw ien : bool)
    (key : string) (tix : nat) (target_row : record) : Classified :=
  match hm_get source_map key with
  | None => CAdded {| ar_key := key; ar_target_row := record_to_hashmap target_row target_headers;
                      ar_tix := tix |}
  | Some six =>
      let source_row := nth six source_rows [] in
      let differences :=
        compute_differences source_headers shm thm excluded cs iw ien source_row target_row in
      match differences with
      | _ :: _ =>
          CModified {| mr_key := key; mr_source_row := record_to_hashmap source_row source_headers;
                       mr_target_row := record_to_hashmap target_row target_headers;
                       mr_differences := differences; mr_six := six; mr_tix := tix |}
      | [] =>
          CUnchanged {| ur_key := key; ur_row := record_to_hashmap source_row source_headers;
                        ur_six := six; ur_tix := tix |}
      end
  end.

(** The pushes into [added], [modified] and [unchanged], in loop order. *)
Fixpoint split_classified (l : list Classified)
    : list AddedRow * list ModifiedRow * list UnchangedRow :=
  match l with
  | [] => ([], [], [])
  | c :: rest =>
      let '(a, m, u) := split_classified rest in
      match c with
      | CAdded x => (x :: a, m, u)
      | CModified x => (a, x :: m, u)
      | CUnchanged x => (a, m, x :: u)
      end
  end.

(** [diff_csv_primary_key_internal] *)
Definition diff_csv_primary_key_internal (source_csv target_csv : string)
    (key_columns : list string) (case_sensitive ignore_whitespace ignore_empty_vs_null : bool)
    (excluded_columns : list string) (has_headers : bool) : Result DiffResult :=
  let* (source_headers, source_rows, source_header_map) := parse_csv_internal source_csv has_headers in
  let* (target_headers, target_rows, target_header_map) := parse_csv_internal target_csv has_headers in
  let* _ := validate_key_columns key_columns source_header_map target_header_map in
  let* source_map := build_key_map "source" source_rows source_header_map key_columns in
  let* target_map := build_key_map "target" target_rows target_header_map key_columns in
  let removed_rows := find_removed source_map target_map source_rows source_headers in
  let '(added_rows, modified_rows, unchanged_rows) :=
    split_classified
      (map (fun p => classify_target_row source_map source_rows source_headers target_headers
                       source_header_map target_header_map excluded_columns
                       case_sensitive ignore_whitespace ignore_empty_vs_null
                       (fst p) (snd p) (nth (snd p) target_rows []))
           target_map) in
  Ok {| added := added_rows; removed := removed_rows; modified := modified_rows;
        unchanged := unchanged_rows;
        source := {| dm_headers := source_headers;
                     dm_rows := map (fun r => record_to_hashmap r source_headers) source_rows |};
        target := {| dm_headers := target_headers;
                     dm_rows := map (fun r => record_to_hashmap r target_headers) target_rows |};
        dr_key_columns := key_columns; dr_excluded_columns := excluded_columns;
        dr_mode := "primary-key" |}.

(** ** Content-match diff (core.rs)

    The [AHashSet<usize>] of unmatched target indices is a list without
    duplicates; [contains] is [existsb] and [remove] filters the element out.
    The fingerprint lookup maps a fingerprint to its [Vec<usize>], kept
    top-first (the element [pop] returns comes first).  The inverted index
    maps [(column position, normalized value)] to its [Vec<usize>] in push
    order. *)

(** [a < b] on scores. *)
Definition Qlt_bool (a b : Q) : bool := negb (Qle_bool b a).

Definition set_contains (s : list nat) (x : nat) : bool := existsb (Nat.eqb x) s.
Definition set_remove (s : list nat) (x : nat) : list nat := filter (fun y => negb (Nat.eqb x y)) s.

Definition fp_map := list (string * list nat).
Definition inv_key := (nat * string)%type.
Definition inv_key_eqb (a b : inv_key) : bool := Nat.eqb (fst a) (fst b) && String.eqb (snd a) (snd b).
Definition inv_map := list (inv_key * list nat).

Fixpoint assoc_get {K V} (eqb : K -> K -> bool) (m : list (K * V)) (k : K) : option V :=
  match m with
  | [] => None
  | (k', v) :: r => if eqb k k' then Some v else assoc_get eqb r k
  end.

Fixpoint assoc_set {K V} (eqb : K -> K -> bool) (m : list (K * V)) (k : K) (v : V) : list (K * V) :=
  match m with
  | [] => [(k, v)]
  | (k', v') :: r => if eqb k k' then (k', v) :: r else (k', v') :: assoc_set eqb r k v
  end.

(** [map.entry(k).or_default().push(idx)], for the fingerprint stacks
    (top-first) and for the inverted index (push order). *)
Definition fp_push (m : fp_map) (k : string) (idx : nat) : fp_map :=
  match assoc_get String.eqb m k with
  | Some v => assoc_set String.eqb m k (idx :: v)
  | None => assoc_set String.eqb m k [idx]
  end.

Definition inv_push (m : inv_map) (k : inv_key) (idx : nat) : inv_map :=
  match assoc_get inv_key_eqb m k with
  | Some v => assoc_set inv_key_eqb m k (app v [idx])
  | None => assoc_set inv_key_eqb m k [idx]
  end.

(** The inner loop over [source_headers.iter().enumerate()] that feeds the
    inverted index with one target row. *)
Fixpoint index_row_columns (col_idx : nat) (source_headers : list string) (thm : header_map)
    (excluded : list string) (cs iw : bool) (idx : nat) (row : record) (inv : inv_map) : inv_map :=
  match source_headers with
  | [] => inv
  | header :: rest =>
      let inv' :=
        if str_mem excluded header then inv else
        match hm_get thm header with
        | Some target_col_idx =>
            match nth_error row target_col_idx with
            | Some val => inv_push inv (col_idx, normalize_value val cs iw) idx
            | None => inv
            end
        | None => inv
        end in
      index_row_columns (S col_idx) rest thm excluded cs iw idx row inv'
  end.

(** The indexing loop over [target_rows.iter().enumerate()]. *)
Fixpoint index_targets (idx : nat) (target_rows : list record) (source_headers : list string)
    (thm : header_map) (excluded : list string) (cs iw ien : bool)
    (fps : fp_map) (inv : inv_map) : fp_map * inv_map :=
  match target_rows with
  | [] => (fps, inv)
  | row :: rest =>
      let fp := get_row_fingerprint row source_headers thm cs iw ien excluded in
      index_targets (S idx) rest source_headers thm excluded cs iw ien
        (fp_push fps fp idx) (index_row_columns 0 source_headers thm excluded cs iw idx row inv)
  end.

(** [while let Some(target_idx) = indices.pop() { if unmatched.contains(..) { ..; break; } }]:
    the index consumed (if any) and what is left of the stack. *)
Fixpoint pop_unmatched (stack : list nat) (unmatched : list nat) : option nat * list nat :=
  match stack with
  | [] => (None, [])
  | t :: rest => if set_contains unmatched t then (Some t, rest) else pop_unmatched rest unmatched
  end.

(** The exact pass for one source row: [target_fingerprint_lookup.get_mut(&fp)]. *)
Definition exact_pass (fps : fp_map) (unmatched : list nat) (fp : string) : option nat * fp_map :=
  match assoc_get String.eqb fps fp with
  | Some stack =>
      let '(hit, rest) := pop_unmatched stack unmatched in (hit, assoc_set String.eqb fps fp rest)
  | None => (None, fps)
  end.

(** [row_tokens]: [(bucket size, column position, normalized value)] for every
    non-excluded source column whose value occurs in the inverted index. *)
Fixpoint row_tokens_from (col_idx : nat) (source_headers : list string) (shm : header_map)
    (excluded : list string) (cs iw : bool) (source_row : record) (inv : inv_map)
    : list (nat * nat * string) :=
  match source_headers with
  | [] => []
  | header :: rest =>
      let tl_tokens := row_tokens_from (S col_idx) rest shm excluded cs iw source_row inv in
      if str_mem excluded header then tl_tokens else
      match hm_get shm header with
      | Some source_col_idx =>
          let source_val := normalize_value (cell source_row source_col_idx) cs iw in
          match assoc_get inv_key_eqb inv (col_idx, source_val) with
          | Some target_indices => (List.length target_indices, col_idx, source_val) :: tl_tokens
          | None => tl_tokens
          end
      | None => tl_tokens
      end
  end.

(** A stable sort by a key ([slice::sort_by] is stable): insertion sort.
    [le a b] holds when [a] may come before [b]; [insert_by] puts [x]
    before the first [y] it may precede, so [x], which came first in the
    input, stays ahead of the elements equal to it. *)
Fixpoint insert_by {A} (le : A -> A -> bool) (x : A) (l : list A) : list A :=
  match l with
  | [] => [x]
  | y :: r => if le x y then x :: y :: r else y :: insert_by le x r
  end.

Fixpoint sort_by {A} (le : A -> A -> bool) (l : list A) : list A :=
  match l with
  | [] => []
  | x :: r => insert_by le x (sort_by le r)
  end.

(** [*candidate_scores.entry(target_idx).or_default() += 1] *)
Definition bump (scores : list (nat * nat)) (t : nat) : list (nat * nat) :=
  match assoc_get Nat.eqb scores t with
  | Some c => assoc_set Nat.eqb scores t (S c)
  | None => assoc_set Nat.eqb scores t 1
  end.

(** The budgeted candidate accumulation loop over the sorted [row_tokens]. *)
Fixpoint gather_candidates (tokens : list (nat * nat * string)) (budget : nat)
    (inv : inv_map) (unmatched : list nat) (scores : list (nat * nat)) : list (nat * nat) :=
  match tokens with
  | [] => scores
  | (count, col_idx, val) :: rest =>
      if count =? 0 then gather_candidates rest budget inv unmatched scores
      else if budget =? 0 then scores
      else if (budget <? count) && negb (match scores with [] => true | _ => false end) then scores
      else if 10000 <? count then scores
      else match assoc_get inv_key_eqb inv (col_idx, val) with
           | Some target_indices =>
               gather_candidates rest (budget - count) inv unmatched
                 (fold_left (fun sc t => if set_contains unmatched t then bump sc t else sc)
                            target_indices scores)
           | None => gather_candidates rest budget inv unmatched scores
           end
  end.

(** [top_candidates]: [candidate_scores] collected, stably sorted by
    descending shared-column count, truncated to 10.  [candidate_scores] is a
    hash map, so Rust collects it in an unspecified order; the model collects
    the association list in its own order, and the stable sort keeps that
    order among equal counts, as [sort_by] keeps Rust's. *)
Definition top_candidates (scores : list (nat * nat)) : list (nat * nat) :=
  firstn 10 (sort_by (fun a b => snd b <=? snd a) scores).

(** The shortlist of a source row that missed the exact pass. *)
Definition shortlist (source_headers : list string) (shm : header_map) (excluded : list string)
    (cs iw : bool) (inv : inv_map) (unmatched : list nat) (source_row : record) : list (nat * nat) :=
  let tokens := sort_by (fun a b => fst (fst a) <=? fst (fst b))
                  (row_tokens_from 0 source_headers shm excluded cs iw source_row inv) in
  top_candidates (gather_candidates tokens 2000 inv unmatched []).

(** [for (cand_idx, _) in top_candidates { let score = ..; if score > best_real_score { .. } }],
    starting from [best_match_idx = None] and [best_real_score = 0.0]. *)
Fixpoint best_candidate (score_of : nat -> Q) (cands : list (nat * nat)) (best : option nat * Q)
    : option nat * Q :=
  match cands with
  | [] => best
  | (cand_idx, _) :: rest =>
      let score := score_of cand_idx in
      best_candidate score_of rest (if Qlt_bool (snd best) score then (Some cand_idx, score) else best)
  end.

(** The accumulators of the source-row loop. *)
Record cm_acc := {
  acc_unmatched : list nat;
  acc_fps : fp_map;
  acc_removed : list RemovedRow;
  acc_modified : list ModifiedRow;
  acc_unchanged : list UnchangedRow }.

(** One iteration of the source-row loop, shared by [diff_csv_internal] and
    [diff_content_match_chunk]; they differ only in how a shortlisted
    candidate is scored, [cand_score source_row target_row]. *)
Definition content_match_row (source_headers target_headers : list string)
    (shm thm : header_map) (excluded : list string) (cs iw ien : bool)
    (inv : inv_map) (target_rows : list record) (cand_score : record -> record -> Q)
    (i : nat) (source_row : record) (a : cm_acc) : cm_acc :=
  let row_counter := S i in
  let source_fingerprint := get_row_fingerprint source_row source_headers shm cs iw ien excluded in
  let '(hit, fps') := exact_pass (acc_fps a) (acc_unmatched a) source_fingerprint in
  match hit with
  | Some target_idx =>
      {| acc_unmatched := set_remove (acc_unmatched a) target_idx; acc_fps := fps';
         acc_removed := acc_removed a; acc_modified := acc_modified a;
         acc_unchanged := app (acc_unchanged a)
           [{| ur_key := ("Row " ++ string_of_nat row_counter)%string;
               ur_row := record_to_hashmap source_row source_headers;
               ur_six := i; ur_tix := target_idx |}] |}
  | None =>
      let cands := shortlist source_headers shm excluded cs iw inv (acc_unmatched a) source_row in
      let removed_row :=
        {| rr_key := ("Removed " ++ string_of_nat (List.length (acc_removed a) + 1))%string;
           rr_source_row := record_to_hashmap source_row source_headers; rr_six := i |} in
      let as_removed :=
        {| acc_unmatched := acc_unmatched a; acc_fps := fps';
           acc_removed := app (acc_removed a) [removed_row];
           acc_modified := acc_modified a; acc_unchanged := acc_unchanged a |} in
      match best_candidate (fun t => cand_score source_row (nth t target_rows [])) cands (None, 0%Q) with
      | (Some idx, best_real_score) =>
          if Qlt_bool (1 # 2) best_real_score then
            let target_row := nth idx target_rows [] in
            {| acc_unmatched := set_remove (acc_unmatched a) idx; acc_fps := fps';
               acc_removed := acc_removed a;
               acc_modified := app (acc_modified a)
                 [{| mr_key := ("Row " ++ string_of_nat row_counter)%string;
                     mr_source_row := record_to_hashmap source_row source_headers;
                     mr_target_row := record_to_hashmap target_row target_headers;
                     mr_differences := compute_differences source_headers shm thm excluded
                                         cs iw ien source_row target_row;
                     mr_six := i; mr_tix := idx |}];
               acc_unchanged := acc_unchanged a |}
          else as_removed
      | (None, _) => as_removed
      end
  end.

(** The loop [for (i, source_row) in source_rows.iter().enumerate()] over the
    rows [i0, i0 + 1, ...]. *)
Fixpoint content_match_rows (source_headers target_headers : list string)
    (shm thm : header_map) (excluded : list string) (cs iw ien : bool)
    (inv : inv_map) (target_rows : list record) (cand_score : record -> record -> Q)
    (i : nat) (rows : list record) (a : cm_acc) : cm_acc :=
  match rows with
  | [] => a
  | source_row :: rest =>
      content_match_rows source_headers target_headers shm thm excluded cs iw ien inv target_rows
        cand_score (S i) rest
        (content_match_row source_headers target_headers shm thm excluded cs iw ien inv target_rows
           cand_score i source_row a)
  end.

End Diff.

(** ** Similarity scores, the one-shot content-match diff and the session *)

Section Scored.

Variable diff_text_internal : string -> string -> bool -> list DiffChange.

(** [strsim::jaro_winkler] and [strsim::normalized_levenshtein]. *)
Variables jaro_winkler normalized_levenshtein : string -> string -> Q.

(** The loop of [calculate_row_similarity] (utils.rs), with its two
    accumulators [total_similarity] and [compared_fields]. *)
Fixpoint similarity_loop (headers : list string) (header_map1 header_map2 : header_map)
    (excluded : list string) (row1 row2 : record) (total : Q) (compared : nat) : Q * nat :=
  match headers with
  | [] => (total, compared)
  | header :: rest =>
      if str_mem excluded header then
        similarity_loop rest header_map1 header_map2 excluded row1 row2 total compared
      else
      match hm_get header_map1 header, hm_get header_map2 header with
      | Some i1, Some i2 =>
          let val1 := cell row1 i1 in
          let val2 := cell row2 i2 in
          let similarity :=
            if (String.length val1 <=? 20) && (String.length val2 <=? 20)
            then jaro_winkler val1 val2 else normalized_levenshtein val1 val2 in
          similarity_loop rest header_map1 header_map2 excluded row1 row2
            (total + similarity) (S compared)
      | _, _ => similarity_loop rest header_map1 header_map2 excluded row1 row2 total compared
      end
  end.

Definition Q_of_nat (n : nat) : Q := inject_Z (Z.of_nat n).

(** [calculate_row_similarity] *)
Definition calculate_row_similarity (row1 row2 : record) (headers : list string)
    (header_map1 header_map2 : header_map) (excluded : list string) : Q :=
  let '(total, compared) := similarity_loop headers header_map1 header_map2 excluded row1 row2 0 0 in
  if 0 <? compared then total / Q_of_nat compared else 0.

(** The candidate score of [diff_content_match_chunk]: the inline loop with
    [match_count] and [total_compared]. *)
Fixpoint match_count_loop (source_headers : list string) (shm thm : header_map)
    (excluded : list string) (cs iw : bool) (source_row target_row : record)
    (match_count total_compared : nat) : nat * nat :=
  match source_headers with
  | [] => (match_count, total_compared)
  | header :: rest =>
      if str_mem excluded header then
        match_count_loop rest shm thm excluded cs iw source_row target_row match_count total_compared
      else
      match hm_get shm header, hm_get thm header with
      | Some source_idx, Some target_idx =>
          let source_val := normalize_value (cell source_row source_idx) cs iw in
          let target_val := normalize_value (cell target_row target_idx) cs iw in
          match_count_loop rest shm thm excluded cs iw source_row target_row
            (if String.eqb source_val target_val then S match_count else match_count)
            (S total_compared)
      | _, _ =>
          match_count_loop rest shm thm excluded cs iw source_row target_row match_count total_compared
      end
  end.

Definition chunk_candidate_score (source_headers : list string) (shm thm : header_map)
    (excluded : list string) (cs iw : bool) (source_row target_row : record) : Q :=
  let '(match_count, total_compared) :=
    match_count_loop source_headers shm thm excluded cs iw source_row target_row 0 0 in
  if 0 <? total_compared then Q_of_nat match_count / Q_of_nat total_compared else 0.

Fixpoint strs_eqb (a b : list string) : bool :=
  match a, b with
  | [], [] => true
  | x :: a', y :: b' => String.eqb x y && strs_eqb a' b'
  | _, _ => false
  end.

(** [remaining_indices.sort()] then the [AddedRow]s "Added 1", "Added 2", ... *)
Fixpoint added_rows_from (added_index : nat) (idxs : list nat) (target_rows : list record)
    (target_headers : list string) : list AddedRow :=
  match idxs with
  | [] => []
  | idx :: rest =>
      {| ar_key := ("Added " ++ string_of_nat added_index)%string;
         ar_target_row := record_to_hashmap (nth idx target_rows []) target_headers;
         ar_tix := idx |} :: added_rows_from (S added_index) rest target_rows target_headers
  end.

Definition remaining_added (unmatched : list nat) (target_rows : list record)
    (target_headers : list string) : list AddedRow :=
  added_rows_from 1 (sort_by Nat.leb unmatched) target_rows target_headers.

(** [diff_csv_internal] *)
Definition diff_csv_internal (source_csv target_csv : string)
    (case_sensitive ignore_whitespace ignore_empty_vs_null : bool)
    (excluded_columns : list string) (has_headers : bool) : Result DiffResult :=
  let* (source_headers, source_rows, source_header_map) := parse_csv_internal source_csv has_headers in
  let* (target_headers_orig, target_rows_orig, target_header_map_orig) :=
    parse_csv_internal target_csv has_headers in
  let '(target_headers, target_rows, target_header_map) :=
    if negb (strs_eqb source_headers target_headers_orig)
       && (List.length source_headers =? List.length target_headers_orig)
    then (source_headers, target_rows_orig, source_header_map)
    else (target_headers_orig, target_rows_orig, target_header_map_orig) in
  let '(fps, inv) :=
    index_targets 0 target_rows source_headers target_header_map excluded_columns
      case_sensitive ignore_whitespace ignore_empty_vs_null [] [] in
  let a :=
    content_match_rows diff_text_internal source_headers target_headers source_header_map
      target_header_map excluded_columns case_sensitive ignore_whitespace ignore_empty_vs_null
      inv target_rows
      (fun sr tr => calculate_row_similarity sr tr source_headers source_header_map
                      target_header_map excluded_columns)
      0 source_rows
      {| acc_unmatched := seq 0 (List.length target_rows); acc_fps := fps;
         acc_removed := []; acc_modified := []; acc_unchanged := [] |} in
  Ok {| added := remaining_added (acc_unmatched a) target_rows target_headers;
        removed := acc_removed a; modified := acc_modified a; unchanged := acc_unchanged a;
        source := {| dm_headers := source_headers;
                     dm_rows := map (fun r => record_to_hashmap r source_headers) source_rows |};
        target := {| dm_headers := target_headers;
                     dm_rows := map (fun r => record_to_hashmap r target_headers) target_rows |};
        dr_key_columns := []; dr_excluded_columns := excluded_columns;
        dr_mode := "content-match" |}.

End Scored.

(** ** The chunked session [CsvDifferInternal] (core.rs) *)

Record CsvDifferInternal := {
  d_source_headers : list string;
  d_source_rows : list record;
  d_source_header_map : header_map;
  d_target_headers : list string;
  d_target_rows : list record;
  d_target_header_map : header_map;
  d_key_columns : list string;
  d_excluded_columns : list string;
  d_case_sensitive : bool;
  d_ignore_whitespace : bool;
  d_ignore_empty_vs_null : bool;
  d_mode : string;
  (* PK mode state *)
  d_source_map : option key_map;
  d_target_map : option key_map;
  (* content-match mode state *)
  d_unmatched_target_indices : option (list nat);
  d_target_fingerprint_lookup : option fp_map;
  d_inverted_index : option inv_map }.

(** Replaces the mode-specific state of a session. *)
Definition with_state (d : CsvDifferInternal) (sm tm : option key_map) (u : option (list nat))
    (f : option fp_map) (i : option inv_map) : CsvDifferInternal :=
  {| d_source_headers := d_source_headers d; d_source_rows := d_source_rows d;
     d_source_header_map := d_source_header_map d; d_target_headers := d_target_headers d;
     d_target_rows := d_target_rows d; d_target_header_map := d_target_header_map d;
     d_key_columns := d_key_columns d; d_excluded_columns := d_excluded_columns d;
     d_case_sensitive := d_case_sensitive d; d_ignore_whitespace := d_ignore_whitespace d;
     d_ignore_empty_vs_null := d_ignore_empty_vs_null d; d_mode := d_mode d;
     d_source_map := sm; d_target_map := tm; d_unmatched_target_indices := u;
     d_target_fingerprint_lookup := f; d_inverted_index := i |}.

(** [Option::unwrap] on [None] panics. *)
Definition unwrap_panic : string := "called `Option::unwrap()` on a `None` value".

(** [init_primary_key] *)
Definition init_primary_key (d : CsvDifferInternal) : Result CsvDifferInternal :=
  let* _ := validate_key_columns (d_key_columns d) (d_source_header_map d) (d_target_header_map d) in
  let* source_map := build_key_map "source" (d_source_rows d) (d_source_header_map d) (d_key_columns d) in
  let* target_map := build_key_map "target" (d_target_rows d) (d_target_header_map d) (d_key_columns d) in
  Ok (with_state d (Some source_map) (Some target_map) (d_unmatched_target_indices d)
        (d_target_fingerprint_lookup d) (d_inverted_index d)).

(** [init_content_match] *)
Definition init_content_match (d : CsvDifferInternal) : Result CsvDifferInternal :=
  let '(fps, inv) :=
    index_targets 0 (d_target_rows d) (d_source_headers d) (d_target_header_map d)
      (d_excluded_columns d) (d_case_sensitive d) (d_ignore_whitespace d)
      (d_ignore_empty_vs_null d) [] [] in
  Ok (with_state d (d_source_map d) (d_target_map d)
        (Some (seq 0 (List.length (d_target_rows d)))) (Some fps) (Some inv)).

(** [CsvDifferInternal::new] *)
Definition new_differ (source_csv target_csv : string) (key_columns : list string)
    (case_sensitive ignore_whitespace ignore_empty_vs_null : bool)
    (excluded_columns : list string) (has_headers : bool) (mode : string)
    : Result CsvDifferInternal :=
  let* (source_headers, source_rows, source_header_map) := parse_csv_internal source_csv has_headers in
  let* (target_headers_orig, target_rows_orig, target_header_map_orig) :=
    parse_csv_internal target_csv has_headers in
  let '(target_headers, target_rows, target_header_map) :=
    if String.eqb mode "content-match" && negb (strs_eqb source_headers target_headers_orig)
       && (List.length source_headers =? List.length target_headers_orig)
    then (source_headers, target_rows_orig, source_header_map)
    else (target_headers_orig, target_rows_orig, target_header_map_orig) in
  let differ :=
    {| d_source_headers := source_headers; d_source_rows := source_rows;
       d_source_header_map := source_header_map; d_target_headers := target_headers;
       d_target_rows := target_rows; d_target_header_map := target_header_map;
       d_key_columns := key_columns; d_excluded_columns := excluded_columns;
       d_case_sensitive := case_sensitive; d_ignore_whitespace := ignore_whitespace;
       d_ignore_empty_vs_null := ignore_empty_vs_null; d_mode := mode;
       d_source_map := None; d_target_map := None; d_unmatched_target_indices := None;
       d_target_fingerprint_lookup := None; d_inverted_index := None |} in
  if String.eqb mode "primary-key" then init_primary_key differ else init_content_match differ.

Section Session.

Variable diff_text_internal : string -> string -> bool -> list DiffChange.

(** [chunk_start + chunk_size] is a [usize] sum, 32 bits wide on the
    wasm32 target: it wraps modulo 2^32 (release build; a debug build
    panics instead).  [chunk_end] is that sum capped at [n]. *)
Definition usize_modulus : N := 4294967296.

Definition chunk_end_of (chunk_start chunk_size n : nat) : nat :=
  N.to_nat (N.min ((N.of_nat chunk_start + N.of_nat chunk_size) mod usize_modulus) (N.of_nat n))%N.

(** [diff_primary_key_chunk]: target rows [chunk_start .. chunk_end). *)
Definition diff_primary_key_chunk (d : CsvDifferInternal) (chunk_start chunk_size : nat)
    : Result DiffResult :=
  match d_source_map d, d_target_map d with
  | Some source_map, Some target_map =>
      let n := List.length (d_target_rows d) in
      let chunk_end := chunk_end_of chunk_start chunk_size n in
      let '(added_rows, modified_rows, unchanged_rows) :=
        split_classified
          (map (fun i =>
                  let target_row := nth i (d_target_rows d) [] in
                  let key := get_row_key target_row (d_target_header_map d) (d_key_columns d) in
                  classify_target_row diff_text_internal source_map (d_source_rows d)
                    (d_source_headers d) (d_target_headers d) (d_source_header_map d)
                    (d_target_header_map d) (d_excluded_columns d) (d_case_sensitive d)
                    (d_ignore_whitespace d) (d_ignore_empty_vs_null d) key i target_row)
               (seq chunk_start (chunk_end - chunk_start))) in
      let removed_rows :=
        if n <=? chunk_end
        then find_removed source_map target_map (d_source_rows d) (d_source_headers d)
        else [] in
      Ok {| added := added_rows; removed := removed_rows; modified := modified_rows;
            unchanged := unchanged_rows;
            source := {| dm_headers := d_source_headers d; dm_rows := [] |};
            target := {| dm_headers := d_target_headers d; dm_rows := [] |};
            dr_key_columns := d_key_columns d; dr_excluded_columns := d_excluded_columns d;
            dr_mode := "primary-key" |}
  | _, _ => Err unwrap_panic
  end.

(** [diff_content_match_chunk]: source rows [chunk_start .. chunk_end).
    [take(chunk_end - chunk_start)] follows [skip(chunk_start)].  When
    [chunk_end < chunk_start] the [usize] subtraction wraps to
    2^32 - (chunk_start - chunk_end), which is at least the number of rows
    left after [skip(chunk_start)] (a [Vec] on wasm32 holds fewer than 2^32
    rows), so [take] keeps them all. *)
Definition diff_content_match_chunk (d : CsvDifferInternal) (chunk_start chunk_size : nat)
    : Result (DiffResult * CsvDifferInternal) :=
  match d_unmatched_target_indices d, d_target_fingerprint_lookup d, d_inverted_index d with
  | Some unmatched, Some fps, Some inv =>
      let n := List.length (d_source_rows d) in
      let chunk_end := chunk_end_of chunk_start chunk_size n in
      let take_count := if chunk_start <=? chunk_end then chunk_end - chunk_start else n in
      let a :=
        content_match_rows diff_text_internal (d_source_headers d) (d_target_headers d)
          (d_source_header_map d) (d_target_header_map d) (d_excluded_columns d)
          (d_case_sensitive d) (d_ignore_whitespace d) (d_ignore_empty_vs_null d)
          inv (d_target_rows d)
          (chunk_candidate_score (d_source_headers d) (d_source_header_map d)
             (d_target_header_map d) (d_excluded_columns d) (d_case_sensitive d)
             (d_ignore_whitespace d))
          chunk_start (firstn take_count (skipn chunk_start (d_source_rows d)))
          {| acc_unmatched := unmatched; acc_fps := fps;
             acc_removed := []; acc_modified := []; acc_unchanged := [] |} in
      let added_rows :=
        if n <=? chunk_end
        then remaining_added (acc_unmatched a) (d_target_rows d) (d_target_headers d)
        else [] in
      Ok ({| added := added_rows; removed := acc_removed a; modified := acc_modified a;
             unchanged := acc_unchanged a;
             source := {| dm_headers := d_source_headers d; dm_rows := [] |};
             target := {| dm_headers := d_target_headers d; dm_rows := [] |};
             dr_key_columns := []; dr_excluded_columns := d_excluded_columns d;
             dr_mode := "content-match" |},
          with_state d (d_source_map d) (d_target_map d) (Some (acc_unmatched a))
            (Some (acc_fps a)) (Some inv))
  | _, _, _ => Err unwrap_panic
  end.

(** [diff_chunk]: the primary-key path takes [&self] and leaves the session
    as it is. *)
Definition diff_chunk (d : CsvDifferInternal) (chunk_start chunk_size : nat)
    : Result (DiffResult * CsvDifferInternal) :=
  if String.eqb (d_mode d) "primary-key" then
    let* r := diff_primary_key_chunk d chunk_start chunk_size in Ok (r, d)
  else diff_content_match_chunk d chunk_start chunk_size.

(** A sequence of [diff_chunk] calls on one session, summing the counts. *)
Fixpoint run_chunks (d : CsvDifferInternal) (chunks : list (nat * nat))
    : Result (nat * nat * nat * nat) :=
  match chunks with
  | [] => Ok (0, 0, 0, 0)
  | (start, size) :: rest =>
      let* (r, d') := diff_chunk d start size in
      let* (a, rm, m, u) := run_chunks d' rest in
      let '(a0, rm0, m0, u0) := counts r in
      Ok (a0 + a, rm0 + rm, m0 + m, u0 + u)
  end.

End Session.

(** ** Binary result codec (binary.rs)

    A byte is an [N] below 256, a [Vec<u8>] a [list N].  A [usize] length
    cast [as u32] is taken modulo 2^32, and [u32] addition wraps (release
    build; a debug build panics instead). *)

Open Scope N_scope.

Definition two32 : N := 4294967296.

(** [x as u32] *)
Definition as_u32 (n : nat) : N := N.of_nat n mod two32.

(** [u32] addition. *)
Definition add_u32 (a b : N) : N := (a + b) mod two32.

(** [value.to_le_bytes()] *)
Definition u32_le (v : N) : list N :=
  [v mod 256; (v / 256) mod 256; (v / 65536) mod 256; (v / 16777216) mod 256].

(** [u32::from_le_bytes] *)
Definition u32_of_le (b0 b1 b2 b3 : N) : N := b0 + 256 * b1 + 65536 * b2 + 16777216 * b3.

(** [s.as_bytes()] *)
Definition str_bytes (s : string) : list N := map N_of_ascii (list_ascii_of_string s).

(** The [write_*] methods append to the encoder's buffer. *)
Definition write_u8 (buf : list N) (v : N) : list N := app buf [v].
Definition write_u32 (buf : list N) (v : N) : list N := app buf (u32_le v).
Definition write_string (buf : list N) (s : string) : list N :=
  app (write_u32 buf (as_u32 (String.length s))) (str_bytes s).
Definition write_row_data (buf : list N) (row : row_map) : list N :=
  fold_left (fun b kv => write_string (write_string b (fst kv)) (snd kv)) row
            (write_u32 buf (as_u32 (List.length row))).

(** [BinaryEncoder::new()]: an empty buffer. *)
Definition encoder_new : list N := [].

(** [encode_diff_result]: the 20-byte header, then one record per row. *)
Definition encode_diff_result (buf : list N) (result : DiffResult) : list N :=
  let total :=
    add_u32 (add_u32 (add_u32 (as_u32 (List.length (added result)))
                              (as_u32 (List.length (removed result))))
                     (as_u32 (List.length (modified result))))
            (as_u32 (List.length (unchanged result))) in
  let b := write_u32 buf total in
  let b := write_u32 b (as_u32 (List.length (added result))) in
  let b := write_u32 b (as_u32 (List.length (removed result))) in
  let b := write_u32 b (as_u32 (List.length (modified result))) in
  let b := write_u32 b (as_u32 (List.length (unchanged result))) in
  let b := fold_left (fun b row => write_row_data (write_string (write_u8 b 1) (ar_key row))
                                                  (ar_target_row row))
                     (added result) b in
  let b := fold_left (fun b row => write_row_data (write_string (write_u8 b 2) (rr_key row))
                                                  (rr_source_row row))
                     (removed result) b in
  let b := fold_left (fun b row =>
             let b := write_row_data (write_row_data (write_string (write_u8 b 3) (mr_key row))
                                                     (mr_source_row row)) (mr_target_row row) in
             fold_left (fun b d => write_string (write_string (write_string b (column d))
                                                               (old_value d)) (new_value d))
                       (mr_differences row)
                       (write_u32 b (as_u32 (List.length (mr_differences row)))))
           (modified result) b in
  fold_left (fun b row => write_row_data (write_string (write_u8 b 4) (ur_key row)) (ur_row row))
            (unchanged result) b.

(** The decoder reads from a fixed buffer at a position; [None] is the panic
    of an out-of-range slice index ([self.buffer[a..b]] with [b] past the
    end, or [b < a]).  Positions are unbounded naturals: where
    [position + len] would overflow a [usize], the true sum is past the end
    of the buffer, and Rust panics there as well (overflow check or slice
    check). *)
Section Decoder.

Variable buffer : list N.

(** [&self.buffer[a..b]] *)
Definition slice (a b : nat) : option (list N) :=
  if (a <=? b)%nat && (b <=? List.length buffer)%nat
  then Some (firstn (b - a) (skipn a buffer)) else None.

(** [read_u8] *)
Definition read_u8 (position : nat) : option (N * nat) :=
  match nth_error buffer position with
  | Some v => Some (v, S position)
  | None => None
  end.

(** [read_u32] *)
Definition read_u32 (position : nat) : option (N * nat) :=
  match slice position (position + 4) with
  | Some [b0; b1; b2; b3] => Some (u32_of_le b0 b1 b2 b3, (position + 4)%nat)
  | _ => None
  end.

(** [read_string]: the bytes handed to [String::from_utf8_lossy]. *)
Definition read_string (position : nat) : option (list N * nat) :=
  match read_u32 position with
  | Some (len, p) =>
      match slice p (p + N.to_nat len) with
      | Some bytes => Some (bytes, (p + N.to_nat len)%nat)
      | None => None
      end
  | None => None
  end.

(** The field loop of [read_row_data]. *)
Fixpoint read_fields (k : nat) (position : nat) (row : list (list N * list N))
    : option (list (list N * list N) * nat) :=
  match k with
  | O => Some (row, position)
  | S k' =>
      match read_string position with
      | Some (key, p1) =>
          match read_string p1 with
          | Some (value, p2) => read_fields k' p2 (app row [(key, value)])
          | None => None
          end
      | None => None
      end
  end.

(** [read_row_data] *)
Definition read_row_data (position : nat) : option (list (list N * list N) * nat) :=
  match read_u32 position with
  | Some (field_count, p) => read_fields (N.to_nat field_count) p []
  | None => None
  end.

(** [decode_header] *)
Definition decode_header (position : nat) : option ((N * N * N * N * N) * nat) :=
  match read_u32 position with
  | Some (total, p1) =>
      match read_u32 p1 with
      | Some (a, p2) =>
          match read_u32 p2 with
          | Some (r, p3) =>
              match read_u32 p3 with
              | Some (m, p4) =>
                  match read_u32 p4 with
                  | Some (u, p5) => Some ((total, a, r, m, u), p5)
                  | None => None
                  end
              | None => None
              end
          | None => None
          end
      | None => None
      end
  | None => None
  end.

End Decoder.

Close Scope N_scope.

(** ** Statement vocabulary *)

(** Every [write_*] only appends to the buffer. *)
Definition appends (f : list N -> list N) : Prop := forall b, exists s, f b = app b s.

(** The three outcomes of building the two key maps: the source's
    duplicate first, then the target's, else success. *)
Definition key_map_outcome {A} (r : Result A) (srows trows : list record) (shm thm : header_map)
    (kc : list string) : Prop :=
  (~ NoDup (row_keys srows shm kc) ->
     exists k, r = Err (dup_key_message "source" k)
               /\ (2 <= count_occ string_dec (row_keys srows shm kc) k)%nat)
  /\ (NoDup (row_keys srows shm kc) -> ~ NoDup (row_keys trows thm kc) ->
     exists k, r = Err (dup_key_message "target" k)
               /\ (2 <= count_occ string_dec (row_keys trows thm kc) k)%nat)
  /\ (NoDup (row_keys srows shm kc) -> NoDup (row_keys trows thm kc) -> exists x, r = Ok x).


(** The columns both rows are compared on: not excluded, and present in
    both header maps, in header order. *)
Definition shared_columns (headers : list string) (hm1 hm2 : header_map) (excluded : list string)
    : list string :=
  filter (fun h => negb (str_mem excluded h) && hm_contains hm1 h && hm_contains hm2 h) headers.

(** The cell of a row under a column name ([""] when the column is absent). *)
Definition lookup_cell (hm : header_map) (row : record) (h : string) : string :=
  match hm_get hm h with Some i => cell row i | None => "" end.

(** The per-column score of [calculate_row_similarity]. *)
Definition column_similarity (jaro_winkler normalized_levenshtein : string -> string -> Q)
    (val1 val2 : string) : Q :=
  if (String.length val1 <=? 20) && (String.length val2 <=? 20)
  then jaro_winkler val1 val2 else normalized_levenshtein val1 val2.

Definition sum_Q (l : list Q) : Q := fold_right Qplus 0%Q l.

(** Which bucket a classified target row goes to. *)
Definition is_added (c : Classified) : bool := match c with CAdded _ => true | _ => false end.
Definition is_modified (c : Classified) : bool := match c with CModified _ => true | _ => false end.
Definition is_unchanged (c : Classified) : bool := match c with CUnchanged _ => true | _ => false end.

(** A sequence of [diff_chunk] ranges [(start, size)] on [n] rows: each
    range starts where the previous one ended (the first at [start]), its
    end [start + size] is a [usize] (below 2^32, so the sum does not wrap),
    and only the last one reaches [n]. *)
Fixpoint valid_chunks_from (start n : nat) (chunks : list (nat * nat)) : bool :=
  match chunks with
  | [] => false
  | (s, size) :: rest =>
      (s =? start) && N.ltb (N.of_nat s + N.of_nat size)%N usize_modulus &&
      match rest with
      | [] => n <=? s + size
      | _ => (s + size <? n) && valid_chunks_from (s + size) n rest
      end
  end.

Definition valid_chunks (n : nat) (chunks : list (nat * nat)) : bool := valid_chunks_from 0 n chunks.

(** The source rows (by index) a diff result places in Removed, Modified
    and Unchanged, and the target rows it places in Added, Modified and
    Unchanged, bucket after bucket. *)
Definition source_ids (r : DiffResult) : list nat :=
  app (map rr_six (removed r)) (app (map mr_six (modified r)) (map ur_six (unchanged r))).

Definition target_ids (r : DiffResult) : list nat :=
  app (map ar_tix (added r)) (app (map mr_tix (modified r)) (map ur_tix (unchanged r))).

(** The target row of a classified target row, and its source row if any. *)
Definition c_tix (c : Classified) : nat :=
  match c with CAdded a => ar_tix a | CModified m => mr_tix m | CUnchanged u => ur_tix u end.

Definition c_six (c : Classified) : list nat :=
  match c with CAdded _ => [] | CModified m => [mr_six m] | CUnchanged u => [ur_six u] end.

(** The source and target rows already placed by the content-match loop. *)
Definition acc_six (a : cm_acc) : list nat :=
  app (map rr_six (acc_removed a)) (app (map mr_six (acc_modified a)) (map ur_six (acc_unchanged a))).

Definition acc_tix (a : cm_acc) : list nat :=
  app (map mr_tix (acc_modified a)) (map ur_tix (acc_unchanged a)).

(** ** Instances of the collaborators and example inputs *)

(** A word-level diff that reports no spans. *)
Definition no_spans (a b : string) (cs : bool) : list DiffChange := [].

(** A string similarity that is 1 on equal strings and 0 otherwise. *)
Definition eq_indicator (a b : string) : Q := if String.eqb a b then 1%Q else 0%Q.

Definition example_source : string := ("id,name" ++ nl ++ "1,A" ++ nl ++ "2,B")%string.

Definition example_target : string :=
  ("id,name" ++ nl ++ "1,A" ++ nl ++ "2,C" ++ nl ++ "3,D")%string.

Definition example_header_map : header_map := build_header_map ["id"; "name"].

From Stdlib Require Import Sorted.

(** ** Further vocabulary *)

(** One field of [write_row_data]: key, then value. *)
Definition write_field (b : list N) (kv : string * string) : list N :=
  write_string (write_string b (fst kv)) (snd kv).

Definition field_fits (kv : string * string) : Prop :=
  (N.of_nat (String.length (fst kv)) < two32)%N /\ (N.of_nat (String.length (snd kv)) < two32)%N.

Definition decoded_field (kv : string * string) : list N * list N :=
  (str_bytes (fst kv), str_bytes (snd kv)).

(** [get_row_fingerprint_fast] (utils.rs): the header loop, pushing ["||"]
    before every included header but the first.  [excluded_set] is the
    [AHashSet] collected from the excluded columns; [contains] is
    membership. *)
Fixpoint fingerprint_fast_loop (row : record) (hm : header_map) (cs iw ien : bool)
    (excluded_set : list string) (headers : list string) (result : string) (first : bool)
    : string :=
  match headers with
  | [] => result
  | h :: rest =>
      if str_mem excluded_set h
      then fingerprint_fast_loop row hm cs iw ien excluded_set rest result first
      else
        let result := if negb first then (result ++ "||")%string else result in
        let val := match hm_get hm h with Some idx => cell row idx | None => "" end in
        let normalized := normalize_value_with_empty_vs_null val cs iw ien in
        fingerprint_fast_loop row hm cs iw ien excluded_set rest (result ++ normalized)%string false
  end.

Definition get_row_fingerprint_fast (row : record) (headers : list string) (hm : header_map)
    (cs iw ien : bool) (excluded_set : list string) : string :=
  fingerprint_fast_loop row hm cs iw ien excluded_set headers "" true.

(** The fields of a joined string after its first one, each behind the
    separator. *)
Definition prefixed (sep : string) (l : list string) : string :=
  fold_right (fun v s => (sep ++ v ++ s)%string) "" l.

(** [HashMap<String, String>::get] on a row map. *)
Fixpoint row_get (m : row_map) (k : string) : option string :=
  match m with
  | [] => None
  | (k', v) :: r => if String.eqb k k' then Some v else row_get r k
  end.

(** The value of the last pair with key [k] in a list of insertions. *)
Fixpoint last_assoc {B} (l : list (string * B)) (k : string) : option B :=
  match l with
  | [] => None
  | (k', v) :: r =>
      match last_assoc r k with
      | Some w => Some w
      | None => if String.eqb k k' then Some v else None
      end
  end.

(** ** Parallel primary-key diff (parallel.rs)

    [diff_csv_parallel_internal] is what [diff_csv_primary_key] runs when
    [use_parallel] is set.  Its key maps are collected with [.collect()]
    into an [AHashMap<String, usize>]: a later pair with a key already
    present overwrites the value in place. *)

Fixpoint key_map_insert (m : key_map) (k : string) (v : nat) : key_map :=
  match m with
  | [] => [(k, v)]
  | (k', v') :: r => if String.eqb k k' then (k', v) :: r else (k', v') :: key_map_insert r k v
  end.

(** [rows.iter().enumerate().map(|(i, row)| (get_row_key(..), i)).collect()] *)
Definition collect_key_map (rows : list record) (hm : header_map) (key_columns : list string)
    : key_map :=
  fold_left (fun m p => key_map_insert m (fst p) (snd p))
            (combine (row_keys rows hm key_columns) (seq 0 (List.length rows))) [].

(** The duplicate check [for key in map.keys() { if !set.insert(key) {
    return Err(..) } }]: the first key already inserted, if any. *)
Fixpoint first_repeat (seen : list string) (keys : list string) : option string :=
  match keys with
  | [] => None
  | k :: rest => if str_mem seen k then Some k else first_repeat (k :: seen) rest
  end.

(** The closure of [parallel_compare_rows] for one [(key, target_row_idx)]
    of the target map.  Its column loop is the loop of
    [compute_differences], with [diff: Vec::new()] for the spans. *)
Definition parallel_compare_row (source_map : key_map) (target_rows source_rows : list record)
    (target_headers source_headers : list string) (thm shm : header_map)
    (excluded : list string) (cs iw ien : bool) (key : string) (target_row_idx : nat)
    : Classified :=
  let target_row := nth target_row_idx target_rows [] in
  match hm_get source_map key with
  | None => CAdded {| ar_key := key; ar_target_row := record_to_hashmap target_row target_headers;
                      ar_tix := target_row_idx |}
  | Some source_row_idx =>
      let source_row := nth source_row_idx source_rows [] in
      let differences :=
        compute_differences no_spans source_headers shm thm excluded cs iw ien source_row target_row in
      match differences with
      | [] => CUnchanged {| ur_key := key; ur_row := record_to_hashmap target_row target_headers;
                            ur_six := source_row_idx; ur_tix := target_row_idx |}
      | _ => CModified {| mr_key := key;
                          mr_source_row := record_to_hashmap source_row source_headers;
                          mr_target_row := record_to_hashmap target_row target_headers;
                          mr_differences := differences;
                          mr_six := source_row_idx; mr_tix := target_row_idx |}
      end
  end.

(** [parallel_compare_rows]: the per-entry results in target-map order,
    then split into the three vectors. *)
Definition parallel_compare_rows (target_map : key_map) (target_rows : list record)
    (target_headers : list string) (thm : header_map) (source_map : key_map)
    (source_rows : list record) (source_headers : list string) (shm : header_map)
    (excluded : list string) (cs iw ien : bool)
    : list AddedRow * list ModifiedRow * list UnchangedRow :=
  split_classified
    (map (fun p => parallel_compare_row source_map target_rows source_rows target_headers
                     source_headers thm shm excluded cs iw ien (fst p) (snd p))
         target_map).

(** [parallel_find_removed] *)
Definition parallel_find_removed (source_map : key_map) (source_rows : list record)
    (source_headers : list string) (target_map : key_map) : list RemovedRow :=
  map (fun p => {| rr_key := fst p;
                   rr_source_row := record_to_hashmap (nth (snd p) source_rows []) source_headers;
                   rr_six := snd p |})
      (filter (fun p => negb (hm_contains target_map (fst p))) source_map).

(** [diff_csv_parallel_internal]; its key-column validation loop is the
    one of [diff_csv_primary_key_internal]. *)
Definition diff_csv_parallel_internal (source_csv target_csv : string)
    (key_columns : list string) (case_sensitive ignore_whitespace ignore_empty_vs_null : bool)
    (excluded_columns : list string) (has_headers : bool) : Result DiffResult :=
  let* (source_headers, source_rows, source_header_map) := parse_csv_internal source_csv has_headers in
  let* (target_headers, target_rows, target_header_map) := parse_csv_internal target_csv has_headers in
  let* _ := validate_key_columns key_columns source_header_map target_header_map in
  let source_map := collect_key_map source_rows source_header_map key_columns in
  match first_repeat [] (map fst source_map) with
  | Some key => Err (dup_key_message "source" key)
  | None =>
      let target_map := collect_key_map target_rows target_header_map key_columns in
      match first_repeat [] (map fst target_map) with
      | Some key => Err (dup_key_message "target" key)
      | None =>
          let removed_rows := parallel_find_removed source_map source_rows source_headers target_map in
          let '(added_rows, modified_rows, unchanged_rows) :=
            parallel_compare_rows target_map target_rows target_headers target_header_map
              source_map source_rows source_headers source_header_map excluded_columns
              case_sensitive ignore_whitespace ignore_empty_vs_null in
          Ok {| added := added_rows; removed := removed_rows; modified := modified_rows;
                unchanged := unchanged_rows;
                source := {| dm_headers := source_headers;
                             dm_rows := map (fun r => record_to_hashmap r source_headers) source_rows |};
                target := {| dm_headers := target_headers;
                             dm_rows := map (fun r => record_to_hashmap r target_headers) target_rows |};
                dr_key_columns := key_columns; dr_excluded_columns := excluded_columns;
                dr_mode := "primary_key" |}
      end
  end.

(** The rows whose key does not occur again further down: for each key,
    its last row. *)
Definition last_occurrences (keys : list string) : list nat :=
  filter (fun i => forallb (fun j => negb (String.eqb (nth j keys "") (nth i keys "")))
                           (seq (S i) (List.length keys - S i)))
         (seq 0 (List.length keys)).


(** The session after a sequence of [diff_chunk] calls, each on the session
    the previous one returned. *)
Fixpoint session_after (dti : string -> string -> bool -> list DiffChange)
    (d : CsvDifferInternal) (chunks : list (nat * nat)) : Result CsvDifferInternal :=
  match chunks with
  | [] => Ok d
  | (start, size) :: rest =>
      let* (r, d') := diff_chunk dti d start size in session_after dti d' rest
  end.

(** * Proofs *)

(** ** Binary codec *)

Section BinaryLemmas.

Open Scope N_scope.

Lemma u32_le_roundtrip (v : N) :
  v < two32 ->
  u32_of_le (v mod 256) ((v / 256) mod 256) ((v / 65536) mod 256) ((v / 16777216) mod 256) = v.
Proof.
  intros Hv. unfold two32 in Hv. unfold u32_of_le.
  assert (E1 : v / 65536 = v / 256 / 256).
  { rewrite N.Div0.div_div. reflexivity. }
  assert (E2 : v / 16777216 = v / 65536 / 256).
  { rewrite N.Div0.div_div. reflexivity. }
  assert (Hs : v / 16777216 < 256).
  { apply N.Div0.div_lt_upper_bound. lia. }
  rewrite (N.mod_small (v / 16777216)) by exact Hs.
  pose proof (N.div_mod v 256 ltac:(lia)) as D0.
  pose proof (N.div_mod (v / 256) 256 ltac:(lia)) as D1.
  pose proof (N.div_mod (v / 65536) 256 ltac:(lia)) as D2.
  rewrite <- E1 in D1. rewrite <- E2 in D2.
  lia.
Qed.

Lemma as_u32_small (n : nat) : N.of_nat n < two32 -> as_u32 n = N.of_nat n.
Proof.
  intros H. unfold as_u32. apply N.mod_small. exact H.
Qed.

Lemma add_u32_small (a b : N) : a + b < two32 -> add_u32 a b = a + b.
Proof. intros H. unfold add_u32. apply N.mod_small. exact H. Qed.

End BinaryLemmas.


Lemma appends_comp f g : appends f -> appends g -> appends (fun b => g (f b)).
Proof.
  intros Hf Hg b. destruct (Hf b) as [s1 E1]. destruct (Hg (app b s1)) as [s2 E2].
  exists (app s1 s2). rewrite E1, E2. rewrite <- app_assoc; reflexivity.
Qed.

Lemma appends_fold {A} (f : list N -> A -> list N) :
  (forall x, appends (fun b => f b x)) -> forall l, appends (fun b => fold_left f l b).
Proof.
  intros Hf l. induction l as [|x l IH]; intros b.
  - exists []. simpl. symmetry. apply app_nil_r.
  - simpl. destruct (Hf x b) as [s1 E1]. rewrite E1. destruct (IH (app b s1)) as [s2 E2].
    rewrite E2. exists (app s1 s2). rewrite <- app_assoc; reflexivity.
Qed.

Lemma appends_u8 v : appends (fun b => write_u8 b v).
Proof. intros b. eexists. reflexivity. Qed.

Lemma appends_u32 v : appends (fun b => write_u32 b v).
Proof. intros b. eexists. reflexivity. Qed.

Lemma appends_string s : appends (fun b => write_string b s).
Proof. intros b. exists (app (u32_le (as_u32 (String.length s))) (str_bytes s)).
  unfold write_string, write_u32. rewrite <- app_assoc; reflexivity. Qed.

Lemma appends_row_data row : appends (fun b => write_row_data b row).
Proof.
  unfold write_row_data.
  apply (appends_comp (fun b => write_u32 b _) (fun b => fold_left _ row b)).
  - apply appends_u32.
  - apply appends_fold. intros kv.
    apply (appends_comp (fun b => write_string b _) (fun b => write_string b _));
      apply appends_string.
Qed.


Lemma encode_body_appends (result : DiffResult) :
  appends (fun b =>
    fold_left (fun b row => write_row_data (write_string (write_u8 b 4) (ur_key row)) (ur_row row))
      (unchanged result)
    (fold_left (fun b row =>
             let b := write_row_data (write_row_data (write_string (write_u8 b 3) (mr_key row))
                                                     (mr_source_row row)) (mr_target_row row) in
             fold_left (fun b d => write_string (write_string (write_string b (column d))
                                                               (old_value d)) (new_value d))
                       (mr_differences row)
                       (write_u32 b (as_u32 (List.length (mr_differences row)))))
           (modified result)
    (fold_left (fun b row => write_row_data (write_string (write_u8 b 2) (rr_key row))
                                                  (rr_source_row row))
                     (removed result)
    (fold_left (fun b row => write_row_data (write_string (write_u8 b 1) (ar_key row))
                                                  (ar_target_row row))
                     (added result) b)))).
Proof.
  intros b.
  assert (Ha : appends (fun b => fold_left (fun b row =>
                 write_row_data (write_string (write_u8 b 1) (ar_key row)) (ar_target_row row))
                 (added result) b)).
  { apply appends_fold. intros row b0.
    destruct (appends_u8 1 b0) as [s1 E1]. rewrite E1.
    destruct (appends_string (ar_key row) (app b0 s1)) as [s2 E2]. rewrite E2.
    destruct (appends_row_data (ar_target_row row) (app (app b0 s1) s2)) as [s3 E3]. rewrite E3.
    exists (app s1 (app s2 s3)). rewrite !app_assoc. reflexivity. }
  assert (Hr : appends (fun b => fold_left (fun b row =>
                 write_row_data (write_string (write_u8 b 2) (rr_key row)) (rr_source_row row))
                 (removed result) b)).
  { apply appends_fold. intros row b0.
    destruct (appends_u8 2 b0) as [s1 E1]. rewrite E1.
    destruct (appends_string (rr_key row) (app b0 s1)) as [s2 E2]. rewrite E2.
    destruct (appends_row_data (rr_source_row row) (app (app b0 s1) s2)) as [s3 E3]. rewrite E3.
    exists (app s1 (app s2 s3)). rewrite !app_assoc. reflexivity. }
  assert (Hm : appends (fun b => fold_left (fun b row =>
             let b := write_row_data (write_row_data (write_string (write_u8 b 3) (mr_key row))
                                                     (mr_source_row row)) (mr_target_row row) in
             fold_left (fun b d => write_string (write_string (write_string b (column d))
                                                               (old_value d)) (new_value d))
                       (mr_differences row)
                       (write_u32 b (as_u32 (List.length (mr_differences row)))))
           (modified result) b)).
  { apply appends_fold. intros row b0. cbv zeta.
    destruct (appends_u8 3 b0) as [s1 E1]. rewrite E1.
    destruct (appends_string (mr_key row) (app b0 s1)) as [s2 E2]. rewrite E2.
    destruct (appends_row_data (mr_source_row row) (app (app b0 s1) s2)) as [s3 E3]. rewrite E3.
    destruct (appends_row_data (mr_target_row row) (app (app (app b0 s1) s2) s3)) as [s4 E4].
    rewrite E4.
    destruct (appends_u32 (as_u32 (List.length (mr_differences row)))
                (app (app (app (app b0 s1) s2) s3) s4)) as [s5 E5]. rewrite E5.
    assert (Hd : appends (fun b => fold_left (fun b d => write_string (write_string
                   (write_string b (column d)) (old_value d)) (new_value d)) (mr_differences row) b)).
    { apply appends_fold. intros d b1.
      destruct (appends_string (column d) b1) as [t1 F1]. rewrite F1.
      destruct (appends_string (old_value d) (app b1 t1)) as [t2 F2]. rewrite F2.
      destruct (appends_string (new_value d) (app (app b1 t1) t2)) as [t3 F3]. rewrite F3.
      exists (app t1 (app t2 t3)). rewrite !app_assoc. reflexivity. }
    destruct (Hd (app (app (app (app (app b0 s1) s2) s3) s4) s5)) as [s6 E6]. rewrite E6.
    exists (app s1 (app s2 (app s3 (app s4 (app s5 s6))))). rewrite !app_assoc. reflexivity. }
  assert (Hu : appends (fun b => fold_left (fun b row =>
                 write_row_data (write_string (write_u8 b 4) (ur_key row)) (ur_row row))
                 (unchanged result) b)).
  { apply appends_fold. intros row b0.
    destruct (appends_u8 4 b0) as [s1 E1]. rewrite E1.
    destruct (appends_string (ur_key row) (app b0 s1)) as [s2 E2]. rewrite E2.
    destruct (appends_row_data (ur_row row) (app (app b0 s1) s2)) as [s3 E3]. rewrite E3.
    exists (app s1 (app s2 s3)). rewrite !app_assoc. reflexivity. }
  destruct (Ha b) as [s1 E1]. rewrite E1.
  destruct (Hr (app b s1)) as [s2 E2]. rewrite E2.
  destruct (Hm (app (app b s1) s2)) as [s3 E3]. rewrite E3.
  destruct (Hu (app (app (app b s1) s2) s3)) as [s4 E4]. rewrite E4.
  exists (app s1 (app s2 (app s3 s4))). rewrite !app_assoc. reflexivity.
Qed.

Lemma encode_header_prefix (result : DiffResult) (total a r m u : N) :
  total = add_u32 (add_u32 (add_u32 (as_u32 (List.length (added result)))
                              (as_u32 (List.length (removed result))))
                     (as_u32 (List.length (modified result))))
            (as_u32 (List.length (unchanged result))) ->
  a = as_u32 (List.length (added result)) -> r = as_u32 (List.length (removed result)) ->
  m = as_u32 (List.length (modified result)) -> u = as_u32 (List.length (unchanged result)) ->
  exists s, encode_diff_result encoder_new result =
            app (u32_le total) (app (u32_le a) (app (u32_le r) (app (u32_le m) (app (u32_le u) s)))).
Proof.
  intros Et Ea Er Em Eu. subst.
  unfold encode_diff_result. cbv zeta.
  match goal with
  | |- exists _, fold_left _ _ (fold_left _ _ (fold_left _ _ (fold_left _ _ ?h))) = _ =>
      destruct (encode_body_appends result h) as [s E]; exists s; cbv beta zeta in E; rewrite E
  end.
  unfold write_u32, encoder_new. rewrite !app_nil_l, <- !app_assoc. reflexivity.
Qed.

(** Reading a [u32] behind a prefix of known length. *)
Lemma slice_app (pre buf : list N) (a b : nat) :
  slice (app pre buf) (List.length pre + a) (List.length pre + b) = slice buf a b.
Proof.
  unfold slice. rewrite length_app.
  replace (List.length pre + b - (List.length pre + a))%nat with (b - a)%nat by lia.
  rewrite skipn_app, skipn_all2 by lia. simpl.
  replace (List.length pre + a - List.length pre)%nat with a by lia.
  destruct ((a <=? b)%nat && (b <=? List.length buf)%nat) eqn:E1;
  destruct ((List.length pre + a <=? List.length pre + b)%nat
            && (List.length pre + b <=? List.length pre + List.length buf)%nat) eqn:E2;
  try reflexivity;
  apply andb_true_iff in E1 || apply andb_true_iff in E2;
  rewrite !Nat.leb_le in *; apply andb_false_iff in E1 || apply andb_false_iff in E2;
  rewrite !Nat.leb_nle in *; lia.
Qed.

Lemma read_u32_app (pre buf : list N) (p : nat) :
  read_u32 (app pre buf) (List.length pre + p) =
  match read_u32 buf p with Some (v, q) => Some (v, (List.length pre + q)%nat) | None => None end.
Proof.
  unfold read_u32. replace (List.length pre + p + 4)%nat with (List.length pre + (p + 4))%nat by lia.
  rewrite slice_app.
  destruct (slice buf p (p + 4)) as [[|b0 [|b1 [|b2 [|b3 [|]]]]]|]; reflexivity.
Qed.

Lemma read_u32_head (v : N) (rest : list N) :
  read_u32 (app (u32_le v) rest) 0 =
  Some (u32_of_le (v mod 256) ((v / 256) mod 256) ((v / 65536) mod 256) ((v / 16777216) mod 256), 4%nat).
Proof.
  unfold read_u32, slice. simpl. reflexivity.
Qed.

Lemma as_u32_le_total (a r m u : nat) (x : nat) :
  (N.of_nat (a + r + m + u) < two32)%N -> In x [a; r; m; u] -> as_u32 x = N.of_nat x.
Proof.
  intros H Hx. apply as_u32_small. unfold two32 in *.
  simpl in Hx. destruct Hx as [<-|[<-|[<-|[<-|[]]]]]; lia.
Qed.

Lemma add_u32_total (a r m u : nat) :
  (N.of_nat (a + r + m + u) < two32)%N ->
  add_u32 (add_u32 (add_u32 (as_u32 a) (as_u32 r)) (as_u32 m)) (as_u32 u) = N.of_nat (a + r + m + u).
Proof.
  intros H.
  rewrite !(as_u32_le_total a r m u _ H) by (simpl; tauto).
  rewrite (add_u32_small (N.of_nat a) (N.of_nat r)) by (unfold two32 in *; lia).
  rewrite (add_u32_small (N.of_nat a + N.of_nat r) (N.of_nat m)) by (unfold two32 in *; lia).
  rewrite add_u32_small by (unfold two32 in *; lia).
  lia.
Qed.

(** The header is read back from the first 20 bytes of any buffer that
    starts with the five little-endian words. *)
Lemma decode_header_prefix (t a r m u : N) (s : list N) :
  (t < two32)%N -> (a < two32)%N -> (r < two32)%N -> (m < two32)%N -> (u < two32)%N ->
  decode_header (app (u32_le t) (app (u32_le a) (app (u32_le r) (app (u32_le m) (app (u32_le u) s))))) 0
  = Some ((t, a, r, m, u), 20%nat).
Proof.
  intros Ht Ha Hr Hm Hu.
  unfold decode_header, read_u32, slice, u32_le. simpl.
  rewrite !u32_le_roundtrip by assumption. reflexivity.
Qed.

(** C6: header round trip *)
Theorem binary_header_roundtrip (result : DiffResult) :
  (N.of_nat (List.length (added result) + List.length (removed result)
             + List.length (modified result) + List.length (unchanged result)) < two32)%N ->
  decode_header (encode_diff_result encoder_new result) 0 =
    Some ((N.of_nat (List.length (added result) + List.length (removed result)
                     + List.length (modified result) + List.length (unchanged result)),
           N.of_nat (List.length (added result)), N.of_nat (List.length (removed result)),
           N.of_nat (List.length (modified result)), N.of_nat (List.length (unchanged result))),
          20%nat)
  /\ (added result = [] -> removed result = [] -> modified result = [] -> unchanged result = [] ->
      List.length (encode_diff_result encoder_new result) = 20%nat).
Proof.
  intros H. split.
  - destruct (encode_header_prefix result
                (N.of_nat (List.length (added result) + List.length (removed result)
                   + List.length (modified result) + List.length (unchanged result)))
                (N.of_nat (List.length (added result))) (N.of_nat (List.length (removed result)))
                (N.of_nat (List.length (modified result))) (N.of_nat (List.length (unchanged result))))
      as [s E].
    + symmetry. apply add_u32_total. exact H.
    + symmetry. apply (as_u32_le_total _ _ _ _ _ H). simpl; tauto.
    + symmetry. apply (as_u32_le_total _ _ _ _ _ H). simpl; tauto.
    + symmetry. apply (as_u32_le_total _ _ _ _ _ H). simpl; tauto.
    + symmetry. apply (as_u32_le_total _ _ _ _ _ H). simpl; tauto.
    + rewrite E. apply decode_header_prefix; unfold two32 in *; lia.
  - intros Ea Er Em Eu. unfold encode_diff_result, encoder_new.
    rewrite Ea, Er, Em, Eu. reflexivity.
Qed.

(** ** Decoder bounds *)

Lemma slice_some (buf l : list N) (a b : nat) :
  slice buf a b = Some l ->
  (a <= b)%nat /\ (b <= List.length buf)%nat /\ l = firstn (b - a) (skipn a buf)
  /\ List.length l = (b - a)%nat.
Proof.
  unfold slice. destruct (Nat.leb_spec a b), (Nat.leb_spec b (List.length buf)); simpl;
  intros E; try discriminate. injection E as <-.
  repeat split; try lia. rewrite length_firstn, length_skipn. lia.
Qed.

Lemma slice_none (buf : list N) (a b : nat) :
  slice buf a b = None <-> (b < a \/ List.length buf < b)%nat.
Proof.
  unfold slice. destruct (Nat.leb_spec a b), (Nat.leb_spec b (List.length buf)); simpl;
  split; intros; try discriminate; try lia; reflexivity.
Qed.

Lemma read_u32_cases (buf : list N) (p : nat) :
  (List.length buf < p + 4 /\ read_u32 buf p = None)%nat \/
  (p + 4 <= List.length buf /\ exists v, read_u32 buf p = Some (v, p + 4))%nat.
Proof.
  unfold read_u32. destruct (slice buf p (p + 4)) as [l|] eqn:E.
  - apply slice_some in E. destruct E as (_ & Hb & _ & Hl).
    right. split; [exact Hb|].
    replace (p + 4 - p)%nat with 4%nat in Hl by lia.
    destruct l as [|b0 [|b1 [|b2 [|b3 [|]]]]]; simpl in Hl; try discriminate.
    eexists. reflexivity.
  - apply slice_none in E. left. split; [lia|reflexivity].
Qed.

Lemma read_string_bounds (buf bytes : list N) (p q : nat) :
  read_string buf p = Some (bytes, q) ->
  (p + 4 <= q /\ q <= List.length buf)%nat /\ bytes = firstn (q - (p + 4)) (skipn (p + 4) buf).
Proof.
  unfold read_string. destruct (read_u32_cases buf p) as [[_ E]|[_ [v E]]]; rewrite E;
  [discriminate|].
  destruct (slice buf (p + 4) (p + 4 + N.to_nat v)) as [l|] eqn:S; [|discriminate].
  intros F. injection F as <- <-. apply slice_some in S. destruct S as (H1 & H2 & H3 & _).
  repeat split; try lia. exact H3.
Qed.

Lemma read_fields_bounds (buf : list N) (k p : nat) row r q :
  read_fields buf k p row = Some (r, q) -> (p <= q)%nat /\ (q = p \/ q <= List.length buf)%nat.
Proof.
  revert p row. induction k as [|k IH]; intros p row; simpl.
  - intros E. injection E as _ <-. lia.
  - destruct (read_string buf p) as [[key p1]|] eqn:E1; [|discriminate].
    destruct (read_string buf p1) as [[value p2]|] eqn:E2; [|discriminate].
    intros E. apply IH in E.
    apply read_string_bounds in E1. apply read_string_bounds in E2. lia.
Qed.

Lemma decode_header_cases (buf : list N) (p : nat) :
  (List.length buf < p + 20 /\ decode_header buf p = None)%nat \/
  (p + 20 <= List.length buf /\ exists h, decode_header buf p = Some (h, p + 20))%nat.
Proof.
  unfold decode_header.
  destruct (read_u32_cases buf p) as [[H0 E0]|[H0 [v0 E0]]]; rewrite E0; [left; split; [lia|reflexivity]|].
  destruct (read_u32_cases buf (p + 4)) as [[H1 E1]|[H1 [v1 E1]]]; rewrite E1; [left; split; [lia|reflexivity]|].
  destruct (read_u32_cases buf (p + 4 + 4)) as [[H2 E2]|[H2 [v2 E2]]]; rewrite E2; [left; split; [lia|reflexivity]|].
  destruct (read_u32_cases buf (p + 4 + 4 + 4)) as [[H3 E3]|[H3 [v3 E3]]]; rewrite E3;
    [left; split; [lia|reflexivity]|].
  destruct (read_u32_cases buf (p + 4 + 4 + 4 + 4)) as [[H4 E4]|[H4 [v4 E4]]]; rewrite E4;
    [left; split; [lia|reflexivity]|].
  right. split; [lia|]. eexists. f_equal. f_equal. lia.
Qed.

(** C7: every read of the decoder stays inside the buffer; a read that
    would go past its end is refused. *)
Theorem decoder_overrun_guard (buffer : list N) (p : nat) :
  (read_u8 buffer p = None <-> List.length buffer <= p)%nat
  /\ (forall v q, read_u8 buffer p = Some (v, q) -> q = S p /\ q <= List.length buffer
                  /\ nth_error buffer p = Some v)%nat
  /\ (read_u32 buffer p = None <-> List.length buffer < p + 4)%nat
  /\ (forall v q, read_u32 buffer p = Some (v, q) -> q = p + 4 /\ q <= List.length buffer)%nat
  /\ (forall len q, read_u32 buffer p = Some (len, q) ->
        (read_string buffer p = None <-> List.length buffer < q + N.to_nat len))%nat
  /\ (forall bytes q, read_string buffer p = Some (bytes, q) ->
        q <= List.length buffer /\ bytes = firstn (q - (p + 4)) (skipn (p + 4) buffer))%nat
  /\ (forall row q, read_row_data buffer p = Some (row, q) -> q <= List.length buffer)%nat
  /\ (decode_header buffer p = None <-> List.length buffer < p + 20)%nat
  /\ (forall h q, decode_header buffer p = Some (h, q) -> q = p + 20 /\ q <= List.length buffer)%nat.
Proof.
  split; [|split; [|split; [|split; [|split; [|split; [|split; [|split]]]]]]].
  - unfold read_u8. rewrite <- nth_error_None.
    destruct (nth_error buffer p); split; intros; congruence.
  - unfold read_u8. intros v q. destruct (nth_error buffer p) eqn:E; [|discriminate].
    intros F. injection F as <- <-.
    assert (p < List.length buffer)%nat by (apply nth_error_Some; congruence). auto.
  - destruct (read_u32_cases buffer p) as [[H E]|[H [v E]]]; rewrite E;
    split; intros; try discriminate; try lia; reflexivity.
  - intros v q. destruct (read_u32_cases buffer p) as [[H E]|[H [w E]]]; rewrite E;
    intros F; [discriminate|]. injection F as _ <-. lia.
  - intros len q E. unfold read_string. rewrite E.
    destruct (slice buffer q (q + N.to_nat len)) eqn:S.
    + apply slice_some in S. split; intros; [discriminate|lia].
    + apply slice_none in S. split; intros; [lia|reflexivity].
  - intros bytes q E. apply read_string_bounds in E. tauto.
  - intros row q. unfold read_row_data.
    destruct (read_u32_cases buffer p) as [[H E]|[H [w E]]]; rewrite E; [discriminate|].
    intros F. apply read_fields_bounds in F. lia.
  - destruct (decode_header_cases buffer p) as [[H E]|[H [h E]]]; rewrite E;
    split; intros; try discriminate; try lia; reflexivity.
  - intros h q. destruct (decode_header_cases buffer p) as [[H E]|[H [h' E]]]; rewrite E;
    intros F; [discriminate|]. injection F as _ <-. lia.
Qed.

(** ** Header detection *)

Lemma header_token_looks_like_data_digits (h : string) :
  header_token_looks_like_data h = all_digits (trim h).
Proof.
  unfold header_token_looks_like_data.
  destruct (all_digits (trim h)); simpl; [reflexivity|].
  rewrite andb_false_r. reflexivity.
Qed.

Lemma existsb_pointwise {A} (f g : A -> bool) (l : list A) :
  (forall x, f x = g x) -> existsb f l = existsb g l.
Proof. intros H. induction l as [|x l IH]; simpl; [reflexivity|]. rewrite H, IH. reflexivity. Qed.

(** C4: with [has_headers], the first record is replaced by positional
    headers exactly when its length matches the first data row and AT
    LEAST ONE of its trimmed tokens is all ASCII digits (an empty token
    counts); otherwise the first record is the header row. *)
Theorem parse_header_detection (csv_content : string) (h first_row : record) (rest : list record) :
  h <> [] ->
  csv_read csv_content = Ok (h :: first_row :: rest) ->
  parse_csv_internal csv_content true =
    if (List.length h =? List.length first_row) && existsb (fun t => all_digits (trim t)) h
    then Ok (column_headers (List.length first_row), h :: first_row :: rest,
             build_header_map (column_headers (List.length first_row)))
    else Ok (h, first_row :: rest, build_header_map h).
Proof.
  intros Hh E. unfold parse_csv_internal. rewrite E. simpl.
  destruct h as [|t0 ts]; [contradiction|].
  rewrite (existsb_pointwise header_token_looks_like_data (fun t => all_digits (trim t)))
    by (intros; apply header_token_looks_like_data_digits).
  destruct (_ && _); reflexivity.
Qed.

(** ** Maps *)

Lemma hm_get_In (m : list (string * nat)) (k : string) (v : nat) :
  hm_get m k = Some v -> In (k, v) m.
Proof.
  induction m as [|[k' v'] m IH]; simpl; [discriminate|].
  destruct (String.eqb_spec k k') as [->|_]; [intros E; injection E as ->; auto|auto].
Qed.

Lemma hm_get_None (m : list (string * nat)) (k : string) :
  hm_get m k = None <-> ~ In k (map fst m).
Proof.
  induction m as [|[k' v'] m IH]; simpl; [tauto|].
  destruct (String.eqb_spec k k') as [->|Hne].
  - split; [discriminate|]. intros H. exfalso. apply H. auto.
  - rewrite IH. intuition.
Qed.

Lemma hm_contains_In (m : list (string * nat)) (k : string) :
  hm_contains m k = true <-> In k (map fst m).
Proof.
  unfold hm_contains. destruct (hm_get m k) eqn:E.
  - split; [intros _|reflexivity]. apply hm_get_In in E. apply (in_map fst) in E. exact E.
  - apply hm_get_None in E. split; [discriminate|contradiction].
Qed.

Lemma hm_get_NoDup (m : list (string * nat)) (k : string) (v : nat) :
  NoDup (map fst m) -> In (k, v) m -> hm_get m k = Some v.
Proof.
  induction m as [|[k' v'] m IH]; simpl; [contradiction|].
  intros Hnd Hin. inversion Hnd as [|? ? Hn Hnd']; subst.
  destruct (String.eqb_spec k k') as [->|Hne].
  - destruct Hin as [E|Hin]; [injection E as ->; reflexivity|].
    exfalso. apply Hn. apply (in_map fst) in Hin. exact Hin.
  - destruct Hin as [E|Hin]; [injection E as -> ->; contradiction|]. auto.
Qed.

(** ** Key maps *)

Lemma build_key_map_from_ok (ds : string) (i : nat) (rows : list record) (hm : header_map)
    (kc : list string) (m m' : key_map) :
  build_key_map_from ds i rows hm kc m = Ok m' ->
  m' = app (rev (combine (row_keys rows hm kc) (seq i (List.length rows)))) m.
Proof.
  revert i m. induction rows as [|row rows IH]; intros i m; simpl.
  - intros E. injection E as <-. reflexivity.
  - destruct (hm_contains m (get_row_key row hm kc)); [discriminate|].
    intros E. apply IH in E. rewrite E. rewrite <- app_assoc. reflexivity.
Qed.

Lemma build_key_map_from_nodup (ds : string) (i : nat) (rows : list record) (hm : header_map)
    (kc : list string) (m : key_map) :
  NoDup (map fst m) ->
  ((exists m', build_key_map_from ds i rows hm kc m = Ok m') <->
   NoDup (app (map fst m) (row_keys rows hm kc))).
Proof.
  revert i m. induction rows as [|row rows IH]; intros i m Hm; simpl.
  - rewrite app_nil_r. split; [intros _; exact Hm|intros _; eexists; reflexivity].
  - destruct (hm_contains m (get_row_key row hm kc)) eqn:C.
    + apply hm_contains_In in C. split; [intros [m' E]; discriminate|].
      intros Hnd. exfalso.
      apply NoDup_remove_2 in Hnd. apply Hnd. apply in_or_app. left. exact C.
    + assert (C' : ~ In (get_row_key row hm kc) (map fst m)).
      { intros Hin. apply hm_contains_In in Hin. congruence. }
      rewrite (IH (S i) ((get_row_key row hm kc, i) :: m)) by (simpl; constructor; assumption).
      simpl. split; intros Hnd.
      * eapply Permutation_NoDup; [|exact Hnd].
        apply Permutation_middle.
      * eapply Permutation_NoDup; [|exact Hnd].
        apply Permutation_sym, Permutation_middle.
Qed.

Lemma build_key_map_from_err (ds : string) (i : nat) (rows : list record) (hm : header_map)
    (kc : list string) (m : key_map) (e : string) :
  build_key_map_from ds i rows hm kc m = Err e ->
  exists k, e = dup_key_message ds k
            /\ (2 <= count_occ string_dec (app (map fst m) (row_keys rows hm kc)) k)%nat.
Proof.
  revert i m. induction rows as [|row rows IH]; intros i m; simpl; [discriminate|].
  destruct (hm_contains m (get_row_key row hm kc)) eqn:C.
  - intros E. injection E as <-. exists (get_row_key row hm kc). split; [reflexivity|].
    apply hm_contains_In in C. rewrite count_occ_app. simpl.
    destruct (string_dec _ _) as [_|n]; [|contradiction].
    apply (count_occ_In string_dec) in C. lia.
  - intros E. apply IH in E. destruct E as [k [Ek Hk]]. exists k. split; [exact Ek|].
    simpl in Hk. rewrite count_occ_app in *. simpl in *.
    destruct (string_dec _ _); lia.
Qed.

Lemma map_fst_combine_eq {A B} (l1 : list A) (l2 : list B) :
  List.length l1 = List.length l2 -> map fst (combine l1 l2) = l1.
Proof.
  revert l2. induction l1 as [|x l1 IH]; intros [|y l2]; simpl; intros H; try discriminate;
  [reflexivity|]. f_equal. apply IH. lia.
Qed.

(** The key map of a dataset with distinct keys sends each key to its row. *)
Lemma key_map_lookup (ds : string) (rows : list record) (hm : header_map) (kc : list string)
    (m : key_map) :
  build_key_map ds rows hm kc = Ok m ->
  NoDup (map fst m) /\ map fst m = rev (row_keys rows hm kc)
  /\ (forall k v, In (k, v) m <-> (v < List.length rows /\ nth v (row_keys rows hm kc) "" = k)%nat).
Proof.
  intros E.
  assert (Hnd : NoDup (row_keys rows hm kc)).
  { apply (build_key_map_from_nodup ds 0 rows hm kc []); [constructor|]. eexists. exact E. }
  apply build_key_map_from_ok in E. rewrite app_nil_r in E. subst m.
  assert (Hl : List.length (row_keys rows hm kc) = List.length (seq 0 (List.length rows))).
  { unfold row_keys. rewrite length_map, length_seq. reflexivity. }
  assert (Hf : map fst (combine (row_keys rows hm kc) (seq 0 (List.length rows)))
               = row_keys rows hm kc).
  { apply map_fst_combine_eq. exact Hl. }
  split; [|split].
  - rewrite map_rev, Hf. apply NoDup_rev. exact Hnd.
  - rewrite map_rev, Hf. reflexivity.
  - intros k v. rewrite <- in_rev. split.
    + intros Hin. pose proof (in_combine_r _ _ _ _ Hin) as Hv. apply in_seq in Hv.
      apply In_nth with (d := (""%string, 0)) in Hin. destruct Hin as [j [Hj Ej]].
      rewrite combine_nth in Ej by exact Hl. injection Ej as Ek Ev.
      rewrite length_combine, <- Hl, Nat.min_id in Hj.
      rewrite seq_nth in Ev by (unfold row_keys in Hj; rewrite length_map in Hj; exact Hj).
      simpl in Ev. subst v. split; [lia|exact Ek].
    + intros [Hv Ek].
      replace (k, v) with (nth v (combine (row_keys rows hm kc) (seq 0 (List.length rows))) (""%string, 0)).
      * apply nth_In. rewrite length_combine, <- Hl, Nat.min_id.
        unfold row_keys. rewrite length_map. exact Hv.
      * rewrite combine_nth by exact Hl. rewrite seq_nth by exact Hv. rewrite Ek. reflexivity.
Qed.

Lemma build_key_map_outcome (ds : string) (rows : list record) (hm : header_map) (kc : list string) :
  match build_key_map ds rows hm kc with
  | Ok _ => NoDup (row_keys rows hm kc)
  | Err e => ~ NoDup (row_keys rows hm kc)
             /\ exists k, e = dup_key_message ds k
                          /\ (2 <= count_occ string_dec (row_keys rows hm kc) k)%nat
  end.
Proof.
  pose proof (build_key_map_from_nodup ds 0 rows hm kc [] (NoDup_nil _)) as H. simpl in H.
  unfold build_key_map. destruct (build_key_map_from ds 0 rows hm kc []) as [m|e] eqn:E.
  - apply H. eexists. reflexivity.
  - split.
    + rewrite <- H. intros [m' E']. congruence.
    + apply build_key_map_from_err in E. exact E.
Qed.

Lemma build_key_map_ok_iff (ds : string) (rows : list record) (hm : header_map) (kc : list string) :
  NoDup (row_keys rows hm kc) -> exists m, build_key_map ds rows hm kc = Ok m.
Proof.
  intros Hnd. pose proof (build_key_map_outcome ds rows hm kc) as H.
  destruct (build_key_map ds rows hm kc) as [m|e]; [eauto|tauto].
Qed.

Ltac key_map_cases srows trows shm thm kc :=
  pose proof (build_key_map_outcome "source" srows shm kc) as Hs;
  pose proof (build_key_map_outcome "target" trows thm kc) as Ht;
  unfold key_map_outcome;
  destruct (build_key_map "source" srows shm kc) as [sm|es];
  destruct (build_key_map "target" trows thm kc) as [tm|et]; simpl;
  [ split; [tauto|]; split; [tauto|]; intros _ _
  | split; [tauto|]; split; [|tauto]; intros _ _; destruct Ht as [_ [x [-> Hx]]]; eauto
  | split; [|split]; [|tauto|tauto]; intros _; destruct Hs as [_ [x [-> Hx]]]; eauto
  | split; [|split]; [|tauto|tauto]; intros _; destruct Hs as [_ [x [-> Hx]]]; eauto ].

(** C3: in primary-key mode, once both inputs parse and the key columns
    are found, a repeated key aborts with the error
    [Duplicate Primary Key found in <dataset>: "<key value>". ...]: the
    dataset and the repeated key VALUE are named (the key column is not);
    the source is checked first; without repeats the diff succeeds.  The
    same holds for a [CsvDifferInternal] session created in primary-key
    mode. *)
Theorem duplicate_key_error (dti : string -> string -> bool -> list DiffChange)
    (source_csv target_csv : string) (key_columns : list string) (cs iw ien : bool)
    (excluded : list string) (has_headers : bool)
    (sh : list string) (srows : list record) (shm : header_map)
    (th : list string) (trows : list record) (thm : header_map) :
  parse_csv_internal source_csv has_headers = Ok (sh, srows, shm) ->
  parse_csv_internal target_csv has_headers = Ok (th, trows, thm) ->
  validate_key_columns key_columns shm thm = Ok tt ->
  key_map_outcome (diff_csv_primary_key_internal dti source_csv target_csv key_columns cs iw ien
                     excluded has_headers) srows trows shm thm key_columns
  /\ key_map_outcome (new_differ source_csv target_csv key_columns cs iw ien excluded has_headers
                        "primary-key") srows trows shm thm key_columns.
Proof.
  intros Es Et Ev. split.
  - unfold diff_csv_primary_key_internal. rewrite Es, Et. simpl. rewrite Ev. simpl.
    key_map_cases srows trows shm thm key_columns.
    destruct (split_classified _) as [[? ?] ?]. eexists. reflexivity.
  - unfold new_differ. rewrite Es, Et. simpl. unfold init_primary_key. simpl. rewrite Ev. simpl.
    key_map_cases srows trows shm thm key_columns.
    eexists. reflexivity.
Qed.

(** ** Self-diff *)

Lemma validate_key_columns_ok (kc : list string) (shm thm : header_map) :
  (forall k, In k kc -> hm_contains shm k = true /\ hm_contains thm k = true) ->
  validate_key_columns kc shm thm = Ok tt.
Proof.
  induction kc as [|k kc IH]; simpl; intros H; [reflexivity|].
  destruct (H k (or_introl eq_refl)) as [-> ->]. simpl. apply IH. auto.
Qed.

Lemma compute_differences_self (dti : string -> string -> bool -> list DiffChange)
    (hs : list string) (hm : header_map) (excluded : list string) (cs iw ien : bool) (row : record) :
  compute_differences dti hs hm hm excluded cs iw ien row row = [].
Proof.
  induction hs as [|h hs IH]; simpl; [reflexivity|].
  destruct (str_mem excluded h); [exact IH|].
  destruct (hm_get hm h) as [i|]; [|exact IH].
  rewrite String.eqb_refl. exact IH.
Qed.

Lemma filter_all_false {A} (f : A -> bool) (l : list A) :
  (forall x, In x l -> f x = false) -> filter f l = [].
Proof.
  induction l as [|x l IH]; simpl; intros H; [reflexivity|].
  rewrite (H x (or_introl eq_refl)). apply IH. auto.
Qed.

Lemma find_removed_self (m : key_map) (rows : list record) (hs : list string) :
  find_removed m m rows hs = [].
Proof.
  unfold find_removed.
  assert (E : filter (fun p => negb (hm_contains m (fst p))) m = []).
  { apply filter_all_false. intros p Hp.
    assert (hm_contains m (fst p) = true) as ->.
    { apply hm_contains_In. apply in_map. exact Hp. }
    reflexivity. }
  rewrite E. reflexivity.
Qed.

Lemma split_classified_unchanged (l : list Classified) :
  (forall c, In c l -> exists u, c = CUnchanged u) ->
  fst (fst (split_classified l)) = [] /\ snd (fst (split_classified l)) = []
  /\ List.length (snd (split_classified l)) = List.length l.
Proof.
  induction l as [|c l IH]; simpl; intros H; [auto|].
  destruct (H c (or_introl eq_refl)) as [u ->].
  destruct (split_classified l) as [[a m] us]. simpl in *.
  destruct IH as (-> & -> & <-); auto.
Qed.

(** C9: a dataset diffed against itself in primary-key mode, when its
    rows have distinct keys and the key columns exist: nothing added,
    removed or modified, every row unchanged. *)
Theorem self_diff_idempotent (dti : string -> string -> bool -> list DiffChange)
    (csv : string) (key_columns : list string) (cs iw ien : bool) (excluded : list string)
    (has_headers : bool) (headers : list string) (rows : list record) (hm : header_map) :
  parse_csv_internal csv has_headers = Ok (headers, rows, hm) ->
  (forall k, In k key_columns -> hm_contains hm k = true) ->
  NoDup (row_keys rows hm key_columns) ->
  exists r, diff_csv_primary_key_internal dti csv csv key_columns cs iw ien excluded has_headers = Ok r
            /\ counts r = (0, 0, 0, List.length rows).
Proof.
  intros Ep Hk Hnd.
  unfold diff_csv_primary_key_internal. rewrite Ep. simpl.
  rewrite validate_key_columns_ok by (intros k Hin; auto). simpl.
  destruct (build_key_map_ok_iff "source" rows hm key_columns Hnd) as [m Em]. rewrite Em. simpl.
  destruct (build_key_map_ok_iff "target" rows hm key_columns Hnd) as [m' Em'].
  assert (m' = m) as ->.
  { apply build_key_map_from_ok in Em. apply build_key_map_from_ok in Em'. congruence. }
  rewrite Em'. simpl.
  destruct (key_map_lookup _ _ _ _ _ Em) as (Hmnd & Hfst & _).
  rewrite find_removed_self.
  pose proof (split_classified_unchanged
    (map (fun p => classify_target_row dti m rows headers headers hm hm excluded cs iw ien
                     (fst p) (snd p) (nth (snd p) rows [])) m)) as Hs.
  destruct (split_classified _) as [[a mo] u]. simpl in Hs.
  destruct Hs as (-> & -> & Hu).
  - intros c Hc. apply in_map_iff in Hc. destruct Hc as [[k v] [<- Hp]].
    unfold classify_target_row. simpl.
    rewrite (hm_get_NoDup m k v Hmnd Hp).
    rewrite compute_differences_self. eexists. reflexivity.
  - eexists. split; [reflexivity|]. unfold counts. simpl. rewrite Hu, length_map.
    rewrite <- (length_map fst m), Hfst, length_rev. unfold row_keys. rewrite length_map.
    reflexivity.
Qed.

(** ** Chunked content-match score *)

Lemma match_count_loop_eq (sh : list string) (shm thm : header_map) (excluded : list string)
    (cs iw : bool) (srow trow : record) (mc tc : nat) :
  match_count_loop sh shm thm excluded cs iw srow trow mc tc =
  (mc + List.length (filter (fun h => String.eqb (normalize_value (lookup_cell shm srow h) cs iw)
                                                 (normalize_value (lookup_cell thm trow h) cs iw))
                            (shared_columns sh shm thm excluded)),
   tc + List.length (shared_columns sh shm thm excluded))%nat.
Proof.
  revert mc tc. induction sh as [|h sh IH]; intros mc tc; simpl.
  - f_equal; lia.
  - unfold shared_columns in *. simpl.
    destruct (str_mem excluded h); simpl; [apply IH|].
    change (hm_contains shm h) with (match hm_get shm h with Some _ => true | None => false end).
    change (hm_contains thm h) with (match hm_get thm h with Some _ => true | None => false end).
    destruct (hm_get shm h) as [i|] eqn:E1; destruct (hm_get thm h) as [j|] eqn:E2; simpl;
      try apply IH.
    assert (L1 : lookup_cell shm srow h = cell srow i) by (unfold lookup_cell; rewrite E1; reflexivity).
    assert (L2 : lookup_cell thm trow h = cell trow j) by (unfold lookup_cell; rewrite E2; reflexivity).
    rewrite L1, L2, IH. destruct (String.eqb _ _); simpl; f_equal; lia.
Qed.

Lemma Qdiv_one (x : Q) : (x / Q_of_nat 1 == x)%Q.
Proof. unfold Qdiv, Q_of_nat. simpl. rewrite Qmult_1_r. reflexivity. Qed.

(** C10: the chunked session scores a shortlisted candidate as the share
    of shared, non-excluded columns whose normalized values are equal (0
    when there is no such column), not with the Jaro-Winkler/Levenshtein
    scorer of [diff_csv_internal]: for a single column ["A"] against ["a"]
    compared case-insensitively the chunk score is 1, while the one-shot
    score is below 1 for any Jaro-Winkler that gives 1 only to equal
    strings. *)
Theorem chunk_score_formula (sh : list string) (shm thm : header_map) (excluded : list string)
    (cs iw : bool) (srow trow : record) (jaro_winkler normalized_levenshtein : string -> string -> Q) :
  (forall a b, jaro_winkler a b == 1 -> a = b) ->
  chunk_candidate_score sh shm thm excluded cs iw srow trow =
    (let cols := shared_columns sh shm thm excluded in
     let matches := filter (fun h => String.eqb (normalize_value (lookup_cell shm srow h) cs iw)
                                                (normalize_value (lookup_cell thm trow h) cs iw)) cols in
     if 0 <? List.length cols then (Q_of_nat (List.length matches) / Q_of_nat (List.length cols))%Q
     else 0%Q)
  /\ chunk_candidate_score ["name"] [("name", 0)] [("name", 0)] [] false false ["A"] ["a"] == 1
  /\ ~ (calculate_row_similarity jaro_winkler normalized_levenshtein ["A"] ["a"] ["name"]
          [("name", 0)] [("name", 0)] [] == 1).
Proof.
  intros Hjw. split; [|split].
  - unfold chunk_candidate_score. rewrite match_count_loop_eq. reflexivity.
  - reflexivity.
  - unfold calculate_row_similarity. simpl. rewrite Qplus_0_l, Qdiv_one.
    intros H. apply Hjw in H. discriminate.
Qed.

(** ** Row similarity *)

Lemma Q_of_nat_S (n : nat) : (Q_of_nat (S n) == 1 + Q_of_nat n)%Q.
Proof.
  unfold Q_of_nat. rewrite Nat2Z.inj_succ, <- Z.add_1_l, inject_Z_plus. reflexivity.
Qed.

Lemma Q_of_nat_nonneg (n : nat) : (0 <= Q_of_nat n)%Q.
Proof.
  unfold Q_of_nat. change 0%Q with (inject_Z 0). rewrite <- Zle_Qle. lia.
Qed.

Lemma Q_of_nat_pos (n : nat) : (0 < n)%nat -> (0 < Q_of_nat n)%Q.
Proof.
  intros H. unfold Q_of_nat. change 0%Q with (inject_Z 0). rewrite <- Zlt_Qlt. lia.
Qed.

Lemma sum_Q_bounds (l : list Q) :
  (forall x, In x l -> 0 <= x <= 1)%Q -> (0 <= sum_Q l <= Q_of_nat (List.length l))%Q.
Proof.
  induction l as [|x l IH]; simpl; intros H.
  - unfold sum_Q. simpl. split; [apply Qle_refl|apply Q_of_nat_nonneg].
  - unfold sum_Q in *. simpl. rewrite Q_of_nat_S.
    destruct (H x (or_introl eq_refl)). destruct IH as [IH1 IH2]; [intros; apply H; auto|].
    split; lra.
Qed.

Lemma sum_Q_full (l : list Q) :
  (forall x, In x l -> 0 <= x <= 1)%Q -> (sum_Q l == Q_of_nat (List.length l))%Q ->
  (forall x, In x l -> x == 1)%Q.
Proof.
  induction l as [|x l IH]; simpl; intros H E y Hy; [contradiction|].
  unfold sum_Q in *. simpl in E. rewrite Q_of_nat_S in E.
  destruct (H x (or_introl eq_refl)).
  destruct (sum_Q_bounds l) as [B1 B2]; [intros; apply H; auto|].
  unfold sum_Q in B1, B2.
  destruct Hy as [<-|Hy].
  - lra.
  - apply IH; [intros; apply H; auto| lra | exact Hy].
Qed.

Section Similarity.

Variables jaro_winkler normalized_levenshtein : string -> string -> Q.

Lemma similarity_loop_eq (hs : list string) (hm1 hm2 : header_map) (excluded : list string)
    (row1 row2 : record) (total : Q) (compared : nat) :
  (fst (similarity_loop jaro_winkler normalized_levenshtein hs hm1 hm2 excluded row1 row2 total compared)
   == total + sum_Q (map (fun h => column_similarity jaro_winkler normalized_levenshtein
                                     (lookup_cell hm1 row1 h) (lookup_cell hm2 row2 h))
                         (shared_columns hs hm1 hm2 excluded)))%Q
  /\ snd (similarity_loop jaro_winkler normalized_levenshtein hs hm1 hm2 excluded row1 row2 total compared)
     = (compared + List.length (shared_columns hs hm1 hm2 excluded))%nat.
Proof.
  revert total compared. induction hs as [|h hs IH]; intros total compared; simpl.
  - unfold sum_Q. simpl. split; [ring|lia].
  - unfold shared_columns in *. simpl.
    destruct (str_mem excluded h); simpl; [apply IH|].
    change (hm_contains hm1 h) with (match hm_get hm1 h with Some _ => true | None => false end).
    change (hm_contains hm2 h) with (match hm_get hm2 h with Some _ => true | None => false end).
    destruct (hm_get hm1 h) as [i|] eqn:E1; destruct (hm_get hm2 h) as [j|] eqn:E2; simpl;
      try apply IH.
    assert (L1 : lookup_cell hm1 row1 h = cell row1 i) by (unfold lookup_cell; rewrite E1; reflexivity).
    assert (L2 : lookup_cell hm2 row2 h = cell row2 j) by (unfold lookup_cell; rewrite E2; reflexivity).
    destruct (IH (total + (if (String.length (cell row1 i) <=? 20) && (String.length (cell row2 j) <=? 20)
                           then jaro_winkler (cell row1 i) (cell row2 j)
                           else normalized_levenshtein (cell row1 i) (cell row2 j)))%Q (S compared))
      as [IH1 IH2].
    split; [|rewrite IH2; lia].
    rewrite IH1. unfold sum_Q. simpl. rewrite L1, L2. unfold column_similarity. ring.
Qed.

End Similarity.

Section SimilarityBounds.

Variables jaro_winkler normalized_levenshtein : string -> string -> Q.

(** What [strsim] guarantees of its two scores. *)
Hypothesis jaro_winkler_range : forall a b, (0 <= jaro_winkler a b <= 1)%Q.
Hypothesis normalized_levenshtein_range : forall a b, (0 <= normalized_levenshtein a b <= 1)%Q.
Hypothesis jaro_winkler_one : forall a b, (jaro_winkler a b == 1)%Q -> a = b.
Hypothesis normalized_levenshtein_one : forall a b, (normalized_levenshtein a b == 1)%Q -> a = b.

Lemma column_similarity_range (v1 v2 : string) :
  (0 <= column_similarity jaro_winkler normalized_levenshtein v1 v2 <= 1)%Q.
Proof. unfold column_similarity. destruct (_ && _); auto. Qed.

Lemma column_similarity_one (v1 v2 : string) :
  (column_similarity jaro_winkler normalized_levenshtein v1 v2 == 1)%Q -> v1 = v2.
Proof. unfold column_similarity. destruct (_ && _); auto. Qed.

(** C8: the row similarity lies in [0, 1]; it is the average of the
    per-column scores over the shared columns only (a column absent from
    either header map is skipped, and no shared column gives 0); and it is
    1 only when the two rows hold the same cell, hence the same normalized
    cell, in every compared column. *)
Theorem row_similarity_bounds (row1 row2 : record) (headers : list string)
    (hm1 hm2 : header_map) (excluded : list string) :
  let s := calculate_row_similarity jaro_winkler normalized_levenshtein row1 row2 headers hm1 hm2 excluded in
  let cols := shared_columns headers hm1 hm2 excluded in
  (0 <= s <= 1)%Q
  /\ (s == if 0 <? List.length cols
           then sum_Q (map (fun h => column_similarity jaro_winkler normalized_levenshtein
                                       (lookup_cell hm1 row1 h) (lookup_cell hm2 row2 h)) cols)
                / Q_of_nat (List.length cols)
           else 0)%Q
  /\ ((s == 1)%Q -> forall h, In h cols ->
        lookup_cell hm1 row1 h = lookup_cell hm2 row2 h
        /\ forall cs iw ien, normalize_value_with_empty_vs_null (lookup_cell hm1 row1 h) cs iw ien
                             = normalize_value_with_empty_vs_null (lookup_cell hm2 row2 h) cs iw ien).
Proof.
  intros s cols. subst s cols. unfold calculate_row_similarity.
  destruct (similarity_loop_eq jaro_winkler normalized_levenshtein headers hm1 hm2 excluded
              row1 row2 0 0) as [E1 E2].
  destruct (similarity_loop _ _ _ _ _ _ _ _ _ _) as [total compared]. simpl in E1, E2.
  subst compared. simpl.
  set (cols := shared_columns headers hm1 hm2 excluded) in *.
  set (l := map (fun h => column_similarity jaro_winkler normalized_levenshtein
                            (lookup_cell hm1 row1 h) (lookup_cell hm2 row2 h)) cols) in *.
  assert (Hl : forall x, In x l -> (0 <= x <= 1)%Q).
  { intros x Hx. subst l. apply in_map_iff in Hx. destruct Hx as [h [<- _]].
    apply column_similarity_range. }
  assert (Hlen : List.length l = List.length cols) by (subst l; apply length_map).
  destruct (sum_Q_bounds l Hl) as [B1 B2]. rewrite Hlen in B2.
  rewrite Qplus_0_l in E1.
  destruct (Nat.ltb_spec 0 (List.length cols)) as [Hpos|Hz].
  - pose proof (Q_of_nat_pos _ Hpos) as Hn.
    split; [|split].
    + split.
      * apply Qle_shift_div_l; [exact Hn|]. rewrite Qmult_0_l, E1. exact B1.
      * apply Qle_shift_div_r; [exact Hn|]. rewrite Qmult_1_l, E1. exact B2.
    + rewrite E1. reflexivity.
    + intros Hs h Hh.
      assert (Hsum : (sum_Q l == Q_of_nat (List.length l))%Q).
      { rewrite Hlen, <- E1.
        assert (total == total / Q_of_nat (List.length cols) * Q_of_nat (List.length cols))%Q as ->.
        { field. intros Z. rewrite Z in Hn. discriminate. }
        rewrite Hs. ring. }
      assert (Hone := sum_Q_full l Hl Hsum).
      assert (Eq : lookup_cell hm1 row1 h = lookup_cell hm2 row2 h).
      { apply column_similarity_one. apply Hone. subst l.
        apply (in_map (fun h => column_similarity jaro_winkler normalized_levenshtein
                                  (lookup_cell hm1 row1 h) (lookup_cell hm2 row2 h))).
        exact Hh. }
      split; [exact Eq|]. intros. rewrite Eq. reflexivity.
  - simpl.
    split; [|split].
    + split; discriminate.
    + reflexivity.
    + intros H. discriminate.
Qed.

End SimilarityBounds.

(** ** Chunked primary-key diff *)

Lemma split_classified_counts (l : list Classified) :
  List.length (fst (fst (split_classified l))) = List.length (filter is_added l)
  /\ List.length (snd (fst (split_classified l))) = List.length (filter is_modified l)
  /\ List.length (snd (split_classified l)) = List.length (filter is_unchanged l).
Proof.
  induction l as [|c l IH]; simpl; [auto|].
  destruct (split_classified l) as [[a m] u]. simpl in *.
  destruct c; simpl; lia.
Qed.

Lemma filter_length_rev {A} (f : A -> bool) (l : list A) :
  List.length (filter f (rev l)) = List.length (filter f l).
Proof.
  induction l as [|x l IH]; simpl; [reflexivity|].
  rewrite filter_app, length_app, IH. simpl. destruct (f x); simpl; lia.
Qed.

Lemma map_as_seq {A B} (f : A -> B) (l : list A) (d : A) :
  map f l = map (fun i => f (nth i l d)) (seq 0 (List.length l)).
Proof.
  induction l as [|x l IH]; simpl; [reflexivity|].
  f_equal. rewrite IH, <- seq_shift, map_map. reflexivity.
Qed.

Lemma map_combine_index {B} (g : string -> nat -> B) (key : nat -> string) (l : list nat) :
  map (fun p => g (fst p) (snd p)) (combine (map key l) l) = map (fun i => g (key i) i) l.
Proof. induction l as [|i l IH]; simpl; [reflexivity|]. rewrite IH. reflexivity. Qed.

(** The per-bucket counts of classifying the target rows [l] (by index). *)
Lemma seq_split (a b c : nat) : (a <= b <= c)%nat -> seq a (c - a) = app (seq a (b - a)) (seq b (c - b)).
Proof.
  intros H. replace (c - a)%nat with ((b - a) + (c - b))%nat by lia.
  rewrite seq_app. f_equal. f_equal. lia.
Qed.

Lemma chunk_end_of_nowrap (s z n : nat) :
  (N.of_nat s + N.of_nat z < usize_modulus)%N -> chunk_end_of s z n = Nat.min (s + z) n.
Proof.
  intros H. unfold chunk_end_of. rewrite N.mod_small by exact H.
  rewrite <- Nat2N.inj_add, <- Nat2N.inj_min. apply Nat2N.id.
Qed.

Section Chunks.

Variable diff_text_internal : string -> string -> bool -> list DiffChange.
Variable d : CsvDifferInternal.
Variables source_map target_map : key_map.
Hypothesis d_mode_pk : d_mode d = "primary-key".
Hypothesis d_source : d_source_map d = Some source_map.
Hypothesis d_target : d_target_map d = Some target_map.

Let F (i : nat) : Classified :=
  classify_target_row diff_text_internal source_map (d_source_rows d)
    (d_source_headers d) (d_target_headers d) (d_source_header_map d)
    (d_target_header_map d) (d_excluded_columns d) (d_case_sensitive d)
    (d_ignore_whitespace d) (d_ignore_empty_vs_null d)
    (get_row_key (nth i (d_target_rows d) []) (d_target_header_map d) (d_key_columns d))
    i (nth i (d_target_rows d) []).

Lemma run_chunks_valid (chunks : list (nat * nat)) (start : nat) :
  valid_chunks_from start (List.length (d_target_rows d)) chunks = true ->
  let l := map F (seq start (List.length (d_target_rows d) - start)) in
  run_chunks diff_text_internal d chunks =
    Ok (List.length (filter is_added l),
        List.length (find_removed source_map target_map (d_source_rows d) (d_source_headers d)),
        List.length (filter is_modified l), List.length (filter is_unchanged l)).
Proof.
  set (n := List.length (d_target_rows d)).
  revert start. induction chunks as [|[s size] rest IH]; intros start; simpl; [discriminate|].
  intros H. apply andb_prop in H. destruct H as [Hs H]. apply andb_prop in Hs.
  destruct Hs as [Hs Hw]. apply Nat.eqb_eq in Hs. subst s. apply N.ltb_lt in Hw.
  unfold diff_chunk. rewrite d_mode_pk. simpl.
  unfold diff_primary_key_chunk. rewrite d_source, d_target. fold n.
  rewrite (chunk_end_of_nowrap start size n Hw).
  destruct rest as [|c rest'].
  - apply Nat.leb_le in H.
    replace (Nat.min (start + size) n) with n by lia.
    rewrite Nat.leb_refl. simpl.
    pose proof (split_classified_counts (map F (seq start (n - start)))) as (Ha & Hm & Hu).
    unfold F in Ha, Hm, Hu.
    destruct (split_classified _) as [[a m] u]. simpl in *. unfold counts. simpl.
    rewrite Ha, Hm, Hu, !Nat.add_0_r. reflexivity.
  - apply andb_prop in H. destruct H as [Hlt H]. apply Nat.ltb_lt in Hlt.
    replace (Nat.min (start + size) n) with (start + size)%nat by lia.
    replace (n <=? start + size) with false by (symmetry; apply Nat.leb_gt; lia).
    replace (start + size - start)%nat with size by lia.
    pose proof (split_classified_counts (map F (seq start size))) as (Ha & Hm & Hu).
    unfold F in Ha, Hm, Hu.
    destruct (split_classified _) as [[a m] u]. simpl in Ha, Hm, Hu. cbn [bind].
    rewrite (IH (start + size) H). cbn [bind added removed modified unchanged].
    rewrite Ha, Hm, Hu.
    rewrite (seq_split start (start + size) n) by lia.
    replace (start + size - start)%nat with size by lia.
    rewrite map_app, !filter_app, !length_app. reflexivity.
Qed.

End Chunks.

(** C2 (amended): a primary-key session driven by [diff_chunk] calls whose
    ranges follow each other from 0, each with [start + size] below 2^32
    (the [usize] sum does not wrap), only the last one reaching the number
    of target rows, sums to the per-bucket counts of the one-shot diff. *)
Theorem chunked_pk_counts (dti : string -> string -> bool -> list DiffChange)
    (source_csv target_csv : string) (key_columns : list string) (cs iw ien : bool)
    (excluded : list string) (has_headers : bool) (r : DiffResult) (chunks : list (nat * nat)) :
  diff_csv_primary_key_internal dti source_csv target_csv key_columns cs iw ien excluded has_headers
    = Ok r ->
  valid_chunks (List.length (dm_rows (target r))) chunks = true ->
  exists d, new_differ source_csv target_csv key_columns cs iw ien excluded has_headers "primary-key"
              = Ok d
            /\ run_chunks dti d chunks = Ok (counts r).
Proof.
  intros H Hv. unfold diff_csv_primary_key_internal in H.
  destruct (parse_csv_internal source_csv has_headers) as [[[sh srows] shm]|e] eqn:Es;
    [|discriminate]. simpl in H.
  destruct (parse_csv_internal target_csv has_headers) as [[[th trows] thm]|e] eqn:Et;
    [|discriminate]. simpl in H.
  destruct (validate_key_columns key_columns shm thm) as [[]|e] eqn:Ev; [|discriminate]. simpl in H.
  destruct (build_key_map "source" srows shm key_columns) as [sm|e] eqn:Esm; [|discriminate].
  simpl in H.
  destruct (build_key_map "target" trows thm key_columns) as [tm|e] eqn:Etm; [|discriminate].
  simpl in H.
  pose proof (split_classified_counts
    (map (fun p => classify_target_row dti sm srows sh th shm thm excluded cs iw ien
                     (fst p) (snd p) (nth (snd p) trows [])) tm)) as (Ha & Hm & Hu).
  destruct (split_classified _) as [[a m] u]. injection H as <-. simpl in Ha, Hm, Hu, Hv.
  rewrite length_map in Hv.
  eexists. split.
  - unfold new_differ. rewrite Es, Et. simpl. unfold init_primary_key. simpl.
    rewrite Ev. simpl. rewrite Esm. simpl. rewrite Etm. simpl. reflexivity.
  - match goal with
    | |- run_chunks _ ?d _ = _ =>
        rewrite (run_chunks_valid dti d sm tm eq_refl eq_refl eq_refl chunks 0 Hv)
    end. simpl.
    unfold counts. simpl. rewrite Nat.sub_0_r, Ha, Hm, Hu.
    apply build_key_map_from_ok in Etm. rewrite app_nil_r in Etm. subst tm.
    rewrite map_rev, !filter_length_rev.
    unfold row_keys. rewrite (map_as_seq (fun r => get_row_key r thm key_columns) trows []).
    rewrite (map_combine_index
               (fun k i => classify_target_row dti sm srows sh th shm thm excluded cs iw ien
                             k i (nth i trows []))).
    reflexivity.
Qed.

(** ** Fuzzy acceptance *)

Lemma Qlt_bool_iff (a b : Q) : Qlt_bool a b = true <-> (a < b)%Q.
Proof.
  unfold Qlt_bool. rewrite negb_true_iff. split.
  - intros H. apply Qnot_le_lt. intros Hle. apply Qle_bool_iff in Hle. congruence.
  - intros H. destruct (Qle_bool b a) eqn:E; [|reflexivity].
    apply Qle_bool_iff in E. exfalso. apply (Qlt_not_le _ _ H E).
Qed.

Lemma Qlt_bool_false (a b : Q) : Qlt_bool a b = false <-> (b <= a)%Q.
Proof.
  unfold Qlt_bool. rewrite negb_false_iff. apply Qle_bool_iff.
Qed.

Lemma best_candidate_spec (score : nat -> Q) (cands : list (nat * nat)) (ob : option nat) (sb : Q) :
  (best_candidate score cands (ob, sb) = (ob, sb)
   /\ forall c, In c cands -> (score (fst c) <= sb)%Q)
  \/ (exists c, In c cands /\ best_candidate score cands (ob, sb) = (Some (fst c), score (fst c))
      /\ (sb < score (fst c))%Q /\ forall c', In c' cands -> (score (fst c') <= score (fst c))%Q).
Proof.
  revert ob sb. induction cands as [|[ci x] rest IH]; intros ob sb; simpl.
  - left. split; [reflexivity|contradiction].
  - destruct (Qlt_bool sb (score ci)) eqn:E; simpl.
    + apply Qlt_bool_iff in E. right.
      destruct (IH (Some ci) (score ci)) as [[R Hall]|[c [Hc [R [Hlt Hall]]]]].
      * exists (ci, x). split; [auto|]. split; [exact R|]. split; [exact E|].
        intros c' [<-|Hc']; [apply Qle_refl|auto].
      * exists c. split; [auto|]. split; [exact R|]. split; [apply (Qlt_trans _ _ _ E Hlt)|].
        intros c' [<-|Hc']; [apply Qlt_le_weak; exact Hlt|auto].
    + apply Qlt_bool_false in E.
      destruct (IH ob sb) as [[R Hall]|[c [Hc [R [Hlt Hall]]]]].
      * left. split; [exact R|]. intros c' [<-|Hc']; [exact E|auto].
      * right. exists c. split; [auto|]. split; [exact R|]. split; [exact Hlt|].
        intros c' [<-|Hc']; [|auto]. apply (Qle_trans _ _ _ E). apply Qlt_le_weak. exact Hlt.
Qed.

Lemma insert_by_perm {A} (le : A -> A -> bool) (x : A) (l : list A) :
  Permutation (insert_by le x l) (x :: l).
Proof.
  induction l as [|y l IH]; simpl; [auto|].
  destruct (le x y); [auto|].
  eapply perm_trans; [apply perm_skip, IH|]. apply perm_swap.
Qed.

Lemma sort_by_perm {A} (le : A -> A -> bool) (l : list A) : Permutation (sort_by le l) l.
Proof.
  induction l as [|x l IH]; simpl; [auto|].
  eapply perm_trans; [apply insert_by_perm|]. apply perm_skip, IH.
Qed.

Lemma added_rows_from_tix (k : nat) (idxs : list nat) (target_rows : list record)
    (target_headers : list string) :
  map ar_tix (added_rows_from k idxs target_rows target_headers) = idxs.
Proof.
  revert k. induction idxs as [|i idxs IH]; intros k; simpl; [reflexivity|]. rewrite IH. reflexivity.
Qed.

Lemma remaining_added_perm (unmatched : list nat) (target_rows : list record)
    (target_headers : list string) :
  Permutation (map ar_tix (remaining_added unmatched target_rows target_headers)) unmatched.
Proof.
  unfold remaining_added. rewrite added_rows_from_tix. apply sort_by_perm.
Qed.

(** C5: a source row that misses the exact pass is classified Modified only
    when its best shortlisted candidate scores strictly above 0.5: if every
    shortlisted score is at most 0.5 (or the shortlist is empty) the row is
    appended to Removed and the unmatched target set is left as it was;
    otherwise the best candidate (the first of maximal score) is consumed and
    the row is Modified.  The target rows still unmatched at the end are
    exactly the Added rows. *)
Theorem content_match_threshold (dti : string -> string -> bool -> list DiffChange)
    (sh th : list string) (shm thm : header_map) (excluded : list string) (cs iw ien : bool)
    (inv : inv_map) (target_rows : list record) (cand_score : record -> record -> Q)
    (i : nat) (source_row : record) (a : cm_acc) :
  let cands := shortlist sh shm excluded cs iw inv (acc_unmatched a) source_row in
  let score := fun t => cand_score source_row (nth t target_rows []) in
  let a' := content_match_row dti sh th shm thm excluded cs iw ien inv target_rows cand_score
              i source_row a in
  fst (exact_pass (acc_fps a) (acc_unmatched a)
         (get_row_fingerprint source_row sh shm cs iw ien excluded)) = None ->
  ((forall c, In c cands -> (score (fst c) <= 1 # 2)%Q) ->
     (exists rr, acc_removed a' = app (acc_removed a) [rr] /\ rr_six rr = i)
     /\ acc_modified a' = acc_modified a /\ acc_unchanged a' = acc_unchanged a
     /\ acc_unmatched a' = acc_unmatched a)
  /\ ((exists c, In c cands /\ (1 # 2 < score (fst c))%Q) ->
     exists idx mr, In idx (map fst cands) /\ (1 # 2 < score idx)%Q
       /\ (forall c, In c cands -> (score (fst c) <= score idx)%Q)
       /\ acc_modified a' = app (acc_modified a) [mr] /\ mr_six mr = i /\ mr_tix mr = idx
       /\ acc_removed a' = acc_removed a /\ acc_unchanged a' = acc_unchanged a
       /\ acc_unmatched a' = set_remove (acc_unmatched a) idx)
  /\ (forall u, Permutation (map ar_tix (remaining_added u target_rows th)) u).
Proof.
  intros cands score a' Hex. subst a'.
  split; [|split; [|intros; apply remaining_added_perm]];
  unfold content_match_row; cbv zeta;
  destruct (exact_pass (acc_fps a) (acc_unmatched a) (get_row_fingerprint source_row sh shm cs iw ien excluded))
    as [hit fps'] eqn:Ex; simpl in Hex; subst hit;
  fold cands; fold score;
  destruct (best_candidate_spec score cands None 0) as [[R Hall]|[c [Hc [R [Hlt Hall]]]]];
  rewrite R.
  - intros _. split; [eexists; split; reflexivity|]. simpl. auto.
  - intros Hle. replace (Qlt_bool (1 # 2) (score (fst c))) with false.
    + split; [eexists; split; reflexivity|]. simpl. auto.
    + symmetry. apply Qlt_bool_false. apply Hle. exact Hc.
  - intros [c [Hc Hgt]]. exfalso. specialize (Hall c Hc). lra.
  - intros [c' [Hc' Hgt]].
    assert (Hb : (1 # 2 < score (fst c))%Q).
    { apply (Qlt_le_trans _ _ _ Hgt). apply Hall. exact Hc'. }
    replace (Qlt_bool (1 # 2) (score (fst c))) with true by (symmetry; apply Qlt_bool_iff; exact Hb).
    eexists (fst c), _. split; [apply in_map; exact Hc|]. split; [exact Hb|].
    split; [exact Hall|]. simpl. repeat split; reflexivity.
Qed.

(** ** Partition of the rows into the buckets *)

Lemma split_classified_ids (l : list Classified) :
  let '(a, m, u) := split_classified l in
  Permutation (app (map ar_tix a) (app (map mr_tix m) (map ur_tix u))) (map c_tix l)
  /\ Permutation (app (map mr_six m) (map ur_six u)) (flat_map c_six l).
Proof.
  induction l as [|c l IH]; simpl; [split; constructor|].
  destruct (split_classified l) as [[a m] u]. destruct IH as [IH1 IH2].
  destruct c as [x|x|x]; simpl; split.
  - apply perm_skip, IH1.
  - exact IH2.
  - eapply perm_trans; [apply Permutation_sym, Permutation_middle|]. apply perm_skip, IH1.
  - apply perm_skip, IH2.
  - rewrite app_assoc. eapply perm_trans; [apply Permutation_sym, Permutation_middle|].
    apply perm_skip. rewrite <- app_assoc. exact IH1.
  - eapply perm_trans; [apply Permutation_sym, Permutation_middle|]. apply perm_skip, IH2.
Qed.

Lemma classify_tix (dti : string -> string -> bool -> list DiffChange) (sm : key_map)
    (srows : list record) (sh th : list string) (shm thm : header_map) (ex : list string)
    (cs iw ien : bool) (key : string) (tix : nat) (row : record) :
  c_tix (classify_target_row dti sm srows sh th shm thm ex cs iw ien key tix row) = tix.
Proof.
  unfold classify_target_row. destruct (hm_get sm key); [|reflexivity].
  destruct (compute_differences _ _ _ _ _ _ _ _ _ _); reflexivity.
Qed.

Lemma classify_six (dti : string -> string -> bool -> list DiffChange) (sm : key_map)
    (srows : list record) (sh th : list string) (shm thm : header_map) (ex : list string)
    (cs iw ien : bool) (key : string) (tix : nat) (row : record) :
  c_six (classify_target_row dti sm srows sh th shm thm ex cs iw ien key tix row)
  = match hm_get sm key with Some six => [six] | None => [] end.
Proof.
  unfold classify_target_row. destruct (hm_get sm key); [|reflexivity].
  destruct (compute_differences _ _ _ _ _ _ _ _ _ _); reflexivity.
Qed.

Lemma map_snd_combine_eq {A B} (l1 : list A) (l2 : list B) :
  List.length l1 = List.length l2 -> map snd (combine l1 l2) = l2.
Proof.
  revert l2. induction l1 as [|x l1 IH]; intros [|y l2]; simpl; intros H; try discriminate;
  [reflexivity|]. f_equal. apply IH. lia.
Qed.

Lemma build_key_map_snd (ds : string) (rows : list record) (hm : header_map) (kc : list string)
    (m : key_map) :
  build_key_map ds rows hm kc = Ok m -> map snd m = rev (seq 0 (List.length rows)).
Proof.
  intros H. apply build_key_map_from_ok in H. rewrite app_nil_r in H. subst m.
  rewrite map_rev, map_snd_combine_eq; [reflexivity|]. unfold row_keys.
  rewrite length_map, length_seq. reflexivity.
Qed.

Lemma NoDup_map_filter {A B} (g : A -> B) (f : A -> bool) (l : list A) :
  NoDup (map g l) -> NoDup (map g (filter f l)).
Proof.
  induction l as [|x l IH]; simpl; [auto|]. intros Hnd. inversion Hnd as [|? ? Hn Hnd']; subst.
  destruct (f x); simpl; [|auto]. constructor; [|auto].
  intros Hin. apply Hn. apply in_map_iff in Hin. destruct Hin as [y [Hy Hin]].
  apply filter_In in Hin. rewrite <- Hy. apply in_map, Hin.
Qed.

Lemma NoDup_flat_map_single {A} (g : A -> option nat) (l : list A) :
  NoDup l -> (forall a b x, In a l -> In b l -> g a = Some x -> g b = Some x -> a = b) ->
  NoDup (flat_map (fun a => match g a with Some x => [x] | None => [] end) l).
Proof.
  induction l as [|a l IH]; simpl; intros Hnd Hinj; [constructor|].
  inversion Hnd as [|? ? Hn Hnd']; subst.
  assert (IH' : NoDup (flat_map (fun a => match g a with Some x => [x] | None => [] end) l)).
  { apply IH; [exact Hnd'|]. intros a' b x Ha Hb; apply Hinj; auto. }
  destruct (g a) as [x|] eqn:Ea; simpl; [|exact IH'].
  constructor; [|exact IH'].
  intros Hin. apply in_flat_map in Hin. destruct Hin as [b [Hb Hx]].
  destruct (g b) as [y|] eqn:Eb; [|contradiction]. destruct Hx as [<-|[]].
  assert (a = b) as <- by (apply (Hinj a b y); auto). contradiction.
Qed.

Lemma NoDup_fst_inj {A B} (l : list (A * B)) (p q : A * B) :
  NoDup (map fst l) -> In p l -> In q l -> fst p = fst q -> p = q.
Proof.
  induction l as [|x l IH]; simpl; [contradiction|]. intros Hnd Hp Hq E.
  inversion Hnd as [|? ? Hn Hnd']; subst.
  destruct Hp as [<-|Hp], Hq as [<-|Hq]; auto.
  - exfalso. apply Hn. rewrite E. apply in_map, Hq.
  - exfalso. apply Hn. rewrite <- E. apply in_map, Hp.
Qed.

(** In primary-key mode, the source rows of Removed followed by those the
    target loop matched are the source rows, each once. *)
Lemma pk_source_partition (dti : string -> string -> bool -> list DiffChange) (sm tm : key_map)
    (srows trows : list record) (sh th : list string) (shm thm : header_map) (kc ex : list string)
    (cs iw ien : bool) :
  build_key_map "source" srows shm kc = Ok sm ->
  build_key_map "target" trows thm kc = Ok tm ->
  Permutation
    (app (map rr_six (find_removed sm tm srows sh))
         (flat_map c_six (map (fun p => classify_target_row dti sm srows sh th shm thm ex cs iw ien
                                         (fst p) (snd p) (nth (snd p) trows [])) tm)))
    (seq 0 (List.length srows)).
Proof.
  intros Hs Ht.
  destruct (key_map_lookup _ _ _ _ _ Hs) as (Hsnd & _ & Hsin).
  destruct (key_map_lookup _ _ _ _ _ Ht) as (Htnd & Htfst & _).
  pose proof (build_key_map_snd _ _ _ _ _ Hs) as Hssnd.
  set (ks := row_keys srows shm kc) in *. set (kt := row_keys trows thm kc) in *.
  set (G := fun p : string * nat => match hm_get sm (fst p) with Some six => [six] | None => [] end).
  assert (E : flat_map c_six (map (fun p => classify_target_row dti sm srows sh th shm thm ex cs iw ien
                                        (fst p) (snd p) (nth (snd p) trows [])) tm)
              = flat_map G tm).
  { clear. induction tm as [|p tm IH]; simpl; [reflexivity|]. rewrite classify_six, IH. reflexivity. }
  rewrite E. clear E.
  assert (Er : map rr_six (find_removed sm tm srows sh)
               = map snd (filter (fun p => negb (hm_contains tm (fst p))) sm)).
  { unfold find_removed. rewrite map_map. reflexivity. }
  rewrite Er. clear Er.
  assert (Hrem : forall x, In x (map snd (filter (fun p => negb (hm_contains tm (fst p))) sm))
                           <-> (x < List.length srows /\ ~ In (nth x ks "") kt)%nat).
  { intros x. rewrite in_map_iff. split.
    - intros [[k v] [Hv Hin]]. simpl in Hv. subst v. apply filter_In in Hin. destruct Hin as [Hin Hc].
      apply Hsin in Hin. destruct Hin as [Hx Hk]. split; [exact Hx|]. rewrite Hk.
      simpl in Hc. apply negb_true_iff in Hc. intros Hkt. apply in_rev in Hkt.
      rewrite <- Htfst in Hkt. apply hm_contains_In in Hkt. congruence.
    - intros [Hx Hn]. exists (nth x ks "", x). split; [reflexivity|]. apply filter_In.
      split; [apply Hsin; auto|]. simpl. apply negb_true_iff.
      destruct (hm_contains tm (nth x ks "")) eqn:Ec; [|reflexivity].
      apply hm_contains_In in Ec. rewrite Htfst in Ec. apply in_rev in Ec. contradiction. }
  assert (Hmat : forall x, In x (flat_map G tm)
                           <-> (x < List.length srows /\ In (nth x ks "") kt)%nat).
  { intros x. rewrite in_flat_map. split.
    - intros [[k j] [Hin Hx]]. unfold G in Hx. simpl in Hx.
      destruct (hm_get sm k) as [six|] eqn:Eg; [|contradiction]. destruct Hx as [<-|[]].
      apply hm_get_In, Hsin in Eg. destruct Eg as [Hx Hk]. split; [exact Hx|]. rewrite Hk.
      apply in_rev. rewrite <- Htfst. apply (in_map fst) in Hin. exact Hin.
    - intros [Hx Hk]. apply in_rev in Hk. rewrite <- Htfst in Hk. apply in_map_iff in Hk.
      destruct Hk as [[k j] [Hk Hin]]. simpl in Hk. exists (k, j). split; [exact Hin|].
      unfold G. simpl. rewrite (hm_get_NoDup sm k x Hsnd); [left; reflexivity|].
      apply Hsin. auto. }
  apply NoDup_Permutation.
  - apply NoDup_app.
    + apply NoDup_map_filter. rewrite Hssnd. apply NoDup_rev, seq_NoDup.
    + apply NoDup_flat_map_single.
      * apply (NoDup_map_inv fst). exact Htnd.
      * intros p q y Hp Hq Ep Eq. apply (NoDup_fst_inj tm); auto.
        apply hm_get_In, Hsin in Ep. apply hm_get_In, Hsin in Eq. destruct Ep as [_ Ep], Eq as [_ Eq].
        congruence.
    + intros y H1 H2. apply Hrem in H1. apply Hmat in H2. tauto.
  - apply seq_NoDup.
  - intros x. rewrite in_app_iff, Hrem, Hmat, in_seq. split; [intros [[]|[]]; lia|].
    intros [_ Hx]. simpl in Hx. destruct (In_dec string_dec (nth x ks "") kt); auto.
Qed.

(** Content-match mode: the target rows consumed by the exact pass and by
    accepted fuzzy matches come from the unmatched set. *)
Lemma set_contains_In (s : list nat) (x : nat) : set_contains s x = true <-> In x s.
Proof.
  unfold set_contains. rewrite existsb_exists. split.
  - intros [y [Hy E]]. apply Nat.eqb_eq in E. subst. exact Hy.
  - intros Hx. exists x. split; [exact Hx|]. apply Nat.eqb_refl.
Qed.

Lemma pop_unmatched_in (stack u : list nat) (t : nat) (rest : list nat) :
  pop_unmatched stack u = (Some t, rest) -> In t u.
Proof.
  induction stack as [|y stack IH]; simpl; [discriminate|].
  destruct (set_contains u y) eqn:Ec; [|exact IH].
  intros H. injection H as <- _. apply set_contains_In, Ec.
Qed.

Lemma exact_pass_in (fps : fp_map) (u : list nat) (fp : string) (t : nat) (fps' : fp_map) :
  exact_pass fps u fp = (Some t, fps') -> In t u.
Proof.
  unfold exact_pass. destruct (assoc_get String.eqb fps fp) as [stack|]; [|discriminate].
  destruct (pop_unmatched stack u) as [hit rest] eqn:Ep. intros H. injection H as -> _.
  apply (pop_unmatched_in stack u t rest Ep).
Qed.

Lemma assoc_set_nat_in (l : list (nat * nat)) (k v : nat) (c : nat * nat) :
  In c (assoc_set Nat.eqb l k v) -> fst c = k \/ In c l.
Proof.
  induction l as [|[k' v'] l IH]; simpl.
  - intros [<-|[]]. left; reflexivity.
  - destruct (Nat.eqb_spec k k') as [->|_]; simpl.
    + intros [<-|H]; [left; reflexivity|right; right; exact H].
    + intros [<-|H]; [right; left; reflexivity|]. destruct (IH H); auto.
Qed.

Lemma bump_in (sc : list (nat * nat)) (t : nat) (c : nat * nat) :
  In c (bump sc t) -> fst c = t \/ In c sc.
Proof. unfold bump. destruct (assoc_get Nat.eqb sc t); apply assoc_set_nat_in. Qed.

Lemma fold_bump_in (u : list nat) (ts : list nat) (sc : list (nat * nat)) :
  (forall c, In c sc -> In (fst c) u) ->
  forall c, In c (fold_left (fun sc t => if set_contains u t then bump sc t else sc) ts sc) ->
            In (fst c) u.
Proof.
  revert sc. induction ts as [|t ts IH]; simpl; intros sc Hsc; [exact Hsc|].
  apply IH. destruct (set_contains u t) eqn:Ec; [|exact Hsc].
  intros c Hc. destruct (bump_in sc t c Hc) as [->|H]; [apply set_contains_In, Ec|auto].
Qed.

Lemma gather_candidates_in (inv : inv_map) (u : list nat) (tokens : list (nat * nat * string)) :
  forall budget sc, (forall c, In c sc -> In (fst c) u) ->
  forall c, In c (gather_candidates tokens budget inv u sc) -> In (fst c) u.
Proof.
  induction tokens as [|[[count col] val] tokens IH]; simpl; intros budget sc Hsc; [exact Hsc|].
  repeat match goal with
         | |- context [if ?b then _ else _] => destruct b
         | |- context [match assoc_get ?e ?m ?k with _ => _ end] => destruct (assoc_get e m k)
         end;
  first [exact Hsc | apply IH, Hsc | apply IH, fold_bump_in, Hsc].
Qed.

Lemma firstn_in {A} (n : nat) (l : list A) (x : A) : In x (firstn n l) -> In x l.
Proof. intros H. rewrite <- (firstn_skipn n l). apply in_or_app. left. exact H. Qed.

Lemma shortlist_in (sh : list string) (shm : header_map) (ex : list string) (cs iw : bool)
    (inv : inv_map) (u : list nat) (row : record) (c : nat * nat) :
  In c (shortlist sh shm ex cs iw inv u row) -> In (fst c) u.
Proof.
  unfold shortlist, top_candidates. intros H. apply firstn_in in H.
  apply (Permutation_in _ (sort_by_perm _ _)) in H.
  revert H. apply gather_candidates_in. contradiction.
Qed.

Lemma set_remove_notin (s : list nat) (x : nat) : ~ In x s -> set_remove s x = s.
Proof.
  induction s as [|y s IH]; simpl; intros Hn; [reflexivity|].
  destruct (Nat.eqb_spec x y) as [->|_]; [exfalso; auto|]. simpl. f_equal. auto.
Qed.

Lemma set_remove_perm (s : list nat) (x : nat) :
  NoDup s -> In x s -> Permutation s (x :: set_remove s x).
Proof.
  induction s as [|y s IH]; simpl; [contradiction|]. intros Hnd Hin.
  inversion Hnd as [|? ? Hn Hnd']; subst.
  destruct (Nat.eqb_spec x y) as [->|Hne]; simpl.
  - rewrite set_remove_notin by exact Hn. reflexivity.
  - destruct Hin as [->|Hin]; [congruence|].
    eapply perm_trans; [apply perm_skip, IH; assumption|]. apply perm_swap.
Qed.

(** One iteration of the source-row loop places source row [i] once and
    keeps the consumed target rows and the unmatched ones a partition. *)
Lemma content_match_row_ids (dti : string -> string -> bool -> list DiffChange)
    (sh th : list string) (shm thm : header_map) (ex : list string) (cs iw ien : bool)
    (inv : inv_map) (trows : list record) (cand_score : record -> record -> Q)
    (i : nat) (row : record) (a : cm_acc) (n : nat) :
  NoDup (acc_unmatched a) -> Permutation (app (acc_tix a) (acc_unmatched a)) (seq 0 n) ->
  NoDup (acc_unmatched (content_match_row dti sh th shm thm ex cs iw ien inv trows cand_score i row a))
  /\ Permutation (app (acc_tix (content_match_row dti sh th shm thm ex cs iw ien inv trows cand_score i row a))
                      (acc_unmatched (content_match_row dti sh th shm thm ex cs iw ien inv trows cand_score i row a)))
                 (seq 0 n)
  /\ Permutation (acc_six (content_match_row dti sh th shm thm ex cs iw ien inv trows cand_score i row a))
                 (i :: acc_six a).
Proof.
  intros Hnd Hp. unfold content_match_row. cbv zeta.
  destruct (exact_pass (acc_fps a) (acc_unmatched a) (get_row_fingerprint row sh shm cs iw ien ex))
    as [[t|] fps'] eqn:Ex.
  - apply exact_pass_in in Ex. unfold acc_tix, acc_six in *. simpl. rewrite !map_app. simpl.
    split; [apply NoDup_filter, Hnd|]. split.
    + eapply perm_trans; [|exact Hp]. rewrite <- !app_assoc.
      apply Permutation_app_head, Permutation_app_head. simpl.
      apply Permutation_sym, set_remove_perm; assumption.
    + rewrite !app_assoc. apply Permutation_sym, Permutation_cons_append.
  - set (score := fun t => cand_score row (nth t trows [])).
    set (cands := shortlist sh shm ex cs iw inv (acc_unmatched a) row).
    assert (Hrem : forall fps'' k,
      let a' := {| acc_unmatched := acc_unmatched a; acc_fps := fps'';
                   acc_removed := app (acc_removed a)
                     [{| rr_key := k; rr_source_row := record_to_hashmap row sh; rr_six := i |}];
                   acc_modified := acc_modified a; acc_unchanged := acc_unchanged a |} in
      NoDup (acc_unmatched a') /\ Permutation (app (acc_tix a') (acc_unmatched a')) (seq 0 n)
      /\ Permutation (acc_six a') (i :: acc_six a)).
    { intros fps'' k a'. unfold acc_tix, acc_six in *. simpl.
      split; [exact Hnd|]. split; [exact Hp|].
      rewrite map_app, <- app_assoc. simpl. apply Permutation_sym, Permutation_middle. }
    destruct (best_candidate_spec score cands None 0) as [[R _]|[c [Hc [R _]]]];
      rewrite R; [apply Hrem|].
    destruct (Qlt_bool (1 # 2) (score (fst c))); [|apply Hrem].
    apply shortlist_in in Hc. unfold acc_tix, acc_six in *. simpl. rewrite !map_app. simpl.
    split; [apply NoDup_filter, Hnd|]. split.
    + eapply perm_trans; [|exact Hp]. rewrite <- !app_assoc. apply Permutation_app_head. simpl.
      eapply perm_trans; [apply Permutation_middle|]. apply Permutation_app_head.
      apply Permutation_sym, set_remove_perm; assumption.
    + rewrite <- !app_assoc. simpl. rewrite !app_assoc.
      apply Permutation_sym, Permutation_middle.
Qed.

Lemma content_match_rows_ids (dti : string -> string -> bool -> list DiffChange)
    (sh th : list string) (shm thm : header_map) (ex : list string) (cs iw ien : bool)
    (inv : inv_map) (trows : list record) (cand_score : record -> record -> Q) (n : nat)
    (rows : list record) :
  forall i a, NoDup (acc_unmatched a) -> Permutation (app (acc_tix a) (acc_unmatched a)) (seq 0 n) ->
  NoDup (acc_unmatched (content_match_rows dti sh th shm thm ex cs iw ien inv trows cand_score i rows a))
  /\ Permutation (app (acc_tix (content_match_rows dti sh th shm thm ex cs iw ien inv trows cand_score i rows a))
                      (acc_unmatched (content_match_rows dti sh th shm thm ex cs iw ien inv trows cand_score i rows a)))
                 (seq 0 n)
  /\ Permutation (acc_six (content_match_rows dti sh th shm thm ex cs iw ien inv trows cand_score i rows a))
                 (app (acc_six a) (seq i (List.length rows))).
Proof.
  induction rows as [|row rows IH]; intros i a Hnd Hp; simpl.
  - rewrite app_nil_r. auto.
  - destruct (content_match_row_ids dti sh th shm thm ex cs iw ien inv trows cand_score i row a n Hnd Hp)
      as (Hnd' & Hp' & Hs').
    destruct (IH (S i) _ Hnd' Hp') as (H1 & H2 & H3). split; [exact H1|]. split; [exact H2|].
    eapply perm_trans; [exact H3|]. eapply perm_trans; [apply Permutation_app_tail, Hs'|].
    simpl. apply Permutation_middle.
Qed.

(** C1: whenever a diff completes, in primary-key mode ([diff_csv_primary_key_internal])
    as in content-match mode ([diff_csv_internal]), the source rows placed in
    Removed, Modified and Unchanged are exactly the source rows, each once,
    and the target rows placed in Added, Modified and Unchanged are exactly
    the target rows, each once: no row is dropped and none is in two buckets.
    (Rows are identified by their position; in primary-key mode a row's
    position and its key determine each other, the keys being unique.) *)
Theorem partition_invariant (dti : string -> string -> bool -> list DiffChange)
    (jaro_winkler normalized_levenshtein : string -> string -> Q)
    (source_csv target_csv : string) (key_columns : list string) (cs iw ien : bool)
    (excluded : list string) (has_headers : bool) :
  (forall r, diff_csv_primary_key_internal dti source_csv target_csv key_columns cs iw ien
               excluded has_headers = Ok r ->
     Permutation (source_ids r) (seq 0 (List.length (dm_rows (source r))))
     /\ Permutation (target_ids r) (seq 0 (List.length (dm_rows (target r)))))
  /\ (forall r, diff_csv_internal dti jaro_winkler normalized_levenshtein source_csv target_csv
                  cs iw ien excluded has_headers = Ok r ->
     Permutation (source_ids r) (seq 0 (List.length (dm_rows (source r))))
     /\ Permutation (target_ids r) (seq 0 (List.length (dm_rows (target r))))).
Proof.
  split; intros r H.
  - unfold diff_csv_primary_key_internal in H.
    destruct (parse_csv_internal source_csv has_headers) as [[[sh srows] shm]|e] eqn:Es;
      [|discriminate]. simpl in H.
    destruct (parse_csv_internal target_csv has_headers) as [[[th trows] thm]|e] eqn:Et;
      [|discriminate]. simpl in H.
    destruct (validate_key_columns key_columns shm thm) as [[]|e] eqn:Ev; [|discriminate]. simpl in H.
    destruct (build_key_map "source" srows shm key_columns) as [sm|e] eqn:Esm; [|discriminate].
    simpl in H.
    destruct (build_key_map "target" trows thm key_columns) as [tm|e] eqn:Etm; [|discriminate].
    simpl in H.
    pose proof (pk_source_partition dti sm tm srows trows sh th shm thm key_columns excluded
                  cs iw ien Esm Etm) as Hsrc.
    pose proof (split_classified_ids
      (map (fun p => classify_target_row dti sm srows sh th shm thm excluded cs iw ien
                       (fst p) (snd p) (nth (snd p) trows [])) tm)) as Hids.
    destruct (split_classified _) as [[a m] u]. injection H as <-. destruct Hids as [H1 H2].
    unfold source_ids, target_ids. simpl. rewrite !length_map. split.
    + eapply perm_trans; [apply Permutation_app_head, H2|]. exact Hsrc.
    + eapply perm_trans; [exact H1|]. rewrite map_map.
      erewrite map_ext; [|intros p; apply classify_tix].
      rewrite (build_key_map_snd _ _ _ _ _ Etm). apply Permutation_sym, Permutation_rev.
  - unfold diff_csv_internal in H.
    destruct (parse_csv_internal source_csv has_headers) as [[[sh srows] shm]|e] eqn:Es;
      [|discriminate]. simpl in H.
    destruct (parse_csv_internal target_csv has_headers) as [[[th trows] thm]|e] eqn:Et;
      [|discriminate]. simpl in H.
    destruct (negb (strs_eqb sh th) && (List.length sh =? List.length th));
    match type of H with
    | context [index_targets ?i0 ?tr ?h ?tm ?x ?c ?w ?e ?f0 ?v0] =>
        destruct (index_targets i0 tr h tm x c w e f0 v0) as [fps inv]
    end;
    injection H as <-;
    match goal with
    | |- context [content_match_rows ?d ?h1 ?h2 ?m1 ?m2 ?x ?c ?w ?e ?v ?tr ?sc 0 ?sr ?a0] =>
        destruct (content_match_rows_ids d h1 h2 m1 m2 x c w e v tr sc (List.length trows) sr 0 a0
                    (seq_NoDup _ _) (Permutation_refl _)) as (_ & Ht & Hs)
    end;
    unfold source_ids, target_ids; simpl; rewrite !length_map; unfold acc_six, acc_tix in *;
    simpl in Hs; (split; [exact Hs|]);
    (eapply perm_trans; [apply Permutation_app_tail, remaining_added_perm|]);
    (eapply perm_trans; [apply Permutation_app_comm|]); exact Ht.
Qed.

(** ** Extra properties: binary codec round trips *)

Lemma length_list_ascii_of_string (s : string) :
  List.length (list_ascii_of_string s) = String.length s.
Proof. induction s as [|c s IH]; simpl; [reflexivity|]. rewrite IH. reflexivity. Qed.

Lemma length_str_bytes (s : string) : List.length (str_bytes s) = String.length s.
Proof. unfold str_bytes. rewrite length_map. apply length_list_ascii_of_string. Qed.

Lemma write_string_shape (pre : list N) (s : string) :
  write_string pre s = app pre (app (u32_le (as_u32 (String.length s))) (str_bytes s)).
Proof. unfold write_string, write_u32. rewrite <- app_assoc. reflexivity. Qed.

Lemma read_string_write (pre post : list N) (s : string) :
  (N.of_nat (String.length s) < two32)%N ->
  read_string (app (write_string pre s) post) (List.length pre) =
  Some (str_bytes s, (List.length pre + 4 + String.length s)%nat).
Proof.
  intros Hs. rewrite write_string_shape, <- !app_assoc.
  unfold read_string.
  replace (List.length pre) with (List.length pre + 0)%nat at 1 by lia.
  rewrite read_u32_app, read_u32_head, u32_le_roundtrip
    by (unfold as_u32; apply N.mod_lt; discriminate).
  rewrite as_u32_small by exact Hs. rewrite Nat2N.id.
  replace (List.length pre + 4)%nat with (List.length pre + 4)%nat by reflexivity.
  replace (List.length pre + 4 + String.length s)%nat
    with (List.length pre + (4 + String.length s))%nat by lia.
  rewrite slice_app. unfold slice.
  rewrite !length_app. unfold u32_le at 1 2. simpl List.length.
  rewrite length_str_bytes.
  destruct (Nat.leb_spec 4 (4 + String.length s)); [|lia].
  destruct (Nat.leb_spec (4 + String.length s) (4 + (String.length s + List.length post)));
    [|lia].
  simpl. replace (String.length s + 0)%nat with (String.length s) by lia.
  assert (F : forall (l r : list N), firstn (List.length l) (app l r) = l).
  { intros l r. rewrite firstn_app, Nat.sub_diag, firstn_all. simpl. apply app_nil_r. }
  rewrite Nat.sub_0_r, <- (length_str_bytes s) at 1. rewrite F. reflexivity.
Qed.

Lemma length_write_string (b : list N) (s : string) :
  List.length (write_string b s) = (List.length b + 4 + String.length s)%nat.
Proof.
  rewrite write_string_shape, !length_app, length_str_bytes. simpl. lia.
Qed.

Lemma read_fields_write (row : row_map) (b post : list N) acc :
  Forall field_fits row ->
  read_fields (app (fold_left write_field row b) post) (List.length row) (List.length b) acc =
  Some (app acc (map decoded_field row), List.length (fold_left write_field row b)).
Proof.
  revert b acc. induction row as [|[k v] row IH]; intros b acc Hf.
  - simpl. rewrite app_nil_r. reflexivity.
  - inversion Hf as [|? ? [Hk Hv] Hr]; subst. simpl List.length. simpl fold_left.
    cbn [read_fields].
    destruct (appends_fold write_field
                (fun kv b => appends_comp _ _ (appends_string (fst kv)) (appends_string (snd kv)) b)
                row (write_field b (k, v))) as [s E].
    rewrite E.
    assert (B1 : app (app (write_field b (k, v)) s) post
                 = app (write_string b k) (app (app (u32_le (as_u32 (String.length v))) (str_bytes v)) (app s post))).
    { unfold write_field. simpl fst; simpl snd. rewrite (write_string_shape (write_string b k) v).
      rewrite <- !app_assoc. reflexivity. }
    rewrite B1, (read_string_write b) by exact Hk.
    rewrite <- B1.
    assert (B2 : app (app (write_field b (k, v)) s) post
                 = app (write_string (write_string b k) v) (app s post)).
    { unfold write_field. rewrite <- app_assoc. reflexivity. }
    rewrite B2. rewrite <- (length_write_string b k).
    rewrite (read_string_write (write_string b k)) by exact Hv.
    rewrite <- B2, <- E.
    replace (List.length (write_string b k) + 4 + String.length v)%nat
      with (List.length (write_field b (k, v))) by (unfold write_field; apply length_write_string).
    rewrite IH by exact Hr. rewrite <- app_assoc. reflexivity.
Qed.

Lemma read_u32_write (pre rest : list N) (v : N) :
  (v < two32)%N ->
  read_u32 (app (write_u32 pre v) rest) (List.length pre) = Some (v, (List.length pre + 4)%nat).
Proof.
  intros Hv. unfold write_u32. rewrite <- app_assoc.
  replace (List.length pre) with (List.length pre + 0)%nat at 1 by lia.
  rewrite read_u32_app, read_u32_head, u32_le_roundtrip by exact Hv. reflexivity.
Qed.

Lemma write_row_data_fold (b : list N) (row : row_map) :
  write_row_data b row = fold_left write_field row (write_u32 b (as_u32 (List.length row))).
Proof. reflexivity. Qed.

(** X1: [read_string] returns the bytes [write_string] wrote, and moves
    past them, wherever the string sits in the buffer, as long as its length
    fits a [u32]. *)
Theorem string_codec_roundtrip (pre post : list N) (s : string) :
  (N.of_nat (String.length s) < two32)%N ->
  read_string (app (write_string pre s) post) (List.length pre) =
  Some (str_bytes s, List.length (write_string pre s)).
Proof.
  intros Hs. rewrite length_write_string. apply read_string_write. exact Hs.
Qed.

(** X2: [read_row_data] returns the fields [write_row_data] wrote, in the
    order they were written, and stops right after them, as long as the
    field count and every key and value length fit a [u32]. *)
Theorem row_codec_roundtrip (pre post : list N) (row : row_map) :
  (N.of_nat (List.length row) < two32)%N ->
  Forall field_fits row ->
  read_row_data (app (write_row_data pre row) post) (List.length pre) =
  Some (map decoded_field row, List.length (write_row_data pre row)).
Proof.
  intros Hn Hf. rewrite write_row_data_fold. unfold read_row_data.
  destruct (appends_fold write_field
              (fun kv b => appends_comp _ _ (appends_string (fst kv)) (appends_string (snd kv)) b)
              row (write_u32 pre (as_u32 (List.length row)))) as [s E].
  cbv beta in E. rewrite E, <- app_assoc, read_u32_write by (unfold as_u32; apply N.mod_lt; discriminate).
  replace (N.to_nat (as_u32 (List.length row))) with (List.length row)
    by (rewrite as_u32_small by exact Hn; symmetry; apply Nat2N.id).
  rewrite app_assoc.
  replace (List.length pre + 4)%nat with (List.length (write_u32 pre (as_u32 (List.length row))))
    by (unfold write_u32; rewrite length_app; reflexivity).
  rewrite <- E. rewrite read_fields_write by exact Hf. reflexivity.
Qed.

(** ** Extra properties: fingerprints *)

Lemma sappend_assoc (a b c : string) : (a ++ (b ++ c))%string = ((a ++ b) ++ c)%string.
Proof. induction a as [|x a IH]; simpl; [reflexivity|]. rewrite IH. reflexivity. Qed.

Lemma sappend_nil_r (a : string) : (a ++ "")%string = a.
Proof. induction a as [|x a IH]; simpl; [reflexivity|]. rewrite IH. reflexivity. Qed.

Lemma join_cons (sep x : string) (l : list string) :
  join sep (x :: l) = (x ++ prefixed sep l)%string.
Proof.
  revert x. induction l as [|y l IH]; intros x.
  - simpl. symmetry. apply sappend_nil_r.
  - change (join sep (x :: y :: l)) with (x ++ sep ++ join sep (y :: l))%string.
    rewrite IH. reflexivity.
Qed.

Lemma fingerprint_fast_loop_eq (row : record) (hm : header_map) (cs iw ien : bool)
    (ex hs : list string) (acc : string) :
  let vals := map (fun h =>
                     let v := match hm_get hm h with Some idx => cell row idx | None => "" end in
                     normalize_value_with_empty_vs_null v cs iw ien)
                  (filter (fun h => negb (str_mem ex h)) hs) in
  fingerprint_fast_loop row hm cs iw ien ex hs acc false = (acc ++ prefixed "||" vals)%string
  /\ fingerprint_fast_loop row hm cs iw ien ex hs acc true = (acc ++ join "||" vals)%string.
Proof.
  revert acc. induction hs as [|h hs IH]; intros acc.
  - simpl. rewrite sappend_nil_r. split; reflexivity.
  - cbn [fingerprint_fast_loop filter]. destruct (str_mem ex h) eqn:E; cbn [negb map].
    + apply IH.
    + rewrite join_cons. split.
      * rewrite (proj1 (IH _)). rewrite <- !sappend_assoc. reflexivity.
      * rewrite (proj1 (IH _)). rewrite <- !sappend_assoc. reflexivity.
Qed.

(** X3: [get_row_fingerprint_fast] builds the same string as
    [get_row_fingerprint]: the normalized values of the non-excluded
    headers, in header order, joined by ["||"]. *)
Theorem fingerprint_fast_agrees (row : record) (headers : list string) (hm : header_map)
    (cs iw ien : bool) (excluded : list string) :
  get_row_fingerprint_fast row headers hm cs iw ien excluded
  = get_row_fingerprint row headers hm cs iw ien excluded.
Proof.
  unfold get_row_fingerprint_fast, get_row_fingerprint.
  rewrite (proj2 (fingerprint_fast_loop_eq row hm cs iw ien excluded headers "")). reflexivity.
Qed.

(** ** Extra properties: value normalisation *)

Lemma drop_ws_suffix (l : list ascii) : exists p, l = app p (drop_ws l).
Proof.
  induction l as [|c l IH]; simpl; [exists []; reflexivity|].
  destruct (is_ws c); [|exists []; reflexivity].
  destruct IH as [p E]. exists (c :: p). simpl. rewrite <- E. reflexivity.
Qed.

Lemma drop_ws_head (l : list ascii) :
  drop_ws l = [] \/ exists c r, drop_ws l = c :: r /\ is_ws c = false.
Proof.
  induction l as [|c l IH]; simpl; [left; reflexivity|].
  destruct (is_ws c) eqn:E; [exact IH|]. right. exists c, l. auto.
Qed.

Lemma drop_ws_fix (l : list ascii) :
  (l = [] \/ exists c r, l = c :: r /\ is_ws c = false) -> drop_ws l = l.
Proof.
  intros [->|(c & r & -> & E)]; simpl; [reflexivity|]. rewrite E. reflexivity.
Qed.

Lemma trim_idem (s : string) : trim (trim s) = trim s.
Proof.
  unfold trim. rewrite list_ascii_of_string_of_list_ascii. f_equal.
  set (t := drop_ws (list_ascii_of_string s)).
  set (u := drop_ws (rev t)).
  assert (Ht : t = [] \/ exists c r, t = c :: r /\ is_ws c = false) by apply drop_ws_head.
  assert (Hu : u = [] \/ exists c r, u = c :: r /\ is_ws c = false) by apply drop_ws_head.
  destruct (drop_ws_suffix (rev t)) as [p Ep]. fold u in Ep.
  assert (Hru : rev u = [] \/ exists c r, rev u = c :: r /\ is_ws c = false).
  { destruct u as [|x u'] eqn:Eu; [left; reflexivity|]. right.
    destruct Ht as [Ht|(c & r & Ht & Hc)].
    - rewrite Ht in Ep. simpl in Ep. destruct p; discriminate.
    - rewrite Ht in Ep. simpl in Ep.
      assert (E2 : c :: r = app (rev (x :: u')) (rev p)).
      { rewrite <- rev_app_distr, <- Ep, rev_app_distr, rev_involutive. reflexivity. }
      destruct (rev (x :: u')) as [|y w] eqn:Ew.
      + apply (f_equal (@List.length ascii)) in Ew. rewrite length_rev in Ew. discriminate.
      + simpl in E2. injection E2 as Ecy _. exists y, w. split; [reflexivity|rewrite <- Ecy; exact Hc]. }
  rewrite (drop_ws_fix (rev u) Hru), rev_involutive, (drop_ws_fix u Hu). reflexivity.
Qed.

Lemma is_empty_or_null_trim (v : string) : is_empty_or_null (trim v) = is_empty_or_null v.
Proof. unfold is_empty_or_null. rewrite trim_idem. reflexivity. Qed.

(** X4: with [ignore_empty_vs_null], every value that is empty, blank or
    ["null"] in any letter case (surrounding whitespace allowed) normalizes
    to the one marker ["EMPTY_OR_NULL"], whatever the case and whitespace
    options. *)
Theorem empty_or_null_collapse (v : string) (cs iw : bool) :
  is_empty_or_null v = true ->
  normalize_value_with_empty_vs_null v cs iw true = "EMPTY_OR_NULL"%string.
Proof.
  intros H. unfold normalize_value_with_empty_vs_null.
  destruct iw; rewrite ?is_empty_or_null_trim, H; reflexivity.
Qed.

Lemma lower_ascii_idem (c : ascii) : lower_ascii (lower_ascii c) = lower_ascii c.
Proof. destruct c as [[] [] [] [] [] [] [] []]; vm_compute; reflexivity. Qed.

Lemma is_ws_lower (c : ascii) : is_ws (lower_ascii c) = is_ws c.
Proof. destruct c as [[] [] [] [] [] [] [] []]; vm_compute; reflexivity. Qed.

Lemma drop_ws_map_lower (l : list ascii) : drop_ws (map lower_ascii l) = map lower_ascii (drop_ws l).
Proof.
  induction l as [|c l IH]; simpl; [reflexivity|]. rewrite is_ws_lower.
  destruct (is_ws c); [exact IH|reflexivity].
Qed.

Lemma trim_lower (s : string) : trim (to_lowercase s) = to_lowercase (trim s).
Proof.
  unfold trim, to_lowercase. rewrite !list_ascii_of_string_of_list_ascii.
  rewrite drop_ws_map_lower, <- map_rev, drop_ws_map_lower, <- map_rev. reflexivity.
Qed.

Lemma lower_idem (s : string) : to_lowercase (to_lowercase s) = to_lowercase s.
Proof.
  unfold to_lowercase. rewrite list_ascii_of_string_of_list_ascii, map_map.
  f_equal. apply map_ext. apply lower_ascii_idem.
Qed.

Lemma string_eqb_empty_lower (s : string) :
  String.eqb (to_lowercase s) "" = String.eqb s "".
Proof. destruct s; reflexivity. Qed.

Lemma is_empty_or_null_lower (v : string) : is_empty_or_null (to_lowercase v) = is_empty_or_null v.
Proof.
  unfold is_empty_or_null, eq_ignore_ascii_case. rewrite trim_lower, string_eqb_empty_lower, lower_idem.
  reflexivity.
Qed.

Lemma normalize_insensitive_lower (v : string) (iw ien : bool) :
  normalize_value_with_empty_vs_null (to_lowercase v) false iw ien
  = normalize_value_with_empty_vs_null v false iw ien.
Proof.
  unfold normalize_value_with_empty_vs_null.
  destruct iw; rewrite ?trim_lower, is_empty_or_null_lower, lower_idem; reflexivity.
Qed.

(** X5: without [case_sensitive], two values whose ASCII lowercase forms
    are equal normalize to the same string, whatever the whitespace and
    empty-vs-null options. *)
Theorem case_insensitive_normalize (a b : string) (iw ien : bool) :
  to_lowercase a = to_lowercase b ->
  normalize_value_with_empty_vs_null a false iw ien
  = normalize_value_with_empty_vs_null b false iw ien.
Proof.
  intros H. rewrite <- (normalize_insensitive_lower a), <- (normalize_insensitive_lower b), H.
  reflexivity.
Qed.

(** ** Extra properties: header maps and row maps *)

Lemma build_header_map_from_get (i : nat) (hs : list string) (m : header_map) (h : string) :
  hm_get (build_header_map_from i hs m) h
  = match last_assoc (combine hs (seq i (List.length hs))) h with
    | Some v => Some v
    | None => hm_get m h
    end.
Proof.
  revert i m. induction hs as [|x hs IH]; intros i m; simpl; [reflexivity|].
  rewrite IH. destruct (last_assoc (combine hs (seq (S i) (List.length hs))) h); [reflexivity|].
  simpl. destruct (String.eqb h x); reflexivity.
Qed.

Lemma last_assoc_index (hs : list string) (i : nat) (h : string) (v : nat) :
  last_assoc (combine hs (seq i (List.length hs))) h = Some v <->
  (i <= v)%nat /\ nth_error hs (v - i) = Some h
  /\ (forall j, (v - i < j)%nat -> nth_error hs j <> Some h).
Proof.
  revert i v. induction hs as [|x hs IH]; intros i v; simpl.
  - split; [discriminate|]. intros (_ & E & _). destruct (v - i)%nat; discriminate.
  - destruct (last_assoc (combine hs (seq (S i) (List.length hs))) h) as [w|] eqn:E.
    + apply IH in E. destruct E as (Hw & Ew & Hl). split.
      * intros F. injection F as <-. split; [lia|].
        replace (w - i)%nat with (S (w - S i)) by lia. simpl. split; [exact Ew|].
        intros [|j] Hj; [lia|]. simpl. apply Hl. lia.
      * intros (Hv & Ev & Hlv). f_equal.
        destruct (Nat.lt_trichotomy w v) as [Hlt|[Heq|Hgt]]; [|exact Heq|].
        -- exfalso. apply (Hl (v - S i)%nat); [lia|].
           replace (v - i)%nat with (S (v - S i)) in Ev by lia. exact Ev.
        -- exfalso. apply (Hlv (w - i)%nat); [lia|].
           replace (w - i)%nat with (S (w - S i)) by lia. exact Ew.
    + assert (Hn : forall j, nth_error hs j <> Some h).
      { intros j Ej. assert (Hj : (j < List.length hs)%nat).
        { apply nth_error_Some. rewrite Ej. discriminate. }
        assert (F : last_assoc (combine hs (seq (S i) (List.length hs))) h <> None).
        { clear IH E. revert i j Ej Hj. induction hs as [|y hs IH2]; intros i j Ej Hj;
            simpl in *; [lia|].
          destruct (last_assoc (combine hs (seq (S (S i)) (List.length hs))) h) eqn:E2;
            [discriminate|].
          destruct j as [|j]; simpl in Ej.
          - injection Ej as ->. rewrite String.eqb_refl. discriminate.
          - exfalso. apply (IH2 (S i) j Ej); [lia|exact E2]. }
        apply F, E. }
      destruct (String.eqb_spec h x) as [->|Hne]; split.
      * intros F. injection F as <-. rewrite Nat.sub_diag. simpl. split; [lia|].
        split; [reflexivity|]. intros [|j] Hj; [lia|]. apply Hn.
      * intros (Hv & Ev & Hl). f_equal. destruct (v - i)%nat as [|k] eqn:Ek; [lia|].
        exfalso. apply (Hn k Ev).
      * discriminate.
      * intros (Hv & Ev & Hl). destruct (v - i)%nat as [|k] eqn:Ek.
        -- simpl in Ev. injection Ev as Ex. congruence.
        -- exfalso. apply (Hn k Ev).
Qed.

Lemma last_assoc_none (hs : list string) (k : nat) (h : string) :
  last_assoc (combine hs (seq k (List.length hs))) h = None -> ~ In h hs.
Proof.
  intros E Hin. apply In_nth_error in Hin. destruct Hin as [i Ei]. revert i k Ei E.
  induction hs as [|x hs IH]; intros i k Ei E; [destruct i; discriminate|].
  simpl in E. destruct (last_assoc (combine hs (seq (S k) (List.length hs))) h) eqn:E2;
    [discriminate|].
  destruct i as [|i]; simpl in Ei.
  - injection Ei as ->. rewrite String.eqb_refl in E. discriminate.
  - exact (IH i (S k) Ei E2).
Qed.

(** X6: in the header map, a column name maps to the position of its last
    occurrence in the header row (a repeated header name keeps only its
    rightmost column); names not in the header row are absent. *)
Theorem header_map_last_wins (hs : list string) (h : string) (i : nat) :
  (hm_get (build_header_map hs) h = Some i <->
     nth_error hs i = Some h /\ (forall j, (i < j)%nat -> nth_error hs j <> Some h))
  /\ (hm_get (build_header_map hs) h = None <-> ~ In h hs).
Proof.
  unfold build_header_map. rewrite build_header_map_from_get. simpl hm_get.
  split.
  - destruct (last_assoc (combine hs (seq 0 (List.length hs))) h) as [v|] eqn:E.
    + pose proof (proj1 (last_assoc_index hs 0 h v) E) as (_ & Ev & Hl).
      rewrite Nat.sub_0_r in Ev, Hl. split.
      * intros F. injection F as <-. auto.
      * intros (Ei & Hi). f_equal.
        destruct (Nat.lt_trichotomy v i) as [Hlt|[Heq|Hgt]]; [|exact Heq|].
        -- exfalso. exact (Hl i Hlt Ei).
        -- exfalso. exact (Hi v Hgt Ev).
    + split; [discriminate|]. intros (Ei & _). exfalso.
      apply (last_assoc_none hs 0 h E). apply nth_error_In in Ei. exact Ei.
  - destruct (last_assoc (combine hs (seq 0 (List.length hs))) h) as [v|] eqn:E; split.
    + discriminate.
    + intros Hn. exfalso. apply Hn. apply (proj1 (last_assoc_index hs 0 h v)) in E.
      destruct E as (_ & Ev & _). apply nth_error_In in Ev. exact Ev.
    + intros _. exact (last_assoc_none hs 0 h E).
    + reflexivity.
Qed.

Lemma row_get_insert (m : row_map) (k v h : string) :
  row_get (row_insert m k v) h = if String.eqb h k then Some v else row_get m h.
Proof.
  induction m as [|[k' v'] m IH]; simpl; [reflexivity|].
  destruct (String.eqb_spec k k') as [->|Hne]; simpl.
  - destruct (String.eqb h k'); reflexivity.
  - destruct (String.eqb_spec h k') as [->|Hne2].
    + destruct (String.eqb_spec k' k) as [E|_]; [congruence|reflexivity].
    + exact IH.
Qed.

Lemma row_get_fold (row : record) (l : list (nat * string)) (m : row_map) (h : string) :
  row_get (fold_left (fun m p => row_insert m (snd p) (cell row (fst p))) l m) h
  = match last_assoc (map (fun p => (snd p, cell row (fst p))) l) h with
    | Some v => Some v
    | None => row_get m h
    end.
Proof.
  revert m. induction l as [|[i k] l IH]; intros m; simpl; [reflexivity|].
  rewrite IH, row_get_insert.
  destruct (last_assoc (map (fun p => (snd p, cell row (fst p))) l) h); [reflexivity|].
  destruct (String.eqb h k); reflexivity.
Qed.

Lemma map_swap_combine {A} (f : nat -> A) (l1 : list nat) (l2 : list string) :
  map (fun p => (snd p, f (fst p))) (combine l1 l2)
  = map (fun p => (fst p, f (snd p))) (combine l2 l1).
Proof.
  revert l2. induction l1 as [|x l1 IH]; intros [|y l2]; simpl; try reflexivity.
  rewrite IH. reflexivity.
Qed.

Lemma last_assoc_map {A B} (f : A -> B) (l : list (string * A)) (h : string) :
  last_assoc (map (fun p => (fst p, f (snd p))) l) h = option_map f (last_assoc l h).
Proof.
  induction l as [|[k v] l IH]; simpl; [reflexivity|]. rewrite IH.
  destruct (last_assoc l h); simpl; [reflexivity|]. destruct (String.eqb h k); reflexivity.
Qed.

(** X7: the row map [record_to_hashmap] gives each header name the cell
    under the header map's position for it (the name's last column), and
    nothing for a name outside the header row; a short row's missing
    cells read as [""]. *)
Theorem record_to_hashmap_get (row : record) (hs : list string) (h : string) :
  row_get (record_to_hashmap row hs) h
  = option_map (cell row) (hm_get (build_header_map hs) h).
Proof.
  unfold record_to_hashmap, build_header_map.
  rewrite row_get_fold, build_header_map_from_get, map_swap_combine.
  rewrite (last_assoc_map (cell row)). simpl.
  destruct (last_assoc (combine hs (seq 0 (List.length hs))) h); reflexivity.
Qed.

(** ** Extra properties: key-column validation *)

(** X8: the key-column validation fails exactly at the first key column
    missing from a header map, the source map checked before the target
    map, and names that column and dataset in its message. *)
Theorem validate_key_columns_err (kc : list string) (shm thm : header_map) (e : string) :
  validate_key_columns kc shm thm = Err e <->
  exists pre k post,
    kc = app pre (k :: post)
    /\ Forall (fun c => hm_contains shm c = true /\ hm_contains thm c = true) pre
    /\ ((hm_contains shm k = false /\ e = missing_key_message k "source")
        \/ (hm_contains shm k = true /\ hm_contains thm k = false
            /\ e = missing_key_message k "target")).
Proof.
  induction kc as [|c kc IH]; simpl.
  - split; [discriminate|]. intros (pre & k & post & E & _). destruct pre; discriminate.
  - destruct (hm_contains shm c) eqn:Es; simpl; [destruct (hm_contains thm c) eqn:Et; simpl|].
    + rewrite IH. split.
      * intros (pre & k & post & -> & Hf & Hk). exists (c :: pre), k, post.
        split; [reflexivity|]. split; [constructor; auto|exact Hk].
      * intros (pre & k & post & E & Hf & Hk). destruct pre as [|c' pre].
        -- simpl in E. injection E as <- _. rewrite Es, Et in Hk.
           destruct Hk as [[D _]|(_ & D & _)]; discriminate.
        -- simpl in E. injection E as <- ->. inversion Hf; subst.
           exists pre, k, post. auto.
    + split.
      * intros F. injection F as <-. exists [], c, kc. simpl. split; [reflexivity|].
        split; [constructor|]. right. auto.
      * intros (pre & k & post & E & Hf & Hk). destruct pre as [|c' pre].
        -- simpl in E. injection E as <- _. destruct Hk as [[D _]|(_ & _ & ->)];
             [congruence|reflexivity].
        -- simpl in E. injection E as <- _. inversion Hf as [|? ? [_ D] _]; subst. congruence.
    + split.
      * intros F. injection F as <-. exists [], c, kc. simpl. split; [reflexivity|].
        split; [constructor|]. left. auto.
      * intros (pre & k & post & E & Hf & Hk). destruct pre as [|c' pre].
        -- simpl in E. injection E as <- _. destruct Hk as [[_ ->]|(D & _)];
             [reflexivity|congruence].
        -- simpl in E. injection E as <- _. inversion Hf as [|? ? [D _] _]; subst. congruence.
Qed.

(** ** Extra properties: the column comparison *)

(** X9: the differences of two rows are, in source-header order, exactly
    the non-excluded columns present in both header maps whose normalized
    values differ; each carries the raw old and new cells and the word
    diff of the raw cells. *)
Theorem compute_differences_spec (dti : string -> string -> bool -> list DiffChange)
    (sh : list string) (shm thm : header_map) (ex : list string) (cs iw ien : bool)
    (srow trow : record) :
  let norm := fun v => normalize_value_with_empty_vs_null v cs iw ien in
  let ds := compute_differences dti sh shm thm ex cs iw ien srow trow in
  map column ds
  = filter (fun h => negb (str_mem ex h) && hm_contains shm h && hm_contains thm h
                     && negb (String.eqb (norm (lookup_cell shm srow h))
                                         (norm (lookup_cell thm trow h)))) sh
  /\ Forall (fun d => old_value d = lookup_cell shm srow (column d)
                      /\ new_value d = lookup_cell thm trow (column d)
                      /\ diff d = dti (old_value d) (new_value d) cs) ds.
Proof.
  intros norm ds. subst ds.
  induction sh as [|h sh [IH1 IH2]]; cbn [compute_differences filter map];
    [split; [reflexivity|constructor]|].
  unfold hm_contains at 1 2.
  destruct (str_mem ex h); cbn [negb andb]; [split; assumption|].
  destruct (hm_get shm h) as [si|] eqn:Es; destruct (hm_get thm h) as [ti|] eqn:Et;
    cbn [andb]; try (split; assumption).
  unfold norm, lookup_cell at 1 2. rewrite Es, Et.
  destruct (String.eqb (normalize_value_with_empty_vs_null (cell srow si) cs iw ien)
                       (normalize_value_with_empty_vs_null (cell trow ti) cs iw ien)); cbn [negb].
  - split; assumption.
  - split; [cbn [map column]; f_equal; exact IH1|]. constructor; [|exact IH2]. cbn.
    unfold lookup_cell. rewrite Es, Et. auto.
Qed.

(** ** Extra properties: what each primary-key bucket entry means *)

Lemma split_classified_in (l : list Classified) :
  let '(a, m, u) := split_classified l in
  (forall x, In x a -> In (CAdded x) l) /\ (forall x, In x m -> In (CModified x) l)
  /\ (forall x, In x u -> In (CUnchanged x) l).
Proof.
  induction l as [|c l IH]; simpl; [repeat split; intros _ []|].
  destruct (split_classified l) as [[a m] u]. destruct IH as (Ha & Hm & Hu).
  destruct c as [y|y|y]; simpl; repeat split; intros x Hx;
    try (destruct Hx as [<-|Hx]; [now left|]); right; auto.
Qed.

Lemma nth_row_keys (rows : list record) (hm : header_map) (kc : list string) (i : nat) :
  (i < List.length rows)%nat ->
  nth i (row_keys rows hm kc) "" = get_row_key (nth i rows []) hm kc.
Proof.
  intros Hi. unfold row_keys.
  rewrite (nth_indep _ "" (get_row_key [] hm kc)) by (rewrite length_map; exact Hi).
  exact (map_nth (fun r => get_row_key r hm kc) rows [] i).
Qed.

Lemma classify_target_row_cases (dti : string -> string -> bool -> list DiffChange) (sm : key_map)
    (srows : list record) (sh th : list string) (shm thm : header_map) (ex : list string)
    (cs iw ien : bool) (key : string) (tix : nat) (row : record) :
  let cd := fun six => compute_differences dti sh shm thm ex cs iw ien (nth six srows []) row in
  match classify_target_row dti sm srows sh th shm thm ex cs iw ien key tix row with
  | CAdded a =>
      hm_get sm key = None
      /\ a = {| ar_key := key; ar_target_row := record_to_hashmap row th; ar_tix := tix |}
  | CModified m =>
      hm_get sm key = Some (mr_six m) /\ mr_key m = key /\ mr_tix m = tix
      /\ mr_differences m = cd (mr_six m) /\ mr_differences m <> []
      /\ mr_source_row m = record_to_hashmap (nth (mr_six m) srows []) sh
      /\ mr_target_row m = record_to_hashmap row th
  | CUnchanged u =>
      hm_get sm key = Some (ur_six u) /\ ur_key u = key /\ ur_tix u = tix
      /\ cd (ur_six u) = [] /\ ur_row u = record_to_hashmap (nth (ur_six u) srows []) sh
  end.
Proof.
  intros cd. unfold classify_target_row.
  destruct (hm_get sm key) as [six|] eqn:E; [|auto].
  unfold cd. destruct (compute_differences dti sh shm thm ex cs iw ien (nth six srows []) row)
    as [|d ds] eqn:D; simpl; repeat split; auto; discriminate.
Qed.

(** X10: in a primary-key diff, an Added entry is a target row whose key
    no source row has; a Removed entry is a source row whose key no target
    row has; a Modified entry pairs the source and target rows of one key,
    with their non-empty differences and the data of both rows; an Unchanged entry pairs the rows of
    one key that have no differences, and carries the source row.  Each
    entry's key is its rows' key. *)
Theorem pk_bucket_entries (dti : string -> string -> bool -> list DiffChange)
    (source_csv target_csv : string) (kc : list string) (cs iw ien : bool)
    (ex : list string) (has_headers : bool)
    (sh : list string) (srows : list record) (shm : header_map)
    (th : list string) (trows : list record) (thm : header_map) (r : DiffResult) :
  parse_csv_internal source_csv has_headers = Ok (sh, srows, shm) ->
  parse_csv_internal target_csv has_headers = Ok (th, trows, thm) ->
  diff_csv_primary_key_internal dti source_csv target_csv kc cs iw ien ex has_headers = Ok r ->
  let sk := fun i => get_row_key (nth i srows []) shm kc in
  let tk := fun j => get_row_key (nth j trows []) thm kc in
  let cd := fun i j => compute_differences dti sh shm thm ex cs iw ien
                         (nth i srows []) (nth j trows []) in
  (forall a, In a (added r) ->
     (ar_tix a < List.length trows)%nat /\ ar_key a = tk (ar_tix a)
     /\ ~ In (ar_key a) (row_keys srows shm kc)
     /\ ar_target_row a = record_to_hashmap (nth (ar_tix a) trows []) th)
  /\ (forall x, In x (removed r) ->
     (rr_six x < List.length srows)%nat /\ rr_key x = sk (rr_six x)
     /\ ~ In (rr_key x) (row_keys trows thm kc)
     /\ rr_source_row x = record_to_hashmap (nth (rr_six x) srows []) sh)
  /\ (forall m, In m (modified r) ->
     (mr_six m < List.length srows)%nat /\ (mr_tix m < List.length trows)%nat
     /\ mr_key m = sk (mr_six m) /\ mr_key m = tk (mr_tix m)
     /\ mr_differences m = cd (mr_six m) (mr_tix m) /\ mr_differences m <> []
     /\ mr_source_row m = record_to_hashmap (nth (mr_six m) srows []) sh
     /\ mr_target_row m = record_to_hashmap (nth (mr_tix m) trows []) th)
  /\ (forall u, In u (unchanged r) ->
     (ur_six u < List.length srows)%nat /\ (ur_tix u < List.length trows)%nat
     /\ ur_key u = sk (ur_six u) /\ ur_key u = tk (ur_tix u)
     /\ cd (ur_six u) (ur_tix u) = []
     /\ ur_row u = record_to_hashmap (nth (ur_six u) srows []) sh).
Proof.
  intros Es Et Hd sk tk cd.
  unfold diff_csv_primary_key_internal in Hd. rewrite Es, Et in Hd. cbn [bind] in Hd.
  destruct (validate_key_columns kc shm thm) as [[]|e]; cbn [bind] in Hd; [|discriminate].
  destruct (build_key_map "source" srows shm kc) as [sm|e] eqn:Hs; cbn [bind] in Hd;
    [|discriminate].
  destruct (build_key_map "target" trows thm kc) as [tm|e] eqn:Ht; cbn [bind] in Hd;
    [|discriminate].
  set (l := map (fun p => classify_target_row dti sm srows sh th shm thm ex cs iw ien
                            (fst p) (snd p) (nth (snd p) trows [])) tm) in Hd.
  pose proof (split_classified_in l) as Hin.
  destruct (split_classified l) as [[a m] u]. injection Hd as <-. cbn [added removed modified unchanged].
  destruct Hin as (Ha & Hm & Hu).
  destruct (key_map_lookup _ _ _ _ _ Hs) as (Hsnd & Hsfst & Hsin).
  destruct (key_map_lookup _ _ _ _ _ Ht) as (Htnd & Htfst & Htin).
  assert (Hl : forall c, In c l -> exists p, In p tm /\
             c = classify_target_row dti sm srows sh th shm thm ex cs iw ien
                   (fst p) (snd p) (nth (snd p) trows [])).
  { intros c Hc. apply in_map_iff in Hc. destruct Hc as [p [<- Hp]]. eauto. }
  assert (Htk : forall p, In p tm -> (snd p < List.length trows)%nat /\ fst p = tk (snd p)).
  { intros [k j] Hp. apply Htin in Hp. destruct Hp as [Hj Hk]. simpl. split; [exact Hj|].
    rewrite <- Hk. unfold tk. apply nth_row_keys, Hj. }
  assert (Hsk : forall k six, hm_get sm k = Some six ->
                  (six < List.length srows)%nat /\ k = sk six).
  { intros k six E. apply hm_get_In, Hsin in E. destruct E as [Hj Hk]. split; [exact Hj|].
    rewrite <- Hk. unfold sk. apply nth_row_keys, Hj. }
  split; [|split; [|split]].
  - intros x Hx. apply Ha, Hl in Hx. destruct Hx as [p [Hp Hc]].
    pose proof (classify_target_row_cases dti sm srows sh th shm thm ex cs iw ien
                  (fst p) (snd p) (nth (snd p) trows [])) as C. cbv zeta in C.
    rewrite <- Hc in C. destruct C as [Hg ->]. cbn.
    destruct (Htk p Hp) as [Hj Hk]. split; [exact Hj|]. split; [exact Hk|]. split; [|reflexivity].
    intros Hin'. apply hm_get_None in Hg. apply Hg. rewrite Hsfst. apply -> in_rev. exact Hin'.
  - intros x Hx. unfold find_removed in Hx. apply in_map_iff in Hx.
    destruct Hx as [[k six] [<- Hp]]. apply filter_In in Hp. destruct Hp as [Hp Hc]. cbn.
    cbn in Hc. apply Hsin in Hp. destruct Hp as [Hj Hk].
    split; [exact Hj|]. split; [rewrite <- Hk; unfold sk; apply nth_row_keys, Hj|].
    split; [|reflexivity].
    intros Hin'. apply negb_true_iff in Hc. rewrite <- Hk in Hc.
    assert (Hc' : hm_contains tm (nth six (row_keys srows shm kc) "") = true).
    { apply hm_contains_In. rewrite Htfst. apply -> in_rev. rewrite Hk. exact Hin'. }
    congruence.
  - intros x Hx. apply Hm, Hl in Hx. destruct Hx as [p [Hp Hc]].
    pose proof (classify_target_row_cases dti sm srows sh th shm thm ex cs iw ien
                  (fst p) (snd p) (nth (snd p) trows [])) as C. cbv zeta in C.
    rewrite <- Hc in C. destruct C as (Hg & Hkey & Htix & Hdiff & Hne & Hsr & Htr).
    destruct (Htk p Hp) as [Hj Hk]. destruct (Hsk _ _ Hg) as [Hi Hk'].
    rewrite Htix. split; [exact Hi|]. split; [exact Hj|].
    split; [congruence|]. split; [congruence|]. split; [rewrite Hdiff; reflexivity|].
    split; [exact Hne|]. split; [exact Hsr|exact Htr].
  - intros x Hx. apply Hu, Hl in Hx. destruct Hx as [p [Hp Hc]].
    pose proof (classify_target_row_cases dti sm srows sh th shm thm ex cs iw ien
                  (fst p) (snd p) (nth (snd p) trows [])) as C. cbv zeta in C.
    rewrite <- Hc in C. destruct C as (Hg & Hkey & Htix & Hdiff & Hrow).
    destruct (Htk p Hp) as [Hj Hk]. destruct (Hsk _ _ Hg) as [Hi Hk'].
    rewrite Htix. split; [exact Hi|]. split; [exact Hj|].
    split; [congruence|]. split; [congruence|]. split; [exact Hdiff|exact Hrow].
Qed.

(** ** Extra properties: the parallel primary-key diff *)

Lemma key_map_insert_get (m : key_map) (k : string) (v : nat) (h : string) :
  hm_get (key_map_insert m k v) h = if String.eqb h k then Some v else hm_get m h.
Proof.
  induction m as [|[k' v'] m IH]; simpl; [reflexivity|].
  destruct (String.eqb_spec k k') as [->|Hne]; simpl.
  - destruct (String.eqb h k'); reflexivity.
  - destruct (String.eqb_spec h k') as [->|Hne2].
    + destruct (String.eqb_spec k' k) as [E|_]; [congruence|reflexivity].
    + exact IH.
Qed.

Lemma key_map_insert_fst_in (m : key_map) (k : string) (v : nat) (x : string) :
  In x (map fst (key_map_insert m k v)) -> x = k \/ In x (map fst m).
Proof.
  induction m as [|[k' v'] m IH]; simpl; [intros [<-|[]]; auto|].
  destruct (String.eqb k k'); simpl; intros [<-|H]; auto.
  destruct (IH H); auto.
Qed.

Lemma key_map_insert_nodup (m : key_map) (k : string) (v : nat) :
  NoDup (map fst m) -> NoDup (map fst (key_map_insert m k v)).
Proof.
  induction m as [|[k' v'] m IH]; simpl; intros Hnd; [repeat constructor; auto|].
  inversion Hnd as [|? ? Hn Hnd']; subst.
  destruct (String.eqb_spec k k') as [->|Hne]; simpl; [exact Hnd|].
  constructor; [|auto]. intros Hin. apply key_map_insert_fst_in in Hin.
  destruct Hin as [->|Hin]; [congruence|contradiction].
Qed.

Lemma fold_key_map_insert (l : list (string * nat)) (m : key_map) (h : string) :
  let m' := fold_left (fun m p => key_map_insert m (fst p) (snd p)) l m in
  (NoDup (map fst m) -> NoDup (map fst m'))
  /\ hm_get m' h = match last_assoc l h with Some v => Some v | None => hm_get m h end.
Proof.
  revert m. induction l as [|[k v] l IH]; intros m; simpl; [auto|].
  destruct (IH (key_map_insert m k v)) as [IH1 IH2]. split.
  - intros Hnd. apply IH1, key_map_insert_nodup, Hnd.
  - rewrite IH2, key_map_insert_get. destruct (last_assoc l h); [reflexivity|].
    destruct (String.eqb h k); reflexivity.
Qed.

Lemma collect_key_map_spec (rows : list record) (hm : header_map) (kc : list string) :
  let sm := collect_key_map rows hm kc in
  let keys := row_keys rows hm kc in
  NoDup (map fst sm)
  /\ (forall k v, In (k, v) sm <->
        nth_error keys v = Some k /\ (forall j, (v < j)%nat -> nth_error keys j <> Some k)).
Proof.
  intros sm keys.
  assert (Hlen : List.length rows = List.length keys)
    by (unfold keys, row_keys; rewrite length_map; reflexivity).
  assert (Hnd : NoDup (map fst sm)).
  { apply (proj1 (fold_key_map_insert _ [] "")). constructor. }
  split; [exact Hnd|]. intros k v.
  pose proof (proj2 (fold_key_map_insert (combine keys (seq 0 (List.length rows))) [] k)) as G.
  fold keys in sm. change (fold_left _ _ []) with sm in G. simpl hm_get in G.
  rewrite Hlen in G.
  split.
  - intros Hin. apply (hm_get_NoDup _ _ _ Hnd) in Hin. rewrite Hin in G.
    destruct (last_assoc (combine keys (seq 0 (List.length keys))) k) as [w|] eqn:E;
      [|discriminate].
    injection G as <-. apply last_assoc_index in E. rewrite Nat.sub_0_r in E.
    destruct E as (_ & E1 & E2). split; [exact E1|]. intros j Hj. apply E2. lia.
  - intros [E1 E2]. apply hm_get_In. rewrite G.
    replace (last_assoc (combine keys (seq 0 (List.length keys))) k) with (Some v); [reflexivity|].
    symmetry. apply last_assoc_index. rewrite Nat.sub_0_r. split; [lia|]. split; [exact E1|].
    intros j Hj. apply E2. lia.
Qed.

Lemma first_repeat_none (seen keys : list string) :
  NoDup keys -> (forall k, In k keys -> ~ In k seen) -> first_repeat seen keys = None.
Proof.
  revert seen. induction keys as [|k keys IH]; intros seen Hnd Hs; simpl; [reflexivity|].
  inversion Hnd as [|? ? Hn Hnd']; subst.
  unfold str_mem. destruct (existsb (String.eqb k) seen) eqn:E.
  - apply existsb_exists in E. destruct E as [x [Hx Ex]]. apply String.eqb_eq in Ex. subst x.
    exfalso. exact (Hs k (or_introl eq_refl) Hx).
  - apply IH; [exact Hnd'|]. intros k' Hk' [->|Hin]; [contradiction|].
    exact (Hs k' (or_intror Hk') Hin).
Qed.

Lemma NoDup_snd_of_fst (l : key_map) :
  NoDup (map fst l) -> (forall k1 k2 v, In (k1, v) l -> In (k2, v) l -> k1 = k2) ->
  NoDup (map snd l).
Proof.
  induction l as [|[k v] l IH]; simpl; intros Hnd Hinj; [constructor|].
  inversion Hnd as [|? ? Hn Hnd']; subst. constructor.
  - intros Hin. apply in_map_iff in Hin. destruct Hin as [[k' v'] [Hv Hin]]. simpl in Hv. subst v'.
    assert (k' = k) as -> by (apply (Hinj k' k v); auto).
    apply Hn. apply (in_map fst) in Hin. exact Hin.
  - apply IH; [exact Hnd'|]. intros k1 k2 w H1 H2. apply (Hinj k1 k2 w); auto.
Qed.

Lemma last_occurrences_In (keys : list string) (x : nat) :
  In x (last_occurrences keys) <->
  exists k, nth_error keys x = Some k /\ (forall j, (x < j)%nat -> nth_error keys j <> Some k).
Proof.
  unfold last_occurrences. rewrite filter_In, in_seq, forallb_forall. split.
  - intros [[_ Hx] Hl]. exists (nth x keys ""). split; [apply nth_error_nth'; lia|].
    intros j Hj Ej. assert (Hjl : (j < List.length keys)%nat).
    { apply nth_error_Some. rewrite Ej. discriminate. }
    specialize (Hl j). rewrite in_seq in Hl.
    assert (E : nth j keys "" = nth x keys "") by (apply nth_error_nth with (d := "") in Ej; exact Ej).
    rewrite E, String.eqb_refl in Hl. simpl in Hl. discriminate (Hl ltac:(lia)).
  - intros [k [Ek Hl]]. assert (Hx : (x < List.length keys)%nat).
    { apply nth_error_Some. rewrite Ek. discriminate. }
    split; [lia|]. intros j Hj. rewrite in_seq in Hj. apply negb_true_iff.
    destruct (String.eqb_spec (nth j keys "") (nth x keys "")) as [E|_]; [|reflexivity].
    exfalso. apply (Hl j); [lia|]. rewrite (nth_error_nth' keys "" (n := j)) by lia.
    rewrite E. rewrite (nth_error_nth keys x "" Ek). reflexivity.
Qed.

Lemma collect_key_map_snd (rows : list record) (hm : header_map) (kc : list string) :
  Permutation (map snd (collect_key_map rows hm kc)) (last_occurrences (row_keys rows hm kc)).
Proof.
  destruct (collect_key_map_spec rows hm kc) as [Hnd Hin].
  apply NoDup_Permutation.
  - apply NoDup_snd_of_fst; [exact Hnd|]. intros k1 k2 v H1 H2.
    apply Hin in H1, H2. destruct H1 as [E1 _], H2 as [E2 _]. congruence.
  - unfold last_occurrences. apply NoDup_filter, seq_NoDup.
  - intros x. rewrite last_occurrences_In, in_map_iff. split.
    + intros [[k v] [Hv Hkv]]. simpl in Hv. subst v. exists k. apply Hin, Hkv.
    + intros [k Hk]. exists (k, x). split; [reflexivity|]. apply Hin, Hk.
Qed.

Lemma key_partition (sm tm : key_map) :
  NoDup (map fst sm) -> NoDup (map snd sm) -> NoDup (map fst tm) ->
  Permutation
    (app (map snd (filter (fun p => negb (hm_contains tm (fst p))) sm))
         (flat_map (fun p => match hm_get sm (fst p) with Some six => [six] | None => [] end) tm))
    (map snd sm).
Proof.
  intros Hsf Hss Htf.
  assert (Hsnd : forall k1 k2 v, In (k1, v) sm -> In (k2, v) sm -> k1 = k2).
  { intros k1 k2 v H1 H2.
    assert (E : (v, k1) = (v, k2)).
    { apply (NoDup_fst_inj (map (fun p => (snd p, fst p)) sm)).
      - rewrite map_map. exact Hss.
      - apply (in_map (fun p => (snd p, fst p))) in H1. exact H1.
      - apply (in_map (fun p => (snd p, fst p))) in H2. exact H2.
      - reflexivity. }
    congruence. }
  apply NoDup_Permutation; [apply NoDup_app; repeat split| exact Hss |].
  - apply NoDup_map_filter, Hss.
  - apply (NoDup_flat_map_single (fun p => hm_get sm (fst p))).
    + apply (NoDup_map_inv fst), Htf.
    + intros a b x Ha Hb Ea Eb. apply hm_get_In in Ea, Eb.
      assert (fst a = fst b) as Efst by (apply (Hsnd _ _ x); assumption).
      apply (NoDup_fst_inj tm); assumption.
  - intros x Hx1 Hx2. apply in_map_iff in Hx1. destruct Hx1 as [[k v] [Hv Hk]]. simpl in Hv.
    subst v. apply filter_In in Hk. destruct Hk as [Hk Hc]. simpl in Hc.
    apply in_flat_map in Hx2. destruct Hx2 as [[k' j] [Hj Hx]]. simpl in Hx.
    destruct (hm_get sm k') as [six|] eqn:Eg; [|contradiction]. destruct Hx as [<-|[]].
    apply hm_get_In in Eg. assert (k' = k) as -> by (apply (Hsnd _ _ six); assumption).
    apply negb_true_iff in Hc.
    assert (hm_contains tm k = true)
      by (apply hm_contains_In; apply (in_map fst) in Hj; exact Hj).
    congruence.
  - intros x. rewrite in_app_iff. split.
    + intros [Hx|Hx].
      * apply in_map_iff in Hx. destruct Hx as [p [<- Hp]]. apply filter_In in Hp.
        apply in_map, Hp.
      * apply in_flat_map in Hx. destruct Hx as [[k' j] [Hj Hx]]. simpl in Hx.
        destruct (hm_get sm k') as [six|] eqn:Eg; [|contradiction]. destruct Hx as [<-|[]].
        apply hm_get_In in Eg. apply (in_map snd) in Eg. exact Eg.
    + intros Hx. apply in_map_iff in Hx. destruct Hx as [[k v] [Hv Hk]]. simpl in Hv. subst v.
      destruct (hm_contains tm k) eqn:Ec.
      * right. apply hm_contains_In, in_map_iff in Ec. destruct Ec as [[k' j] [Hk' Hj]].
        simpl in Hk'. subst k'. apply in_flat_map. exists (k, j). split; [exact Hj|]. simpl.
        rewrite (hm_get_NoDup sm k x Hsf Hk). left. reflexivity.
      * left. apply in_map_iff. exists (k, x). split; [reflexivity|]. apply filter_In.
        split; [exact Hk|]. simpl. rewrite Ec. reflexivity.
Qed.

Lemma parallel_compare_row_ids (sm : key_map) (trows srows : list record) (th sh : list string)
    (thm shm : header_map) (ex : list string) (cs iw ien : bool) (key : string) (tix : nat) :
  let c := parallel_compare_row sm trows srows th sh thm shm ex cs iw ien key tix in
  c_tix c = tix /\ c_six c = match hm_get sm key with Some six => [six] | None => [] end.
Proof.
  unfold parallel_compare_row. destruct (hm_get sm key); [|split; reflexivity].
  destruct (compute_differences _ _ _ _ _ _ _ _ _ _); split; reflexivity.
Qed.

(** X11: the parallel primary-key diff never reports a duplicate key: its
    key maps are collected with last-write-wins, so the duplicate check
    over the map's keys cannot fire.  Once both inputs parse and the key
    columns are found it succeeds, and each bucket set then holds, per
    distinct key, only the last row with that key: the source rows of
    Removed, Modified and Unchanged are the last source row of each
    source key, the target rows of Added, Modified and Unchanged the last
    target row of each target key. *)
Theorem parallel_pk_last_row_wins (source_csv target_csv : string) (kc : list string)
    (cs iw ien : bool) (ex : list string) (has_headers : bool)
    (sh : list string) (srows : list record) (shm : header_map)
    (th : list string) (trows : list record) (thm : header_map) :
  parse_csv_internal source_csv has_headers = Ok (sh, srows, shm) ->
  parse_csv_internal target_csv has_headers = Ok (th, trows, thm) ->
  validate_key_columns kc shm thm = Ok tt ->
  exists r, diff_csv_parallel_internal source_csv target_csv kc cs iw ien ex has_headers = Ok r
    /\ Permutation (source_ids r) (last_occurrences (row_keys srows shm kc))
    /\ Permutation (target_ids r) (last_occurrences (row_keys trows thm kc)).
Proof.
  intros Es Et Ev. unfold diff_csv_parallel_internal. rewrite Es, Et. cbn [bind]. rewrite Ev.
  cbn [bind].
  destruct (collect_key_map_spec srows shm kc) as [Hsf Hsin].
  destruct (collect_key_map_spec trows thm kc) as [Htf Htin].
  rewrite !first_repeat_none by (assumption || (intros ? ? [])).
  set (sm := collect_key_map srows shm kc) in *. set (tm := collect_key_map trows thm kc) in *.
  unfold parallel_compare_rows.
  set (l := map (fun p => parallel_compare_row sm trows srows th sh thm shm ex cs iw ien
                            (fst p) (snd p)) tm).
  pose proof (split_classified_ids l) as Hids.
  destruct (split_classified l) as [[a m] u]. destruct Hids as [Ht Hs].
  eexists. split; [reflexivity|]. unfold source_ids, target_ids. cbn [added removed modified unchanged].
  assert (Hssnd : NoDup (map snd sm)).
  { apply NoDup_snd_of_fst; [exact Hsf|]. intros k1 k2 v H1 H2.
    apply Hsin in H1, H2. destruct H1 as [E1 _], H2 as [E2 _]. congruence. }
  split.
  - eapply perm_trans; [|apply collect_key_map_snd]. fold sm.
    eapply perm_trans; [apply Permutation_app_head, Hs|].
    assert (E : flat_map c_six l
                = flat_map (fun p => match hm_get sm (fst p) with Some six => [six] | None => [] end) tm).
    { unfold l. clear. induction tm as [|p tm IH]; simpl; [reflexivity|].
      rewrite (proj2 (parallel_compare_row_ids _ _ _ _ _ _ _ _ _ _ _ _ _)), IH. reflexivity. }
    rewrite E. unfold parallel_find_removed. rewrite map_map. cbn [rr_six].
    apply key_partition; assumption.
  - eapply perm_trans; [|apply collect_key_map_snd]. fold tm.
    eapply perm_trans; [exact Ht|].
    assert (E : map c_tix l = map snd tm).
    { unfold l. clear. induction tm as [|p tm IH]; simpl; [reflexivity|].
      rewrite (proj1 (parallel_compare_row_ids _ _ _ _ _ _ _ _ _ _ _ _ _)), IH. reflexivity. }
    rewrite E. reflexivity.
Qed.

Lemma parallel_compare_row_cases (sm : key_map) (trows srows : list record) (th sh : list string)
    (thm shm : header_map) (ex : list string) (cs iw ien : bool) (key : string) (tix : nat) :
  let cd := fun six => compute_differences no_spans sh shm thm ex cs iw ien
                         (nth six srows []) (nth tix trows []) in
  match parallel_compare_row sm trows srows th sh thm shm ex cs iw ien key tix with
  | CAdded _ => True
  | CModified m => hm_get sm key = Some (mr_six m) /\ mr_tix m = tix
                   /\ mr_differences m = cd (mr_six m)
  | CUnchanged u => hm_get sm key = Some (ur_six u) /\ ur_tix u = tix /\ cd (ur_six u) = []
                    /\ ur_row u = record_to_hashmap (nth tix trows []) th
  end.
Proof.
  intros cd. unfold parallel_compare_row.
  destruct (hm_get sm key) as [six|] eqn:E; [|exact I].
  unfold cd. destruct (compute_differences no_spans sh shm thm ex cs iw ien (nth six srows [])
                         (nth tix trows [])) eqn:D; simpl; auto.
Qed.

Lemma compute_differences_no_spans (sh : list string) (shm thm : header_map) (ex : list string)
    (cs iw ien : bool) (srow trow : record) :
  Forall (fun d => diff d = []) (compute_differences no_spans sh shm thm ex cs iw ien srow trow).
Proof.
  induction sh as [|h sh IH]; simpl; [constructor|].
  destruct (str_mem ex h); [exact IH|].
  destruct (hm_get shm h), (hm_get thm h); try exact IH.
  destruct (negb _); [constructor; [reflexivity|exact IH]|exact IH].
Qed.

(** X12: where the parallel primary-key diff differs from the sequential
    one entry by entry: an Unchanged entry carries the TARGET row, no
    difference of a Modified entry has word-level spans, and the result's
    mode reads ["primary_key"]; its differences are otherwise computed by
    the same column loop. *)
Theorem parallel_pk_entries (source_csv target_csv : string) (kc : list string)
    (cs iw ien : bool) (ex : list string) (has_headers : bool)
    (sh : list string) (srows : list record) (shm : header_map)
    (th : list string) (trows : list record) (thm : header_map) (r : DiffResult) :
  parse_csv_internal source_csv has_headers = Ok (sh, srows, shm) ->
  parse_csv_internal target_csv has_headers = Ok (th, trows, thm) ->
  diff_csv_parallel_internal source_csv target_csv kc cs iw ien ex has_headers = Ok r ->
  let cd := fun i j => compute_differences no_spans sh shm thm ex cs iw ien
                         (nth i srows []) (nth j trows []) in
  (forall u, In u (unchanged r) ->
     ur_row u = record_to_hashmap (nth (ur_tix u) trows []) th /\ cd (ur_six u) (ur_tix u) = [])
  /\ (forall m, In m (modified r) ->
     mr_differences m = cd (mr_six m) (mr_tix m) /\ Forall (fun d => diff d = []) (mr_differences m))
  /\ dr_mode r = "primary_key"%string.
Proof.
  intros Es Et Hd cd.
  unfold diff_csv_parallel_internal in Hd. rewrite Es, Et in Hd. cbn [bind] in Hd.
  destruct (validate_key_columns kc shm thm) as [[]|e]; cbn [bind] in Hd; [|discriminate].
  destruct (first_repeat [] (map fst (collect_key_map srows shm kc))); [discriminate|].
  destruct (first_repeat [] (map fst (collect_key_map trows thm kc))); [discriminate|].
  unfold parallel_compare_rows in Hd.
  set (sm := collect_key_map srows shm kc) in Hd. set (tm := collect_key_map trows thm kc) in Hd.
  set (l := map (fun p => parallel_compare_row sm trows srows th sh thm shm ex cs iw ien
                            (fst p) (snd p)) tm) in Hd.
  pose proof (split_classified_in l) as Hin.
  destruct (split_classified l) as [[a m] u]. injection Hd as <-. cbn [modified unchanged dr_mode].
  destruct Hin as (_ & Hm & Hu).
  assert (Hl : forall c, In c l -> exists p, In p tm /\
             c = parallel_compare_row sm trows srows th sh thm shm ex cs iw ien (fst p) (snd p)).
  { intros c Hc. apply in_map_iff in Hc. destruct Hc as [p [<- Hp]]. eauto. }
  split; [|split; [|reflexivity]].
  - intros x Hx. apply Hu, Hl in Hx. destruct Hx as [p [_ Hc]].
    pose proof (parallel_compare_row_cases sm trows srows th sh thm shm ex cs iw ien
                  (fst p) (snd p)) as C. cbv zeta in C.
    rewrite <- Hc in C. destruct C as (_ & Htix & Hdiff & Hrow). rewrite Htix. auto.
  - intros x Hx. apply Hm, Hl in Hx. destruct Hx as [p [_ Hc]].
    pose proof (parallel_compare_row_cases sm trows srows th sh thm shm ex cs iw ien
                  (fst p) (snd p)) as C. cbv zeta in C.
    rewrite <- Hc in C. destruct C as (_ & Htix & Hdiff). rewrite Hdiff, Htix.
    split; [reflexivity|]. apply compute_differences_no_spans.
Qed.

(** ** Content-match entries: what each Unchanged and Modified pair satisfies *)

Lemma assoc_get_set_str {V} (m : list (string * V)) (k : string) (v : V) (k' : string) :
  assoc_get String.eqb (assoc_set String.eqb m k v) k'
  = if String.eqb k' k then Some v else assoc_get String.eqb m k'.
Proof.
  induction m as [|[k0 v0] r IH]; simpl; [reflexivity|].
  destruct (String.eqb_spec k k0) as [->|Hne]; simpl.
  - destruct (String.eqb k' k0); reflexivity.
  - rewrite IH. destruct (String.eqb_spec k' k0) as [->|Hne'].
    + destruct (String.eqb_spec k0 k) as [->|_]; [congruence|reflexivity].
    + destruct (String.eqb k' k); reflexivity.
Qed.

Lemma pop_unmatched_sub (stack u : list nat) :
  (forall t, fst (pop_unmatched stack u) = Some t -> In t stack)
  /\ incl (snd (pop_unmatched stack u)) stack.
Proof.
  induction stack as [|y stack [IH1 IH2]]; simpl.
  - split; [discriminate|apply incl_refl].
  - destruct (set_contains u y); simpl.
    + split; [intros t H; injection H as <-; left; reflexivity|].
      intros x Hx. right. exact Hx.
    + split; [intros t H; right; apply IH1, H|].
      intros x Hx. right. apply IH2, Hx.
Qed.

Section FingerprintStacks.

(** The fingerprint of target row [t] as [index_targets] computes it. *)
Variable F : nat -> string.

Lemma fp_push_ok (fps : fp_map) (k : string) (idx : nat) :
  (forall fp st t, assoc_get String.eqb fps fp = Some st -> In t st -> F t = fp) ->
  F idx = k ->
  forall fp st t, assoc_get String.eqb (fp_push fps k idx) fp = Some st -> In t st -> F t = fp.
Proof.
  intros Hok Hk fp st t. unfold fp_push.
  destruct (assoc_get String.eqb fps k) as [v|] eqn:Ev; rewrite assoc_get_set_str;
    destruct (String.eqb_spec fp k) as [->|_]; try (apply Hok).
  - intros H. injection H as <-. intros [<-|Ht]; [exact Hk|]. exact (Hok k v t Ev Ht).
  - intros H. injection H as <-. intros [<-|[]]. exact Hk.
Qed.

Lemma exact_pass_ok (fps : fp_map) (u : list nat) (fp : string) :
  (forall k st t, assoc_get String.eqb fps k = Some st -> In t st -> F t = k) ->
  (forall k st t, assoc_get String.eqb (snd (exact_pass fps u fp)) k = Some st -> In t st -> F t = k)
  /\ (forall t, fst (exact_pass fps u fp) = Some t -> F t = fp).
Proof.
  intros Hok. unfold exact_pass.
  destruct (assoc_get String.eqb fps fp) as [stack|] eqn:Es; [|split; [exact Hok|discriminate]].
  destruct (pop_unmatched_sub stack u) as [H1 H2].
  destruct (pop_unmatched stack u) as [hit rest]. simpl in *. split.
  - intros k st t. rewrite assoc_get_set_str. destruct (String.eqb_spec k fp) as [->|_].
    + intros H Ht. injection H as <-. exact (Hok fp stack t Es (H2 t Ht)).
    + apply Hok.
  - intros t Ht. exact (Hok fp stack t Es (H1 t Ht)).
Qed.

End FingerprintStacks.

Lemma index_targets_ok (trows : list record) (sh : list string) (thm : header_map)
    (ex : list string) (cs iw ien : bool) :
  forall rows idx fps inv,
  (forall j, nth j rows [] = nth (idx + j) trows []) ->
  (forall k st t, assoc_get String.eqb fps k = Some st -> In t st ->
     get_row_fingerprint (nth t trows []) sh thm cs iw ien ex = k) ->
  forall k st t, assoc_get String.eqb (fst (index_targets idx rows sh thm ex cs iw ien fps inv)) k = Some st ->
    In t st -> get_row_fingerprint (nth t trows []) sh thm cs iw ien ex = k.
Proof.
  induction rows as [|row rows IH]; intros idx fps inv Hn Hok; simpl; [exact Hok|].
  apply IH.
  - intros j. pose proof (Hn (S j)) as E. simpl in E. rewrite E. f_equal. lia.
  - apply fp_push_ok; [exact Hok|]. pose proof (Hn 0) as E. simpl in E.
    rewrite Nat.add_0_r in E. cbv beta. rewrite E. reflexivity.
Qed.

Lemma nth_firstn_lt {A} (m k : nat) (l : list A) (x : A) :
  k < m -> nth k (firstn m l) x = nth k l x.
Proof.
  revert k l. induction m as [|m IH]; intros k l Hk; [lia|].
  destruct l as [|y l]; [reflexivity|]. destruct k as [|k]; [reflexivity|].
  simpl. apply IH. lia.
Qed.

Lemma nth_skipn_add {A} (s k : nat) (l : list A) (x : A) :
  nth k (skipn s l) x = nth (s + k) l x.
Proof.
  revert l. induction s as [|s IH]; intros l; [reflexivity|].
  destruct l as [|y l]; simpl; [destruct k; reflexivity|]. apply IH.
Qed.

Lemma nth_firstn_skipn {A} (s m k : nat) (l : list A) (x : A) :
  k < List.length (firstn m (skipn s l)) -> nth k (firstn m (skipn s l)) x = nth (s + k) l x.
Proof.
  intros Hk. rewrite length_firstn in Hk. rewrite nth_firstn_lt by lia. apply nth_skipn_add.
Qed.

Section ContentMatchEntries.

Variable dti : string -> string -> bool -> list DiffChange.
Variables (sh th : list string) (shm thm : header_map) (ex : list string) (cs iw ien : bool).
Variables (inv : inv_map) (srows trows : list record) (cand_score : record -> record -> Q).

Let Ft (t : nat) : string := get_row_fingerprint (nth t trows []) sh thm cs iw ien ex.

Let cm_inv (a : cm_acc) : Prop :=
  (forall k st t, assoc_get String.eqb (acc_fps a) k = Some st -> In t st -> Ft t = k)
  /\ Forall (fun u => get_row_fingerprint (nth (ur_six u) srows []) sh shm cs iw ien ex = Ft (ur_tix u))
       (acc_unchanged a)
  /\ Forall (fun m => (1 # 2 < cand_score (nth (mr_six m) srows []) (nth (mr_tix m) trows []))%Q
                      /\ mr_differences m = compute_differences dti sh shm thm ex cs iw ien
                                              (nth (mr_six m) srows []) (nth (mr_tix m) trows []))
       (acc_modified a).

Lemma content_match_row_inv (i : nat) (a : cm_acc) :
  cm_inv a ->
  cm_inv (content_match_row dti sh th shm thm ex cs iw ien inv trows cand_score i (nth i srows []) a).
Proof.
  intros (Hf & Hu & Hm). unfold content_match_row. cbv zeta.
  destruct (exact_pass_ok Ft (acc_fps a) (acc_unmatched a)
              (get_row_fingerprint (nth i srows []) sh shm cs iw ien ex) Hf) as [Hf' Hhit].
  destruct (exact_pass (acc_fps a) (acc_unmatched a)
              (get_row_fingerprint (nth i srows []) sh shm cs iw ien ex)) as [hit fps'].
  simpl in Hf', Hhit. destruct hit as [t|].
  - split; [exact Hf'|]. split; [|exact Hm]. simpl. apply Forall_app. split; [exact Hu|].
    constructor; [|constructor]. simpl. symmetry. apply Hhit. reflexivity.
  - set (cands := shortlist sh shm ex cs iw inv (acc_unmatched a) (nth i srows [])).
    set (score := fun t => cand_score (nth i srows []) (nth t trows [])).
    destruct (best_candidate_spec score cands None 0) as [[R _]|[c [_ [R [_ _]]]]];
      fold score; rewrite R.
    + repeat split; assumption.
    + destruct (Qlt_bool (1 # 2) (score (fst c))) eqn:Eq.
      * apply Qlt_bool_iff in Eq. split; [exact Hf'|]. split; [exact Hu|]. simpl.
        apply Forall_app. split; [exact Hm|]. constructor; [|constructor]. simpl.
        split; [exact Eq|reflexivity].
      * repeat split; assumption.
Qed.

Lemma content_match_rows_inv :
  forall rows i a,
  (forall k, k < List.length rows -> nth k rows [] = nth (i + k) srows []) ->
  cm_inv a ->
  cm_inv (content_match_rows dti sh th shm thm ex cs iw ien inv trows cand_score i rows a).
Proof.
  induction rows as [|row rows IH]; intros i a Hn Ha; simpl; [exact Ha|].
  apply IH.
  - intros k Hk. pose proof (Hn (S k)) as E. simpl in E. rewrite E; [f_equal; lia|lia].
  - pose proof (Hn 0) as E. simpl in E. rewrite Nat.add_0_r in E. rewrite E; [|lia].
    apply content_match_row_inv, Ha.
Qed.

Lemma content_match_rows_entries (fps : fp_map) (u : list nat) :
  (forall k st t, assoc_get String.eqb fps k = Some st -> In t st -> Ft t = k) ->
  let a := content_match_rows dti sh th shm thm ex cs iw ien inv trows cand_score 0 srows
             {| acc_unmatched := u; acc_fps := fps; acc_removed := []; acc_modified := [];
                acc_unchanged := [] |} in
  (forall x, In x (acc_unchanged a) ->
     get_row_fingerprint (nth (ur_six x) srows []) sh shm cs iw ien ex
     = get_row_fingerprint (nth (ur_tix x) trows []) sh thm cs iw ien ex)
  /\ (forall m, In m (acc_modified a) ->
     (1 # 2 < cand_score (nth (mr_six m) srows []) (nth (mr_tix m) trows []))%Q
     /\ mr_differences m = compute_differences dti sh shm thm ex cs iw ien
                             (nth (mr_six m) srows []) (nth (mr_tix m) trows [])).
Proof.
  intros Hf a.
  assert (Ha : cm_inv a).
  { apply content_match_rows_inv; [intros; reflexivity|].
    split; [exact Hf|]. split; constructor. }
  destruct Ha as (_ & Hu & Hm). rewrite Forall_forall in Hu, Hm. split; [exact Hu|exact Hm].
Qed.

(** The same loop over the slice of source rows [[s, s + m)] that a chunk takes. *)
Lemma content_match_rows_slice (s m : nat) (fps : fp_map) (u : list nat) :
  (forall k st t, assoc_get String.eqb fps k = Some st -> In t st -> Ft t = k) ->
  let a := content_match_rows dti sh th shm thm ex cs iw ien inv trows cand_score s
             (firstn m (skipn s srows))
             {| acc_unmatched := u; acc_fps := fps; acc_removed := []; acc_modified := [];
                acc_unchanged := [] |} in
  (forall k st t, assoc_get String.eqb (acc_fps a) k = Some st -> In t st -> Ft t = k)
  /\ (forall x, In x (acc_unchanged a) ->
     get_row_fingerprint (nth (ur_six x) srows []) sh shm cs iw ien ex
     = get_row_fingerprint (nth (ur_tix x) trows []) sh thm cs iw ien ex)
  /\ (forall m, In m (acc_modified a) ->
     (1 # 2 < cand_score (nth (mr_six m) srows []) (nth (mr_tix m) trows []))%Q
     /\ mr_differences m = compute_differences dti sh shm thm ex cs iw ien
                             (nth (mr_six m) srows []) (nth (mr_tix m) trows [])).
Proof.
  intros Hf a.
  assert (Ha : cm_inv a).
  { apply content_match_rows_inv; [intros k Hk; apply nth_firstn_skipn, Hk|].
    split; [exact Hf|]. split; constructor. }
  destruct Ha as (Hf' & Hu & Hm). rewrite Forall_forall in Hu, Hm.
  split; [exact Hf'|]. split; [exact Hu|exact Hm].
Qed.

End ContentMatchEntries.

(** The content-match diff [diff_csv_internal] (core.rs) pairs rows for two
    reasons only.  Every Unchanged pair has equal fingerprints: the source
    row's, under the source header map, and the target row's, under the
    source headers and the target header map the diff uses (the source map
    when the header rows differ but have the same length).  Every Modified
    pair scores strictly above 0.5 on [calculate_row_similarity], and its
    differences are [compute_differences] of the two rows. *)
Theorem content_match_entries (dti : string -> string -> bool -> list DiffChange)
    (jw nl : string -> string -> Q) (source_csv target_csv : string) (cs iw ien : bool)
    (ex : list string) (has_headers : bool) (sh : list string) (srows : list record)
    (shm : header_map) (th0 : list string) (trows : list record) (thm0 : header_map)
    (r : DiffResult) :
  parse_csv_internal source_csv has_headers = Ok (sh, srows, shm) ->
  parse_csv_internal target_csv has_headers = Ok (th0, trows, thm0) ->
  diff_csv_internal dti jw nl source_csv target_csv cs iw ien ex has_headers = Ok r ->
  let thm := if negb (strs_eqb sh th0) && (List.length sh =? List.length th0) then shm else thm0 in
  (forall u, In u (unchanged r) ->
     get_row_fingerprint (nth (ur_six u) srows []) sh shm cs iw ien ex
     = get_row_fingerprint (nth (ur_tix u) trows []) sh thm cs iw ien ex)
  /\ (forall m, In m (modified r) ->
     (1 # 2 < calculate_row_similarity jw nl (nth (mr_six m) srows []) (nth (mr_tix m) trows [])
                sh shm thm ex)%Q
     /\ mr_differences m = compute_differences dti sh shm thm ex cs iw ien
                             (nth (mr_six m) srows []) (nth (mr_tix m) trows [])).
Proof.
  intros Es Et H. unfold diff_csv_internal in H. rewrite Es, Et in H. cbn [bind] in H.
  destruct (negb (strs_eqb sh th0) && (List.length sh =? List.length th0));
  match type of H with
  | context [index_targets ?i0 ?tr ?h ?tm ?x ?c ?w ?e ?f0 ?v0] =>
      pose proof (index_targets_ok tr h tm x c w e tr 0 f0 v0 (fun j => eq_refl)
                    (fun k st t (E : assoc_get String.eqb [] k = Some st) => ltac:(discriminate E)))
        as Hf;
      destruct (index_targets i0 tr h tm x c w e f0 v0) as [fps inv]
  end;
  injection H as <-; simpl in Hf; cbv zeta; simpl;
  match goal with
  | |- context [content_match_rows ?d ?h1 ?h2 ?m1 ?m2 ?x ?c ?w ?e ?v ?tr ?sc 0 ?sr ?a0] =>
      exact (content_match_rows_entries d h1 h2 m1 m2 x c w e v sr tr sc fps _ Hf)
  end.
Qed.

(** ** The chunked session: content-match chunks and primary-key chunks *)

Lemma chunk_step_inv (dti : string -> string -> bool -> list DiffChange) (d : CsvDifferInternal)
    (s z : nat) (r : DiffResult) (d' : CsvDifferInternal) (fps : fp_map) (u : list nat)
    (inv : inv_map) :
  String.eqb (d_mode d) "primary-key" = false ->
  d_unmatched_target_indices d = Some u -> d_target_fingerprint_lookup d = Some fps ->
  d_inverted_index d = Some inv ->
  (forall k st t, assoc_get String.eqb fps k = Some st -> In t st ->
     get_row_fingerprint (nth t (d_target_rows d) []) (d_source_headers d) (d_target_header_map d)
       (d_case_sensitive d) (d_ignore_whitespace d) (d_ignore_empty_vs_null d)
       (d_excluded_columns d) = k) ->
  diff_chunk dti d s z = Ok (r, d') ->
  (exists u' fps', d' = with_state d (d_source_map d) (d_target_map d) (Some u') (Some fps') (Some inv)
     /\ forall k st t, assoc_get String.eqb fps' k = Some st -> In t st ->
          get_row_fingerprint (nth t (d_target_rows d) []) (d_source_headers d)
            (d_target_header_map d) (d_case_sensitive d) (d_ignore_whitespace d)
            (d_ignore_empty_vs_null d) (d_excluded_columns d) = k)
  /\ (forall x, In x (unchanged r) ->
     get_row_fingerprint (nth (ur_six x) (d_source_rows d) []) (d_source_headers d)
       (d_source_header_map d) (d_case_sensitive d) (d_ignore_whitespace d)
       (d_ignore_empty_vs_null d) (d_excluded_columns d)
     = get_row_fingerprint (nth (ur_tix x) (d_target_rows d) []) (d_source_headers d)
       (d_target_header_map d) (d_case_sensitive d) (d_ignore_whitespace d)
       (d_ignore_empty_vs_null d) (d_excluded_columns d))
  /\ (forall m, In m (modified r) ->
     (1 # 2 < chunk_candidate_score (d_source_headers d) (d_source_header_map d)
                (d_target_header_map d) (d_excluded_columns d) (d_case_sensitive d)
                (d_ignore_whitespace d) (nth (mr_six m) (d_source_rows d) [])
                (nth (mr_tix m) (d_target_rows d) []))%Q
     /\ mr_differences m = compute_differences dti (d_source_headers d) (d_source_header_map d)
          (d_target_header_map d) (d_excluded_columns d) (d_case_sensitive d)
          (d_ignore_whitespace d) (d_ignore_empty_vs_null d)
          (nth (mr_six m) (d_source_rows d) []) (nth (mr_tix m) (d_target_rows d) [])).
Proof.
  intros Hm Hu Hf Hi Hok H. unfold diff_chunk in H. rewrite Hm in H.
  unfold diff_content_match_chunk in H. rewrite Hu, Hf, Hi in H. cbv zeta in H.
  injection H as <- <-.
  match goal with
  | |- context [content_match_rows ?dt ?h1 ?h2 ?m1 ?m2 ?x ?c ?w ?e ?v ?tr ?sc ?s0
                  (firstn ?m (skipn _ ?sr)) _] =>
      pose proof (content_match_rows_slice dt h1 h2 m1 m2 x c w e v sr tr sc s0 m fps u Hok) as HS
  end.
  cbv zeta in HS. destruct HS as (H1 & H2 & H3). split; [|split; [exact H2|exact H3]].
  eexists _, _. split; [reflexivity|exact H1].
Qed.

Lemma session_after_inv (dti : string -> string -> bool -> list DiffChange)
    (chunks : list (nat * nat)) :
  forall d d',
  String.eqb (d_mode d) "primary-key" = false ->
  (exists fps u inv, d_unmatched_target_indices d = Some u
     /\ d_target_fingerprint_lookup d = Some fps /\ d_inverted_index d = Some inv
     /\ forall k st t, assoc_get String.eqb fps k = Some st -> In t st ->
          get_row_fingerprint (nth t (d_target_rows d) []) (d_source_headers d)
            (d_target_header_map d) (d_case_sensitive d) (d_ignore_whitespace d)
            (d_ignore_empty_vs_null d) (d_excluded_columns d) = k) ->
  session_after dti d chunks = Ok d' ->
  String.eqb (d_mode d') "primary-key" = false
  /\ exists fps u inv, d_unmatched_target_indices d' = Some u
     /\ d_target_fingerprint_lookup d' = Some fps /\ d_inverted_index d' = Some inv
     /\ forall k st t, assoc_get String.eqb fps k = Some st -> In t st ->
          get_row_fingerprint (nth t (d_target_rows d') []) (d_source_headers d')
            (d_target_header_map d') (d_case_sensitive d') (d_ignore_whitespace d')
            (d_ignore_empty_vs_null d') (d_excluded_columns d') = k.
Proof.
  induction chunks as [|[s z] rest IH]; intros d d' Hm Hinv H; simpl in H.
  - injection H as <-. split; [exact Hm|exact Hinv].
  - destruct (diff_chunk dti d s z) as [[r d1]|e] eqn:E; [|discriminate]. simpl in H.
    destruct Hinv as (fps & u & inv & Hu & Hf & Hi & Hok).
    destruct (chunk_step_inv dti d s z r d1 fps u inv Hm Hu Hf Hi Hok E)
      as ((u' & fps' & -> & Hok') & _ & _).
    refine (IH _ d' _ _ H); [exact Hm|].
    exists fps', u', inv. simpl. split; [reflexivity|]. split; [reflexivity|].
    split; [reflexivity|exact Hok'].
Qed.

Lemma new_differ_content_match_inv (source_csv target_csv : string) (key_columns : list string)
    (cs iw ien : bool) (ex : list string) (has_headers : bool) (d : CsvDifferInternal) :
  new_differ source_csv target_csv key_columns cs iw ien ex has_headers "content-match" = Ok d ->
  String.eqb (d_mode d) "primary-key" = false
  /\ exists fps u inv, d_unmatched_target_indices d = Some u
     /\ d_target_fingerprint_lookup d = Some fps /\ d_inverted_index d = Some inv
     /\ forall k st t, assoc_get String.eqb fps k = Some st -> In t st ->
          get_row_fingerprint (nth t (d_target_rows d) []) (d_source_headers d)
            (d_target_header_map d) (d_case_sensitive d) (d_ignore_whitespace d)
            (d_ignore_empty_vs_null d) (d_excluded_columns d) = k.
Proof.
  intros H. unfold new_differ in H.
  destruct (parse_csv_internal source_csv has_headers) as [[[sh srows] shm]|e]; [|discriminate].
  cbn [bind] in H.
  destruct (parse_csv_internal target_csv has_headers) as [[[th trows] thm]|e]; [|discriminate].
  cbn [bind] in H.
  match type of H with
  | context [if ?b && negb _ && _ then _ else _] => destruct (b && _ && _)
  end;
  cbv zeta in H; simpl in H; unfold init_content_match in H; simpl in H;
  match type of H with
  | context [index_targets ?i0 ?tr ?h ?tm ?x ?c ?w ?e ?f0 ?v0] =>
      pose proof (index_targets_ok tr h tm x c w e tr 0 f0 v0 (fun j => eq_refl)
                    (fun k st t (E : assoc_get String.eqb [] k = Some st) => ltac:(discriminate E)))
        as Hf;
      destruct (index_targets i0 tr h tm x c w e f0 v0) as [fps inv]
  end;
  injection H as <-; simpl in Hf |- *; (split; [reflexivity|]);
  exists fps, (seq 0 (List.length trows)), inv; (split; [reflexivity|]);
  (split; [reflexivity|]); (split; [reflexivity|exact Hf]).
Qed.

(** In a content-match session ([CsvDifferInternal::new] with mode
    "content-match", then any sequence of [diff_chunk] calls), every chunk
    result pairs rows for two reasons only.  Every Unchanged pair has equal
    fingerprints (the source row's under the source header map, the target
    row's under the source headers and the session's target header map).
    Every Modified pair scores strictly above 0.5 on the chunk's match-count
    score, and its differences are [compute_differences] of the two rows.
    The fingerprint stacks the session carries to the next chunk stay
    consistent with the target rows: every index on the stack of key [k] is
    a target row whose fingerprint is [k]. *)
Theorem content_match_chunk_entries (dti : string -> string -> bool -> list DiffChange)
    (source_csv target_csv : string) (key_columns : list string) (cs iw ien : bool)
    (ex : list string) (has_headers : bool) (d0 : CsvDifferInternal) (chunks : list (nat * nat))
    (d : CsvDifferInternal) (s z : nat) (r : DiffResult) (d' : CsvDifferInternal) :
  new_differ source_csv target_csv key_columns cs iw ien ex has_headers "content-match" = Ok d0 ->
  session_after dti d0 chunks = Ok d ->
  diff_chunk dti d s z = Ok (r, d') ->
  (forall x, In x (unchanged r) ->
     get_row_fingerprint (nth (ur_six x) (d_source_rows d) []) (d_source_headers d)
       (d_source_header_map d) cs iw ien ex
     = get_row_fingerprint (nth (ur_tix x) (d_target_rows d) []) (d_source_headers d)
       (d_target_header_map d) cs iw ien ex)
  /\ (forall m, In m (modified r) ->
     (1 # 2 < chunk_candidate_score (d_source_headers d) (d_source_header_map d)
                (d_target_header_map d) ex cs iw (nth (mr_six m) (d_source_rows d) [])
                (nth (mr_tix m) (d_target_rows d) []))%Q
     /\ mr_differences m = compute_differences dti (d_source_headers d) (d_source_header_map d)
          (d_target_header_map d) ex cs iw ien
          (nth (mr_six m) (d_source_rows d) []) (nth (mr_tix m) (d_target_rows d) []))
  /\ (exists fps', d_target_fingerprint_lookup d' = Some fps'
     /\ forall k st t, assoc_get String.eqb fps' k = Some st -> In t st ->
          get_row_fingerprint (nth t (d_target_rows d') []) (d_source_headers d')
            (d_target_header_map d') cs iw ien ex = k).
Proof.
  intros H0 Hs H.
  assert (Hopt : d_case_sensitive d = cs /\ d_ignore_whitespace d = iw
                 /\ d_ignore_empty_vs_null d = ien /\ d_excluded_columns d = ex).
  { clear H. revert d0 H0 Hs.
    assert (Hkeep : forall d1 d2, session_after dti d1 chunks = Ok d2 ->
              d_case_sensitive d2 = d_case_sensitive d1 /\ d_ignore_whitespace d2 = d_ignore_whitespace d1
              /\ d_ignore_empty_vs_null d2 = d_ignore_empty_vs_null d1
              /\ d_excluded_columns d2 = d_excluded_columns d1).
    { induction chunks as [|[s1 z1] rest IH]; intros d1 d2 E; simpl in E.
      - injection E as <-. auto.
      - destruct (diff_chunk dti d1 s1 z1) as [[r1 d3]|e] eqn:Ec; [|discriminate]. simpl in E.
        destruct (IH _ _ E) as (A1 & A2 & A3 & A4). rewrite A1, A2, A3, A4.
        unfold diff_chunk in Ec. destruct (String.eqb (d_mode d1) "primary-key").
        + destruct (diff_primary_key_chunk dti d1 s1 z1); [|discriminate].
          injection Ec as _ <-. auto.
        + unfold diff_content_match_chunk in Ec.
          destruct (d_unmatched_target_indices d1); [|discriminate].
          destruct (d_target_fingerprint_lookup d1); [|discriminate].
          destruct (d_inverted_index d1); [|discriminate].
          injection Ec as _ <-. simpl. auto. }
    intros d0 H0 Hs. destruct (Hkeep _ _ Hs) as (A1 & A2 & A3 & A4). rewrite A1, A2, A3, A4.
    unfold new_differ in H0.
    destruct (parse_csv_internal source_csv has_headers) as [[[sh srows] shm]|e]; [|discriminate].
    cbn [bind] in H0.
    destruct (parse_csv_internal target_csv has_headers) as [[[th trows] thm]|e]; [|discriminate].
    cbn [bind] in H0.
    match type of H0 with
    | context [if ?b && negb _ && _ then _ else _] => destruct (b && _ && _)
    end;
    cbv zeta in H0; simpl in H0; unfold init_content_match in H0; simpl in H0;
    match type of H0 with
    | context [index_targets ?i0 ?tr ?h ?tm ?x ?c ?w ?e ?f0 ?v0] =>
        destruct (index_targets i0 tr h tm x c w e f0 v0)
    end;
    injection H0 as <-; simpl; auto. }
  destruct Hopt as (E1 & E2 & E3 & E4). rewrite <- E1, <- E2, <- E3, <- E4.
  destruct (new_differ_content_match_inv _ _ _ _ _ _ _ _ _ H0) as [Hm0 Hinv0].
  destruct (session_after_inv dti chunks d0 d Hm0 Hinv0 Hs) as [Hm (fps & u & inv & Hu & Hf & Hi & Hok)].
  destruct (chunk_step_inv dti d s z r d' fps u inv Hm Hu Hf Hi Hok H)
    as ((u' & fps' & -> & Hok') & H2 & H3).
  split; [exact H2|]. split; [exact H3|].
  exists fps'. split; [reflexivity|exact Hok'].
Qed.

(** A primary-key chunk ([diff_primary_key_chunk], reached through
    [diff_chunk]) leaves the session as it was and classifies exactly the
    target rows [[start, chunk_end)], each once, where [chunk_end] is the
    [usize] sum [start + size] (wrapping modulo 2^32) capped at the number
    [n] of target rows; the range is empty when [chunk_end <= start].  It
    reports the Removed rows ([find_removed] of the two key maps) exactly
    when [chunk_end] reaches [n], and none otherwise. *)
Theorem pk_chunk_target_rows (dti : string -> string -> bool -> list DiffChange)
    (d : CsvDifferInternal) (s z : nat) (sm tm : key_map) :
  String.eqb (d_mode d) "primary-key" = true ->
  d_source_map d = Some sm -> d_target_map d = Some tm ->
  let n := List.length (d_target_rows d) in
  let chunk_end := N.to_nat (N.min ((N.of_nat s + N.of_nat z) mod 4294967296) (N.of_nat n))%N in
  exists r, diff_chunk dti d s z = Ok (r, d)
    /\ Permutation (target_ids r) (seq s (chunk_end - s))
    /\ (chunk_end < n -> removed r = [])
    /\ (n <= chunk_end -> removed r = find_removed sm tm (d_source_rows d) (d_source_headers d)).
Proof.
  intros Hm Hs Ht n chunk_end. unfold diff_chunk. rewrite Hm. unfold diff_primary_key_chunk.
  rewrite Hs, Ht. cbv zeta. fold n. change (chunk_end_of s z n) with chunk_end.
  match goal with
  | |- context [split_classified ?l] =>
      pose proof (split_classified_ids l) as Hids; destruct (split_classified l) as [[a m] u]
  end.
  destruct Hids as [H1 _]. cbn [bind].
  eexists. split; [reflexivity|]. unfold target_ids. simpl. split; [|split].
  - eapply perm_trans; [exact H1|]. rewrite map_map.
    erewrite map_ext; [|intros i; apply classify_tix]. rewrite map_id. apply Permutation_refl.
  - intros Hlt. destruct (n <=? chunk_end) eqn:E; [|reflexivity].
    apply Nat.leb_le in E. lia.
  - intros Hle. replace (n <=? chunk_end) with true; [reflexivity|].
    symmetry. apply Nat.leb_le. exact Hle.
Qed.

(** ** Content-match Added rows: ascending target order, numbered from 1 *)

Lemma insert_by_hd (x y : nat) (r : list nat) :
  y < x -> HdRel lt y r -> HdRel lt y (insert_by Nat.leb x r).
Proof.
  intros Hyx Hr. destruct r as [|w r]; simpl; [constructor; exact Hyx|].
  destruct (Nat.leb x w); constructor; [exact Hyx|inversion Hr; assumption].
Qed.

Lemma insert_by_sorted (x : nat) (l : list nat) :
  Sorted lt l -> ~ In x l -> Sorted lt (insert_by Nat.leb x l).
Proof.
  induction l as [|y r IH]; intros Hs Hn; simpl; [repeat constructor|].
  apply Sorted_inv in Hs. destruct Hs as [Hs Hh].
  assert (y <> x) by (intros ->; apply Hn; left; reflexivity).
  destruct (Nat.leb x y) eqn:E.
  - apply Nat.leb_le in E. constructor; [constructor; [exact Hs|exact Hh]|]. constructor. lia.
  - apply Nat.leb_gt in E. constructor.
    + apply IH; [exact Hs|]. intros Hx. apply Hn. right. exact Hx.
    + apply insert_by_hd; [lia|exact Hh].
Qed.

Lemma sort_by_sorted (l : list nat) : NoDup l -> Sorted lt (sort_by Nat.leb l).
Proof.
  induction l as [|x r IH]; intros Hnd; simpl; [constructor|].
  apply NoDup_cons_iff in Hnd. destruct Hnd as [Hx Hnd].
  apply insert_by_sorted; [apply IH, Hnd|].
  intros Hin. apply Hx. apply (Permutation_in _ (sort_by_perm Nat.leb r)), Hin.
Qed.

Lemma added_rows_from_keys (k : nat) (idxs : list nat) (target_rows : list record)
    (target_headers : list string) :
  map ar_key (added_rows_from k idxs target_rows target_headers)
  = map (fun j => ("Added " ++ string_of_nat j)%string) (seq k (List.length idxs)).
Proof.
  revert k. induction idxs as [|i idxs IH]; intros k; simpl; [reflexivity|]. rewrite IH. reflexivity.
Qed.

Lemma length_added_rows_from (k : nat) (idxs : list nat) (target_rows : list record)
    (target_headers : list string) :
  List.length (added_rows_from k idxs target_rows target_headers) = List.length idxs.
Proof.
  revert k. induction idxs as [|i idxs IH]; intros k; simpl; [reflexivity|]. rewrite IH. reflexivity.
Qed.

Lemma remaining_added_order (u : list nat) (target_rows : list record) (th : list string) :
  NoDup u ->
  Sorted lt (map ar_tix (remaining_added u target_rows th))
  /\ map ar_key (remaining_added u target_rows th)
     = map (fun j => ("Added " ++ string_of_nat j)%string)
           (seq 1 (List.length (remaining_added u target_rows th))).
Proof.
  intros Hnd. unfold remaining_added. rewrite added_rows_from_tix, added_rows_from_keys,
    length_added_rows_from. split; [|reflexivity]. apply sort_by_sorted, Hnd.
Qed.

(** The one-shot content-match diff [diff_csv_internal] lists its Added
    rows (the target rows no source row was paired with) in ascending
    target-row order, each target row once, keyed "Added 1", "Added 2", ...
    in that order. *)
Theorem content_match_added_order (dti : string -> string -> bool -> list DiffChange)
    (jw nl : string -> string -> Q) (source_csv target_csv : string) (cs iw ien : bool)
    (ex : list string) (has_headers : bool) (r : DiffResult) :
  diff_csv_internal dti jw nl source_csv target_csv cs iw ien ex has_headers = Ok r ->
  Sorted lt (map ar_tix (added r))
  /\ map ar_key (added r)
     = map (fun j => ("Added " ++ string_of_nat j)%string) (seq 1 (List.length (added r))).
Proof.
  intros H. unfold diff_csv_internal in H.
  destruct (parse_csv_internal source_csv has_headers) as [[[sh srows] shm]|e]; [|discriminate].
  cbn [bind] in H.
  destruct (parse_csv_internal target_csv has_headers) as [[[th trows] thm]|e]; [|discriminate].
  cbn [bind] in H.
  destruct (negb (strs_eqb sh th) && (List.length sh =? List.length th));
  match type of H with
  | context [index_targets ?i0 ?tr ?h ?tm ?x ?c ?w ?e ?f0 ?v0] =>
      destruct (index_targets i0 tr h tm x c w e f0 v0) as [fps inv]
  end;
  injection H as <-; simpl;
  match goal with
  | |- context [content_match_rows ?d ?h1 ?h2 ?m1 ?m2 ?x ?c ?w ?e ?v ?tr ?sc 0 ?sr ?a0] =>
      destruct (content_match_rows_ids d h1 h2 m1 m2 x c w e v tr sc (List.length trows) sr 0 a0
                  (seq_NoDup _ _) (Permutation_refl _)) as (Hnd & _ & _)
  end;
  apply remaining_added_order, Hnd.
Qed.

(** ** Instances of the theorems and counterexamples *)

Lemma eq_indicator_range (a b : string) : (0 <= eq_indicator a b <= 1)%Q.
Proof. unfold eq_indicator. destruct (String.eqb a b); lra. Qed.

Lemma eq_indicator_one (a b : string) : (eq_indicator a b == 1)%Q -> a = b.
Proof.
  unfold eq_indicator. destruct (String.eqb_spec a b) as [E|_]; [auto|].
  intros H. exfalso. lra.
Qed.

Lemma run_chunks_pk_no_targets (dti : string -> string -> bool -> list DiffChange)
    (d : CsvDifferInternal) (sm tm : key_map) (k : nat) :
  d_mode d = "primary-key" -> d_source_map d = Some sm -> d_target_map d = Some tm ->
  d_target_rows d = [] ->
  List.length (find_removed sm tm (d_source_rows d) (d_source_headers d)) = k ->
  forall chunks, run_chunks dti d chunks = Ok (0, List.length chunks * k, 0, 0)%nat.
Proof.
  intros Hm Hs Ht Hr Hk chunks. induction chunks as [|[s size] rest IH]; simpl; [reflexivity|].
  unfold diff_chunk. rewrite Hm. simpl. unfold diff_primary_key_chunk. rewrite Hs, Ht, Hr.
  simpl. replace (chunk_end_of s size 0) with 0%nat
    by (unfold chunk_end_of; simpl; rewrite N.min_0_r; reflexivity).
  rewrite Nat.sub_0_l. simpl. rewrite IH. simpl. unfold counts. simpl.
  rewrite Hk. reflexivity.
Qed.

(** C1, instance: both modes on the example inputs. *)
Lemma partition_invariant_witness :
  match diff_csv_primary_key_internal no_spans example_source example_target ["id"]
          true false false [] true with
  | Ok r => Permutation (source_ids r) (seq 0 (List.length (dm_rows (source r))))
            /\ Permutation (target_ids r) (seq 0 (List.length (dm_rows (target r))))
  | Err _ => False
  end
  /\ match diff_csv_internal no_spans eq_indicator eq_indicator example_source example_target
             true false false [] true with
     | Ok r => Permutation (source_ids r) (seq 0 (List.length (dm_rows (source r))))
               /\ Permutation (target_ids r) (seq 0 (List.length (dm_rows (target r))))
     | Err _ => False
     end.
Proof.
  split.
  - destruct (diff_csv_primary_key_internal no_spans example_source example_target ["id"]
                true false false [] true) as [r|e] eqn:E;
      [|vm_compute in E; discriminate E].
    exact (proj1 (partition_invariant no_spans eq_indicator eq_indicator example_source
                    example_target ["id"] true false false [] true) r E).
  - destruct (diff_csv_internal no_spans eq_indicator eq_indicator example_source example_target
                true false false [] true) as [r|e] eqn:E;
      [|vm_compute in E; discriminate E].
    exact (proj2 (partition_invariant no_spans eq_indicator eq_indicator example_source
                    example_target ["id"] true false false [] true) r E).
Defined.

(** C2, instance: two chunks [0, 1) and [1, 6) over the three target rows. *)
Lemma chunked_pk_counts_witness :
  match diff_csv_primary_key_internal no_spans example_source example_target ["id"]
          true false false [] true with
  | Ok r => valid_chunks (List.length (dm_rows (target r))) [(0, 1); (1, 5)] = true
            /\ exists d, new_differ example_source example_target ["id"] true false false [] true
                           "primary-key" = Ok d
                         /\ run_chunks no_spans d [(0, 1); (1, 5)] = Ok (counts r)
  | Err _ => False
  end.
Proof.
  destruct (diff_csv_primary_key_internal no_spans example_source example_target ["id"]
              true false false [] true) as [r|e] eqn:E.
  - assert (Hv : valid_chunks (List.length (dm_rows (target r))) [(0, 1); (1, 5)] = true).
    { pose proof E as E'. vm_compute in E'. injection E' as E'. subst r. vm_compute. reflexivity. }
    split; [exact Hv|].
    exact (chunked_pk_counts no_spans example_source example_target ["id"] true false false [] true
             r [(0, 1); (1, 5)] E Hv).
  - vm_compute in E. discriminate E.
Defined.

(** C2, counterexample: a target with no data rows.  The one-shot diff
    reports the source row once as Removed; every sequence of two or more
    [diff_chunk] calls on the session reports it once per call. *)
Lemma chunked_pk_counts_counterexample :
  match diff_csv_primary_key_internal no_spans ("id,name" ++ nl ++ "1,A")%string "id,name" ["id"]
          true false false [] true,
        new_differ ("id,name" ++ nl ++ "1,A")%string "id,name" ["id"] true false false [] true
          "primary-key" with
  | Ok r, Ok d =>
      counts r = (0, 1, 0, 0)%nat /\ dm_rows (target r) = [] /\ d_target_rows d = []
      /\ forall chunks, (2 <= List.length chunks)%nat ->
           run_chunks no_spans d chunks = Ok (0, List.length chunks, 0, 0)%nat
           /\ run_chunks no_spans d chunks <> Ok (counts r)
  | _, _ => False
  end.
Proof.
  destruct (diff_csv_primary_key_internal no_spans ("id,name" ++ nl ++ "1,A")%string "id,name"
              ["id"] true false false [] true) as [r|e] eqn:E;
    [|vm_compute in E; discriminate E].
  destruct (new_differ ("id,name" ++ nl ++ "1,A")%string "id,name" ["id"] true false false [] true
              "primary-key") as [d|e] eqn:D;
    [|vm_compute in D; discriminate D].
  vm_compute in E. injection E as <-. vm_compute in D. injection D as <-.
  split; [reflexivity|]. split; [reflexivity|]. split; [reflexivity|].
  intros chunks Hc.
  match goal with
  | |- context [run_chunks no_spans ?d chunks] =>
      rewrite (run_chunks_pk_no_targets no_spans d [("1", 0)] [] 1 eq_refl eq_refl eq_refl eq_refl
                 eq_refl chunks)
  end.
  rewrite Nat.mul_1_r. split; [reflexivity|].
  intros H. injection H as H. lia.
Defined.

(** C3, instance: a source with a repeated key. *)
Lemma duplicate_key_error_witness :
  key_map_outcome (diff_csv_primary_key_internal no_spans
                     ("id,name" ++ nl ++ "1,A" ++ nl ++ "1,B")%string example_source ["id"]
                     true false false [] true)
    [["1"; "A"]; ["1"; "B"]] [["1"; "A"]; ["2"; "B"]] example_header_map example_header_map ["id"]
  /\ key_map_outcome (new_differ ("id,name" ++ nl ++ "1,A" ++ nl ++ "1,B")%string example_source
                        ["id"] true false false [] true "primary-key")
       [["1"; "A"]; ["1"; "B"]] [["1"; "A"]; ["2"; "B"]] example_header_map example_header_map ["id"].
Proof.
  apply (duplicate_key_error no_spans ("id,name" ++ nl ++ "1,A" ++ nl ++ "1,B")%string example_source
           ["id"] true false false [] true ["id"; "name"] [["1"; "A"]; ["1"; "B"]] example_header_map
           ["id"; "name"] [["1"; "A"]; ["2"; "B"]] example_header_map);
    vm_compute; reflexivity.
Defined.

(** C3, counterexample: the spec's own example.  The diff fails, but its
    message names the key value "1" and the dataset, not the key column "id". *)
Lemma duplicate_key_error_counterexample :
  diff_csv_primary_key_internal no_spans ("id,name" ++ nl ++ "1,A" ++ nl ++ "1,B")%string
    example_source ["id"] true false false [] true
  = Err (dup_key_message "source" "1")
  /\ str_contains (dup_key_message "source" "1") "source" = true
  /\ str_contains (dup_key_message "source" "1") "id" = false.
Proof. vm_compute. split; [reflexivity|]. split; reflexivity. Defined.

(** C4, instance: an all-digit header row. *)
Lemma parse_header_detection_witness :
  parse_csv_internal ("1,2" ++ nl ++ "a,b")%string true =
    if (List.length ["1"; "2"] =? List.length ["a"; "b"])
       && existsb (fun t => all_digits (trim t)) ["1"; "2"]
    then Ok (column_headers (List.length ["a"; "b"]), [["1"; "2"]; ["a"; "b"]],
             build_header_map (column_headers (List.length ["a"; "b"])))
    else Ok (["1"; "2"], [["a"; "b"]], build_header_map ["1"; "2"]).
Proof.
  apply (parse_header_detection ("1,2" ++ nl ++ "a,b")%string ["1"; "2"] ["a"; "b"] []).
  - discriminate.
  - vm_compute. reflexivity.
Defined.

(** C4, counterexample: one header token ("id") is not all digits, yet the
    header row is discarded and positional headers are synthesized. *)
Lemma parse_header_detection_counterexample :
  header_token_looks_like_data "id" = false
  /\ parse_csv_internal ("id,1" ++ nl ++ "a,b")%string true
     = Ok (["Column1"; "Column2"], [["id"; "1"]; ["a"; "b"]], build_header_map ["Column1"; "Column2"]).
Proof. vm_compute. split; reflexivity. Defined.

(** C5, instance: source row ["1"; "A"] against the single target row
    ["1"; "B"]: the candidate shares the key column only, scores 1/2 and the
    source row is Removed. *)
Lemma content_match_threshold_witness :
  let trows := [["1"; "B"]] in
  let idx := index_targets 0 trows ["id"; "name"] example_header_map [] true false false [] [] in
  let a0 := {| acc_unmatched := [0]; acc_fps := fst idx; acc_removed := []; acc_modified := [];
               acc_unchanged := [] |} in
  let a := content_match_row no_spans ["id"; "name"] ["id"; "name"] example_header_map
             example_header_map [] true false false (snd idx) trows
             (fun sr tr => calculate_row_similarity eq_indicator eq_indicator sr tr ["id"; "name"]
                             example_header_map example_header_map [])
             0 ["1"; "A"] a0 in
  (exists rr, acc_removed a = [rr] /\ rr_six rr = 0)
  /\ acc_modified a = [] /\ acc_unchanged a = [] /\ acc_unmatched a = [0].
Proof.
  intros trows idx a0 a.
  destruct (content_match_threshold no_spans ["id"; "name"] ["id"; "name"] example_header_map
              example_header_map [] true false false (snd idx) trows
              (fun sr tr => calculate_row_similarity eq_indicator eq_indicator sr tr ["id"; "name"]
                              example_header_map example_header_map [])
              0 ["1"; "A"] a0 ltac:(vm_compute; reflexivity)) as [H1 _].
  destruct H1 as [[rr [Hr Hs]] Hrest].
  - intros c Hc. vm_compute in Hc. destruct Hc as [<-|[]].
    apply Qle_bool_iff. vm_compute. reflexivity.
  - split; [exists rr; split; [exact Hr|exact Hs]|exact Hrest].
Defined.

(** C6, instance: the result with every bucket empty. *)
Lemma binary_header_roundtrip_witness :
  let result := {| added := []; removed := []; modified := []; unchanged := [];
                   source := {| dm_headers := []; dm_rows := [] |};
                   target := {| dm_headers := []; dm_rows := [] |};
                   dr_key_columns := []; dr_excluded_columns := []; dr_mode := "primary-key" |} in
  decode_header (encode_diff_result encoder_new result) 0 = Some ((0, 0, 0, 0, 0)%N, 20%nat)
  /\ List.length (encode_diff_result encoder_new result) = 20%nat.
Proof.
  intros result.
  destruct (binary_header_roundtrip result ltac:(vm_compute; reflexivity)) as [H1 H2].
  split; [exact H1|]. apply H2; reflexivity.
Defined.

(** C8, instance: rows agreeing on "id" and differing on "name". *)
Lemma row_similarity_bounds_witness :
  (0 <= calculate_row_similarity eq_indicator eq_indicator ["1"; "A"] ["1"; "B"] ["id"; "name"]
          example_header_map example_header_map [] <= 1)%Q
  /\ (calculate_row_similarity eq_indicator eq_indicator ["1"; "A"] ["1"; "B"] ["id"; "name"]
        example_header_map example_header_map []
      == sum_Q (map (fun h => column_similarity eq_indicator eq_indicator
                               (lookup_cell example_header_map ["1"; "A"] h)
                               (lookup_cell example_header_map ["1"; "B"] h))
                    ["id"; "name"]) / Q_of_nat 2)%Q.
Proof.
  destruct (row_similarity_bounds eq_indicator eq_indicator eq_indicator_range eq_indicator_range
              eq_indicator_one eq_indicator_one ["1"; "A"] ["1"; "B"] ["id"; "name"]
              example_header_map example_header_map []) as (H1 & H2 & _).
  split; [exact H1|]. exact H2.
Defined.

(** C9, instance: the example source against itself. *)
Lemma self_diff_idempotent_witness :
  exists r, diff_csv_primary_key_internal no_spans example_source example_source ["id"]
              true false false [] true = Ok r
            /\ counts r = (0, 0, 0, 2)%nat.
Proof.
  apply (self_diff_idempotent no_spans example_source ["id"] true false false [] true
           ["id"; "name"] [["1"; "A"]; ["2"; "B"]] example_header_map).
  - vm_compute. reflexivity.
  - intros k [<-|[]]. vm_compute. reflexivity.
  - vm_compute. constructor; [simpl; intros [H|[]]; discriminate H|].
    constructor; [simpl; tauto|constructor].
Defined.

(** C10, instance: "A" against "a" case-insensitively. *)
Lemma chunk_score_formula_witness :
  chunk_candidate_score ["name"] [("name", 0)] [("name", 0)] [] false false ["A"] ["a"] == 1
  /\ ~ (calculate_row_similarity eq_indicator eq_indicator ["A"] ["a"] ["name"]
          [("name", 0)] [("name", 0)] [] == 1).
Proof.
  destruct (chunk_score_formula ["name"] [("name", 0)] [("name", 0)] [] false false ["A"] ["a"]
              eq_indicator eq_indicator eq_indicator_one) as (_ & H2 & H3).
  split; [exact H2|exact H3].
Defined.

(** ** Instances of the further theorems *)

(** X1, instance: the string "ab" between the bytes 7 and 9. *)
Lemma string_codec_roundtrip_witness :
  (N.of_nat (String.length "ab") < two32)%N
  /\ read_string (app (write_string [7%N] "ab") [9%N]) (List.length [7%N])
     = Some (str_bytes "ab", List.length (write_string [7%N] "ab")).
Proof.
  split; [vm_compute; reflexivity|].
  apply (string_codec_roundtrip [7%N] [9%N] "ab"). vm_compute. reflexivity.
Defined.

(** X2, instance: a two-field row after one byte. *)
Lemma row_codec_roundtrip_witness :
  (N.of_nat (List.length [("id", "1"); ("name", "A")]) < two32)%N
  /\ Forall field_fits [("id", "1"); ("name", "A")]
  /\ read_row_data (app (write_row_data [7%N] [("id", "1"); ("name", "A")]) [9%N]) (List.length [7%N])
     = Some (map decoded_field [("id", "1"); ("name", "A")],
             List.length (write_row_data [7%N] [("id", "1"); ("name", "A")])).
Proof.
  assert (Hl : (N.of_nat (List.length [("id", "1"); ("name", "A")]) < two32)%N)
    by (vm_compute; reflexivity).
  assert (Hf : Forall field_fits [("id", "1"); ("name", "A")])
    by (repeat constructor; vm_compute; reflexivity).
  split; [exact Hl|]. split; [exact Hf|].
  exact (row_codec_roundtrip [7%N] [9%N] [("id", "1"); ("name", "A")] Hl Hf).
Defined.

(** X4, instance: " Null " with case-sensitive, whitespace-keeping options. *)
Lemma empty_or_null_collapse_witness :
  is_empty_or_null " Null " = true
  /\ normalize_value_with_empty_vs_null " Null " true false true = "EMPTY_OR_NULL"%string.
Proof.
  assert (H : is_empty_or_null " Null " = true) by (vm_compute; reflexivity).
  split; [exact H|]. exact (empty_or_null_collapse " Null " true false H).
Defined.

(** X5, instance: "AbC" and "aBc". *)
Lemma case_insensitive_normalize_witness :
  to_lowercase "AbC" = to_lowercase "aBc"
  /\ normalize_value_with_empty_vs_null "AbC" false true false
     = normalize_value_with_empty_vs_null "aBc" false true false.
Proof.
  assert (H : to_lowercase "AbC" = to_lowercase "aBc") by (vm_compute; reflexivity).
  split; [exact H|]. exact (case_insensitive_normalize "AbC" "aBc" true false H).
Defined.

(** X10, instance: the example inputs keyed on "id". *)
Lemma pk_bucket_entries_witness :
  match parse_csv_internal example_source true, parse_csv_internal example_target true,
        diff_csv_primary_key_internal no_spans example_source example_target ["id"]
          true false false [] true with
  | Ok (sh, srows, shm), Ok (th, trows, thm), Ok r =>
      let kc := ["id"] in
      let sk := fun i => get_row_key (nth i srows []) shm kc in
      let tk := fun j => get_row_key (nth j trows []) thm kc in
      let cd := fun i j => compute_differences no_spans sh shm thm [] true false false
                             (nth i srows []) (nth j trows []) in
      (forall a, In a (added r) ->
         (ar_tix a < List.length trows)%nat /\ ar_key a = tk (ar_tix a)
         /\ ~ In (ar_key a) (row_keys srows shm kc)
         /\ ar_target_row a = record_to_hashmap (nth (ar_tix a) trows []) th)
      /\ (forall x, In x (removed r) ->
         (rr_six x < List.length srows)%nat /\ rr_key x = sk (rr_six x)
         /\ ~ In (rr_key x) (row_keys trows thm kc)
         /\ rr_source_row x = record_to_hashmap (nth (rr_six x) srows []) sh)
      /\ (forall m, In m (modified r) ->
         (mr_six m < List.length srows)%nat /\ (mr_tix m < List.length trows)%nat
         /\ mr_key m = sk (mr_six m) /\ mr_key m = tk (mr_tix m)
         /\ mr_differences m = cd (mr_six m) (mr_tix m) /\ mr_differences m <> []
         /\ mr_source_row m = record_to_hashmap (nth (mr_six m) srows []) sh
         /\ mr_target_row m = record_to_hashmap (nth (mr_tix m) trows []) th)
      /\ (forall u, In u (unchanged r) ->
         (ur_six u < List.length srows)%nat /\ (ur_tix u < List.length trows)%nat
         /\ ur_key u = sk (ur_six u) /\ ur_key u = tk (ur_tix u)
         /\ cd (ur_six u) (ur_tix u) = []
         /\ ur_row u = record_to_hashmap (nth (ur_six u) srows []) sh)
  | _, _, _ => False
  end.
Proof.
  destruct (parse_csv_internal example_source true) as [[[sh srows] shm]|e] eqn:Es;
    [|vm_compute in Es; discriminate Es].
  destruct (parse_csv_internal example_target true) as [[[th trows] thm]|e] eqn:Et;
    [|vm_compute in Et; discriminate Et].
  destruct (diff_csv_primary_key_internal no_spans example_source example_target ["id"]
              true false false [] true) as [r|e] eqn:E; [|vm_compute in E; discriminate E].
  exact (pk_bucket_entries no_spans example_source example_target ["id"] true false false [] true
           sh srows shm th trows thm r Es Et E).
Defined.

(** X11, instance: a source whose key "1" occurs twice. *)
Lemma parallel_pk_last_row_wins_witness :
  match parse_csv_internal ("id,name" ++ nl ++ "1,A" ++ nl ++ "1,B")%string true,
        parse_csv_internal example_target true with
  | Ok (sh, srows, shm), Ok (th, trows, thm) =>
      validate_key_columns ["id"] shm thm = Ok tt
      /\ exists r, diff_csv_parallel_internal ("id,name" ++ nl ++ "1,A" ++ nl ++ "1,B")%string
                     example_target ["id"] true false false [] true = Ok r
         /\ Permutation (source_ids r) (last_occurrences (row_keys srows shm ["id"]))
         /\ Permutation (target_ids r) (last_occurrences (row_keys trows thm ["id"]))
  | _, _ => False
  end.
Proof.
  destruct (parse_csv_internal ("id,name" ++ nl ++ "1,A" ++ nl ++ "1,B")%string true)
    as [[[sh srows] shm]|e] eqn:Es; [|vm_compute in Es; discriminate Es].
  destruct (parse_csv_internal example_target true) as [[[th trows] thm]|e] eqn:Et;
    [|vm_compute in Et; discriminate Et].
  assert (Hv : validate_key_columns ["id"] shm thm = Ok tt).
  { pose proof Es as Es'. pose proof Et as Et'. vm_compute in Es', Et'.
    injection Es' as _ _ <-. injection Et' as _ _ <-. vm_compute. reflexivity. }
  split; [exact Hv|].
  exact (parallel_pk_last_row_wins ("id,name" ++ nl ++ "1,A" ++ nl ++ "1,B")%string example_target
           ["id"] true false false [] true sh srows shm th trows thm Es Et Hv).
Defined.

(** X12, instance: the example inputs keyed on "id". *)
Lemma parallel_pk_entries_witness :
  match parse_csv_internal example_source true, parse_csv_internal example_target true,
        diff_csv_parallel_internal example_source example_target ["id"] true false false [] true with
  | Ok (sh, srows, shm), Ok (th, trows, thm), Ok r =>
      let cd := fun i j => compute_differences no_spans sh shm thm [] true false false
                             (nth i srows []) (nth j trows []) in
      (forall u, In u (unchanged r) ->
         ur_row u = record_to_hashmap (nth (ur_tix u) trows []) th /\ cd (ur_six u) (ur_tix u) = [])
      /\ (forall m, In m (modified r) ->
         mr_differences m = cd (mr_six m) (mr_tix m) /\ Forall (fun d => diff d = []) (mr_differences m))
      /\ dr_mode r = "primary_key"%string
  | _, _, _ => False
  end.
Proof.
  destruct (parse_csv_internal example_source true) as [[[sh srows] shm]|e] eqn:Es;
    [|vm_compute in Es; discriminate Es].
  destruct (parse_csv_internal example_target true) as [[[th trows] thm]|e] eqn:Et;
    [|vm_compute in Et; discriminate Et].
  destruct (diff_csv_parallel_internal example_source example_target ["id"] true false false [] true)
    as [r|e] eqn:E; [|vm_compute in E; discriminate E].
  exact (parallel_pk_entries example_source example_target ["id"] true false false [] true
           sh srows shm th trows thm r Es Et E).
Defined.

(** X13, instance: the example inputs, with an equality score per field. *)
Lemma content_match_entries_witness :
  match parse_csv_internal example_source true, parse_csv_internal example_target true,
        diff_csv_internal no_spans eq_indicator eq_indicator example_source example_target
          true false false [] true with
  | Ok (sh, srows, shm), Ok (th0, trows, thm0), Ok r =>
      let thm := if negb (strs_eqb sh th0) && (List.length sh =? List.length th0) then shm else thm0 in
      (forall u, In u (unchanged r) ->
         get_row_fingerprint (nth (ur_six u) srows []) sh shm true false false []
         = get_row_fingerprint (nth (ur_tix u) trows []) sh thm true false false [])
      /\ (forall m, In m (modified r) ->
         (1 # 2 < calculate_row_similarity eq_indicator eq_indicator (nth (mr_six m) srows [])
                    (nth (mr_tix m) trows []) sh shm thm [])%Q
         /\ mr_differences m = compute_differences no_spans sh shm thm [] true false false
                                 (nth (mr_six m) srows []) (nth (mr_tix m) trows []))
  | _, _, _ => False
  end.
Proof.
  destruct (parse_csv_internal example_source true) as [[[sh srows] shm]|e] eqn:Es;
    [|vm_compute in Es; discriminate Es].
  destruct (parse_csv_internal example_target true) as [[[th0 trows] thm0]|e] eqn:Et;
    [|vm_compute in Et; discriminate Et].
  destruct (diff_csv_internal no_spans eq_indicator eq_indicator example_source example_target
              true false false [] true) as [r|e] eqn:E; [|vm_compute in E; discriminate E].
  exact (content_match_entries no_spans eq_indicator eq_indicator example_source example_target
           true false false [] true sh srows shm th0 trows thm0 r Es Et E).
Defined.

(** X14, instance: a content-match session on the example inputs, chunk
    [0, 1) and then chunk [1, 6). *)
Lemma content_match_chunk_entries_witness :
  match new_differ example_source example_target [] true false false [] true "content-match" with
  | Ok d0 =>
      match session_after no_spans d0 [(0, 1)] with
      | Ok d =>
          match diff_chunk no_spans d 1 5 with
          | Ok (r, d') =>
              (forall x, In x (unchanged r) ->
                 get_row_fingerprint (nth (ur_six x) (d_source_rows d) []) (d_source_headers d)
                   (d_source_header_map d) true false false []
                 = get_row_fingerprint (nth (ur_tix x) (d_target_rows d) []) (d_source_headers d)
                   (d_target_header_map d) true false false [])
              /\ (forall m, In m (modified r) ->
                 (1 # 2 < chunk_candidate_score (d_source_headers d) (d_source_header_map d)
                            (d_target_header_map d) [] true false
                            (nth (mr_six m) (d_source_rows d) [])
                            (nth (mr_tix m) (d_target_rows d) []))%Q
                 /\ mr_differences m = compute_differences no_spans (d_source_headers d)
                      (d_source_header_map d) (d_target_header_map d) [] true false false
                      (nth (mr_six m) (d_source_rows d) []) (nth (mr_tix m) (d_target_rows d) []))
              /\ (exists fps', d_target_fingerprint_lookup d' = Some fps'
                 /\ forall k st t, assoc_get String.eqb fps' k = Some st -> In t st ->
                      get_row_fingerprint (nth t (d_target_rows d') []) (d_source_headers d')
                        (d_target_header_map d') true false false [] = k)
          | Err _ => False
          end
      | Err _ => False
      end
  | Err _ => False
  end.
Proof.
  destruct (new_differ example_source example_target [] true false false [] true "content-match")
    as [d0|e] eqn:E0; [|vm_compute in E0; discriminate E0].
  pose proof E0 as F0. vm_compute in F0. injection F0 as F0. subst d0.
  destruct (session_after no_spans _ [(0, 1)]) as [d|e] eqn:E1; [|vm_compute in E1; discriminate E1].
  pose proof E1 as F1. vm_compute in F1. injection F1 as F1. subst d.
  destruct (diff_chunk no_spans _ 1 5) as [[r d']|e] eqn:E2; [|vm_compute in E2; discriminate E2].
  exact (content_match_chunk_entries no_spans example_source example_target [] true false false []
           true _ [(0, 1)] _ 1 5 r d' E0 E1 E2).
Defined.

(** X15, instance: a primary-key session on the example inputs, chunk [1, 6)
    capped at the three target rows. *)
Lemma pk_chunk_target_rows_witness :
  match new_differ example_source example_target ["id"] true false false [] true "primary-key" with
  | Ok d =>
      match d_source_map d, d_target_map d with
      | Some sm, Some tm =>
          String.eqb (d_mode d) "primary-key" = true
          /\ let n := List.length (d_target_rows d) in
             let chunk_end := N.to_nat (N.min ((N.of_nat 1 + N.of_nat 5) mod 4294967296)
                                              (N.of_nat n))%N in
             exists r, diff_chunk no_spans d 1 5 = Ok (r, d)
               /\ Permutation (target_ids r) (seq 1 (chunk_end - 1))
               /\ (chunk_end < n -> removed r = [])
               /\ (n <= chunk_end -> removed r = find_removed sm tm (d_source_rows d) (d_source_headers d))
      | _, _ => False
      end
  | Err _ => False
  end.
Proof.
  destruct (new_differ example_source example_target ["id"] true false false [] true "primary-key")
    as [d|e] eqn:E; [|vm_compute in E; discriminate E].
  pose proof E as F. vm_compute in F. injection F as F. subst d.
  cbn [d_source_map d_target_map].
  split; [reflexivity|].
  match goal with
  | |- context [diff_chunk no_spans ?d 1 5] =>
      exact (pk_chunk_target_rows no_spans d 1 5 _ _ eq_refl eq_refl eq_refl)
  end.
Defined.

(** X16, instance: the example inputs, with an equality score per field. *)
Lemma content_match_added_order_witness :
  match diff_csv_internal no_spans eq_indicator eq_indicator example_source example_target
          true false false [] true with
  | Ok r => Sorted lt (map ar_tix (added r))
            /\ map ar_key (added r)
               = map (fun j => ("Added " ++ string_of_nat j)%string) (seq 1 (List.length (added r)))
  | Err _ => False
  end.
Proof.
  destruct (diff_csv_internal no_spans eq_indicator eq_indicator example_source example_target
              true false false [] true) as [r|e] eqn:E; [|vm_compute in E; discriminate E].
  exact (content_match_added_order no_spans eq_indicator eq_indicator example_source example_target
           true false false [] true r E).
Defined.
